(** * Session recorder of pupylib/PupyModule.py (class [Log])

    A shallow embedding of the [Log] stream of [pupylib/PupyModule.py]:
    the object that forwards every write to a live console sink and
    records it in a plain, ttyrec or asciinema log.

    Python 2 values are modelled as the code uses them: [str] is a list of
    8-bit characters, [unicode] a list of code points, integers are [Z],
    wall-clock readings ([time.time()], a float) are rationals [Q], and a
    product of floats is rounded to the nearest double.  The two sinks are
    modelled by the list of calls they received.  Exceptions are explicit:
    an operation returns the state it leaves behind together with [Ok] or
    [Raise]. *)

From Stdlib Require Import Ascii String ZArith NArith QArith Qround Qabs.
From Stdlib Require Import Lia Btauto Bool List Permutation.
Import ListNotations.

Set Warnings "-register-all".
Local Open Scope Z_scope.

(** ** Python 2 strings *)

Definition bytes := list ascii.
Definition text := list N.

(** A literal of the source, as a byte string. *)
Definition B (s : string) : bytes := list_ascii_of_string s.

Definition dquote : ascii := "034"%char.
Definition newline : ascii := "010"%char.
Definition ESC : ascii := "027"%char.

(** [basestring]: either [str] or [unicode]. *)
Inductive pydata : Type :=
| Str (b : bytes)
| Uni (u : text).

Inductive exn : Type :=
| UnicodeDecodeError
| StructError
| AttributeError
| ValueError
| IOError.

Inductive result (A : Type) : Type :=
| Ok (a : A)
| Raise (e : exn).
Arguments Ok {A} a.
Arguments Raise {A} e.

Definition rbind {A C : Type} (r : result A) (k : A -> result C) : result C :=
  match r with
  | Ok a => k a
  | Raise e => Raise e
  end.

(** Truth value of a string: non-empty. *)
Definition truthy (d : pydata) : bool :=
  match d with
  | Str [] => false
  | Uni [] => false
  | _ => true
  end.

(** [len(data)] *)
Definition py_len (d : pydata) : Z :=
  match d with
  | Str b => Z.of_nat (length b)
  | Uni u => Z.of_nat (length u)
  end.

Definition is_ascii (c : ascii) : bool := (N_of_ascii c <? 128)%N.

(** Implicit coercion of a [str] to [unicode], with the default (ASCII)
    codec. *)
Definition ascii_decode (b : bytes) : result text :=
  if forallb is_ascii b then Ok (map N_of_ascii b) else Raise UnicodeDecodeError.

(** [x + y] on strings; a [str] operand is coerced when the other one is
    [unicode]. *)
Definition py_add (x y : pydata) : result pydata :=
  match x, y with
  | Str a, Str b => Ok (Str (a ++ b))
  | Uni a, Uni b => Ok (Uni (a ++ b))
  | Str a, Uni b => rbind (ascii_decode a) (fun a' => Ok (Uni (a' ++ b)))
  | Uni a, Str b => rbind (ascii_decode b) (fun b' => Ok (Uni (a ++ b')))
  end.

(** ** The UTF-8 codec ([str.decode('utf-8', errors=...)]) *)

Inductive errors : Type := Strict | Ignore | Replace.

Definition cont (c : ascii) : bool := (N.land (N_of_ascii c) 192 =? 128)%N.
Definition low6 (c : ascii) : N := N.land (N_of_ascii c) 63.

(** The decoder's answer at one position: a code point and the number of
    bytes it took, or the number of bytes of an ill-formed sequence. *)
Inductive utf8_step : Type :=
| Good (cp : N) (used : nat)
| Bad (used : nat).

(** The decoder of CPython 2.7: over-long forms and code points above
    U+10FFFF are ill-formed, the three-byte forms of the surrogates
    U+D800..U+DFFF are decoded. *)
Definition utf8_next (s : bytes) : utf8_step :=
  match s with
  | [] => Bad 0
  | c0 :: s1 =>
    let b0 := N_of_ascii c0 in
    if (b0 <? 128)%N then Good b0 1
    else if (b0 <? 194)%N then Bad 1
    else if (b0 <? 224)%N then
      match s1 with
      | c1 :: _ =>
        if cont c1 then Good (N.land b0 31 * 64 + low6 c1)%N 2 else Bad 1
      | [] => Bad 1
      end
    else if (b0 <? 240)%N then
      match s1 with
      | c1 :: c2 :: _ =>
        if cont c1 && cont c2
           && negb ((b0 =? 224)%N && (N_of_ascii c1 <? 160)%N)
        then Good (N.land b0 15 * 4096 + low6 c1 * 64 + low6 c2)%N 3
        else Bad (if cont c1 then 2 else 1)
      | [c1] => Bad (if cont c1 then 2 else 1)
      | [] => Bad 1
      end
    else if (b0 <? 245)%N then
      match s1 with
      | c1 :: c2 :: c3 :: _ =>
        if cont c1 && cont c2 && cont c3
           && negb ((b0 =? 240)%N && (N_of_ascii c1 <? 144)%N)
           && negb ((b0 =? 244)%N && (143 <? N_of_ascii c1)%N)
        then Good (N.land b0 7 * 262144 + low6 c1 * 4096
                   + low6 c2 * 64 + low6 c3)%N 4
        else Bad (if cont c1 then (if cont c2 then 3 else 2) else 1)
      | [c1; c2] => Bad (if cont c1 then (if cont c2 then 3 else 2) else 1)
      | [c1] => Bad (if cont c1 then 2 else 1)
      | [] => Bad 1
      end
    else Bad 1
  end.

Fixpoint utf8_decode_fuel (fuel : nat) (e : errors) (s : bytes) : result text :=
  match fuel with
  | O => Ok []
  | S fuel' =>
    match s with
    | [] => Ok []
    | _ :: _ =>
      match utf8_next s with
      | Good cp used =>
        rbind (utf8_decode_fuel fuel' e (skipn used s)) (fun r => Ok (cp :: r))
      | Bad used =>
        match e with
        | Strict => Raise UnicodeDecodeError
        | Ignore => utf8_decode_fuel fuel' e (skipn used s)
        | Replace =>
          rbind (utf8_decode_fuel fuel' e (skipn used s))
                (fun r => Ok (65533%N :: r))
        end
      end
    end
  end.

Definition utf8_decode (e : errors) (s : bytes) : result text :=
  utf8_decode_fuel (length s) e s.

(** ** [struct.pack('<III', ...)] *)

Definition le32 (v : Z) : bytes :=
  map (fun i => ascii_of_N (Z.to_N (Z.land (Z.shiftr v (8 * i)) 255)))
      [0; 1; 2; 3].

Definition u32 (v : Z) : bool := (0 <=? v) && (v <? 2 ^ 32).

Definition pack_III (a b c : Z) : result bytes :=
  if u32 a && u32 b && u32 c then Ok (le32 a ++ le32 b ++ le32 c)
  else Raise StructError.

(** ** [math.modf] and [int] on clock readings *)

(** [int(x)]: truncation toward zero. *)
Definition Qtrunc (q : Q) : Z := Z.quot (Qnum q) (Zpos (Qden q)).

(** [math.modf(x)]: fractional and integral parts, both with the sign
    of [x]. *)
Definition modf (x : Q) : Q * Q :=
  (x - inject_Z (Qtrunc x), inject_Z (Qtrunc x))%Q.

(** ** Floating-point multiplication *)

(** Clock readings are doubles.  [math.modf] and [int] are exact on them;
    a product is rounded to the nearest double, ties to even. *)

(** The integer nearest to [n / d], ties to even, for [0 <= n], [0 < d]. *)
Definition rne (n d : Z) : Z :=
  let q := n / d in
  let r := n mod d in
  if 2 * r <? d then q
  else if d <? 2 * r then q + 1
  else if Z.even q then q else q + 1.

(** The exponent of the last bit of the 53-bit significand of the double
    nearest to [a / d], for [0 < a], [0 < d]; the smallest exponent of a
    double is -1074. *)
Definition double_exponent (a d : Z) : Z :=
  let k := Z.log2 a - Z.log2 d in
  let below := if 0 <=? k then a <? d * 2 ^ k else a * 2 ^ (- k) <? d in
  Z.max ((if below then k - 1 else k) - 52) (-1074).

Definition nearest_double_pos (a d : Z) : Q :=
  let e := double_exponent a d in
  if 0 <=? e then inject_Z (rne a (d * 2 ^ e) * 2 ^ e)
  else Qmake (rne (a * 2 ^ (- e)) d) (Z.to_pos (2 ^ (- e))).

(** The double nearest to [q], below the largest double. *)
Definition nearest_double (q : Q) : Q :=
  match Qnum q with
  | 0 => 0%Q
  | Zpos a => nearest_double_pos (Zpos a) (Zpos (Qden q))
  | Zneg a => (- nearest_double_pos (Zpos a) (Zpos (Qden q)))%Q
  end.

(** [x * y] on floats *)
Definition float_mul (x y : Q) : Q := nearest_double (x * y).

(** ** [str(n)] for integers *)

Definition digit (n : N) : ascii := ascii_of_N (48 + n).

Fixpoint dec_fuel (fuel : nat) (n : N) (acc : bytes) : bytes :=
  match fuel with
  | O => acc
  | S f =>
    let acc' := digit (n mod 10) :: acc in
    if (n / 10 =? 0)%N then acc' else dec_fuel f (n / 10) acc'
  end.

Definition dec_of_N (n : N) : bytes := dec_fuel (S (N.to_nat (N.log2 n))) n [].

Definition str_int (z : Z) : bytes :=
  if z <? 0 then "-"%char :: dec_of_N (Z.to_N (- z)) else dec_of_N (Z.to_N z).

(** ** [json.dumps] (default options: ASCII output, separators ", ") *)

Definition backslash : ascii := "\"%char.

Definition hexdigit (n : N) : ascii :=
  if (n <? 10)%N then ascii_of_N (48 + n) else ascii_of_N (87 + n).

Definition hex4 (n : N) : bytes :=
  [hexdigit (n / 4096 mod 16); hexdigit (n / 256 mod 16);
   hexdigit (n / 16 mod 16); hexdigit (n mod 16)]%N.

Definition uescape (n : N) : bytes := backslash :: "u"%char :: hex4 n.

(** The replacement of one character by [encode_basestring_ascii]. *)
Definition escape_char (c : N) : bytes :=
  if (c =? 34)%N then [backslash; dquote]
  else if (c =? 92)%N then [backslash; backslash]
  else if (c =? 8)%N then [backslash; "b"%char]
  else if (c =? 12)%N then [backslash; "f"%char]
  else if (c =? 10)%N then [backslash; "n"%char]
  else if (c =? 13)%N then [backslash; "r"%char]
  else if (c =? 9)%N then [backslash; "t"%char]
  else if (32 <=? c)%N && (c <=? 126)%N then [ascii_of_N c]
  else if (c <? 65536)%N then uescape c
  else
    let n := (c - 65536)%N in
    uescape (N.lor 55296 (N.land (N.shiftr n 10) 1023))
    ++ uescape (N.lor 56320 (N.land n 1023)).

Definition encode_text (u : text) : bytes :=
  dquote :: flat_map escape_char u ++ [dquote].

(** The characters that [encode_basestring_ascii] escapes: a [str] with a
    byte above 0x7f is first decoded as UTF-8 (strictly). *)
Definition json_text (d : pydata) : result text :=
  match d with
  | Uni u => Ok u
  | Str b =>
    if forallb is_ascii b then Ok (map N_of_ascii b)
    else utf8_decode Strict b
  end.

Definition encode_basestring_ascii (d : pydata) : result bytes :=
  rbind (json_text d) (fun u => Ok (encode_text u)).

(** [json.dumps(s)] for [s] a [str] or [None]. *)
Definition dumps_opt_str (s : option bytes) : result bytes :=
  match s with
  | None => Ok (B "null")
  | Some b => encode_basestring_ascii (Str b)
  end.

(** A Python number: the first frame's duration is the integer [0], the
    others are floats. *)
Inductive pynum : Type :=
| PyInt (z : Z)
| PyFloat (q : Q).

(** ** The regular expression [(\033[^m]+m)] and [str.replace] *)

Section Cleaner.
Context {A : Type}.
Variable A_eqb : A -> A -> bool.
Variables esc m : A.

(** The longest run of characters other than [m], and what follows. *)
Fixpoint span_not_m (s : list A) : list A * list A :=
  match s with
  | [] => ([], [])
  | c :: r =>
    if A_eqb c m then ([], s)
    else let (w, r') := span_not_m r in (c :: w, r')
  end.

(** The match of the pattern that starts at the head of [s], if any. *)
Definition match_at (s : list A) : option (list A) :=
  match s with
  | [] => None
  | c :: r =>
    if A_eqb c esc then
      match span_not_m r with
      | ((_ :: _) as w, c' :: _) => Some (c :: w ++ [c'])
      | _ => None
      end
    else None
  end.

(** [finditer]: the matches from left to right, none overlapping; [skip]
    counts the characters still covered by the last match. *)
Fixpoint finditer_from (skip : nat) (s : list A) : list (list A) :=
  match s with
  | [] => []
  | _ :: r =>
    match skip with
    | S k => finditer_from k r
    | O =>
      match match_at s with
      | Some g => g :: finditer_from (length g - 1) r
      | None => finditer_from 0 r
      end
    end
  end.

Definition finditer (s : list A) : list (list A) := finditer_from 0 s.

Fixpoint prefix_of (p s : list A) : bool :=
  match p, s with
  | [], _ => true
  | _ :: _, [] => false
  | x :: p', y :: s' => A_eqb x y && prefix_of p' s'
  end.

Fixpoint replace_from (old : list A) (skip : nat) (s : list A) : list A :=
  match s with
  | [] => []
  | c :: r =>
    match skip with
    | S k => replace_from old k r
    | O =>
      if prefix_of old s then replace_from old (length old - 1) r
      else c :: replace_from old 0 r
    end
  end.

(** [s.replace(old, '')] *)
Definition replace (old s : list A) : list A :=
  match old with
  | [] => s
  | _ :: _ => replace_from old 0 s
  end.

(** The plain-mode scrub: the matches are collected in a set, and every
    member of the set is deleted from the chunk in the set's iteration
    order [iter]. *)
Definition clean (iter : list (list A) -> list (list A)) (data : list A)
  : list A :=
  fold_left (fun d seq => replace seq d) (iter (finditer data)) data.
End Cleaner.

(** ** What the interpreter decides *)

(** The renderings of a float by [repr] (used by [json.dumps]) and by [str]
    (used by [format]), and the order in which a [set] of strings is
    iterated, given the sequence of its insertions.  A difference of clock
    readings is handed to the renderings as it is: rounding it to a double
    is their part. *)
Record runtime : Type := {
  float_repr : Q -> bytes;
  float_str : Q -> bytes;
  set_iter_str : list bytes -> list bytes;
  set_iter_uni : list text -> list text
}.

Definition dumps_num (rt : runtime) (n : pynum) : bytes :=
  match n with
  | PyInt z => str_int z
  | PyFloat q => float_repr rt q
  end.

(** [json.dumps([duration, data])] *)
Definition dumps_frame (rt : runtime) (duration : pynum) (data : pydata)
  : result bytes :=
  rbind (encode_basestring_ascii data)
        (fun s => Ok (B "[" ++ dumps_num rt duration ++ B ", " ++ s ++ B "]")).

Definition clean_data (rt : runtime) (d : pydata) : pydata :=
  match d with
  | Str b => Str (clean Ascii.eqb ESC "m"%char (set_iter_str rt) b)
  | Uni u => Uni (clean N.eqb 27%N 109%N (set_iter_uni rt) u)
  end.

(** ** The two sinks *)

(** The calls a sink receives; a sink is modelled by the list of its calls,
    oldest first, and accepts every call. *)
Inductive out_call : Type :=
| OWrite (d : pydata)
| OFlush
| OClose
| OTruncate (size : Z).

Inductive log_call : Type :=
| LWrite (d : pydata)
| LFlush
| LClose.

(** What the live console answers when asked: whether it is a terminal, its
    size when it has one, and whether it is a memory buffer (has
    [getvalue]). *)
Record console : Type := {
  isatty : bool;
  termsize : option (Z * Z);
  buffered : bool
}.

(** Modelled from the spec: [consize] of [pupylib/utils/term.py], which is
    not part of the sources at hand.  The terminal-size query returns
    (rows, columns); a size that is unavailable is treated as zero, with no
    error. *)
Definition consize (c : console) : Z * Z :=
  match termsize c with
  | Some (rows, columns) => (rows, columns)
  | None => (0, 0)
  end.

Definition py_firstn (n : nat) (d : pydata) : pydata :=
  match d with
  | Str b => Str (firstn n b)
  | Uni u => Uni (firstn n u)
  end.

(** The content of a memory buffer ([StringIO]) that received [calls],
    starting from the content [acc]. *)
Fixpoint buffer_value (calls : list out_call) (acc : pydata) : result pydata :=
  match calls with
  | [] => Ok acc
  | OWrite d :: r => rbind (py_add acc d) (buffer_value r)
  | OFlush :: r => buffer_value r acc
  | OTruncate n :: r => buffer_value r (py_firstn (Z.to_nat n) acc)
  | OClose :: _ => Raise ValueError
  end.

(** ** The recorder *)

Inductive recmode : Type := Asciinema | Ttyrec.

Record Log : Type := mkLog {
  dev : console;
  out : list out_call;
  log : list log_call;
  close_out : bool;
  closed : bool;
  rec : option recmode;
  last : Q;
  start : Q;
  unicode : bool
}.

Definition set_out (v : list out_call) (s : Log) : Log :=
  mkLog (dev s) v (log s) (close_out s) (closed s) (rec s) (last s) (start s)
        (unicode s).
Definition set_log (v : list log_call) (s : Log) : Log :=
  mkLog (dev s) (out s) v (close_out s) (closed s) (rec s) (last s) (start s)
        (unicode s).
Definition set_closed (v : bool) (s : Log) : Log :=
  mkLog (dev s) (out s) (log s) (close_out s) v (rec s) (last s) (start s)
        (unicode s).
Definition set_last (v : Q) (s : Log) : Log :=
  mkLog (dev s) (out s) (log s) (close_out s) (closed s) (rec s) v (start s)
        (unicode s).

(** A method of [Log]: it transforms the object and the sinks, and returns
    or raises.  What was done before an exception stays done. *)
Definition M (A : Type) : Type := Log -> Log * result A.

Definition ret {A : Type} (a : A) : M A := fun s => (s, Ok a).

Definition bind {A C : Type} (c : M A) (k : A -> M C) : M C :=
  fun s =>
    match c s with
    | (s', Ok a) => k a s'
    | (s', Raise e) => (s', Raise e)
    end.

Definition gets {A : Type} (f : Log -> A) : M A := fun s => (s, Ok (f s)).
Definition lift {A : Type} (r : result A) : M A := fun s => (s, r).
Definition modify (f : Log -> Log) : M unit := fun s => (f s, Ok tt).

Declare Scope log_scope.
Delimit Scope log_scope with log.
Notation "x <- c ;; k" := (bind c (fun x => k))
  (at level 61, c at next level, right associativity) : log_scope.
Notation "c ;; k" := (bind c (fun _ => k))
  (at level 61, right associativity) : log_scope.
Local Open Scope log_scope.

Definition out_write (d : pydata) : M unit :=
  modify (fun s => set_out (out s ++ [OWrite d]) s).
Definition out_flush : M unit :=
  modify (fun s => set_out (out s ++ [OFlush]) s).
Definition out_close : M unit :=
  modify (fun s => set_out (out s ++ [OClose]) s).
Definition out_truncate (size : Z) : M unit :=
  modify (fun s => set_out (out s ++ [OTruncate size]) s).
Definition out_getvalue : M pydata :=
  fun s =>
    (s, if buffered (dev s) then buffer_value (out s) (Str [])
        else Raise AttributeError).

Definition log_write (d : pydata) : M unit :=
  modify (fun s => set_log (log s ++ [LWrite d]) s).
Definition log_flush : M unit :=
  modify (fun s => set_log (log s ++ [LFlush]) s).
Definition log_close : M unit :=
  modify (fun s => set_log (log s ++ [LClose]) s).

(** Truth value of a number: non-zero. *)
Definition nonzero (q : Q) : bool := negb (Qeq_bool q 0).

(** [dquote + k + dquote + ':'], a key of the asciinema header. *)
Definition key (k : string) : bytes := dquote :: B k ++ [dquote; ":"%char].

(** The text written at construction in asciinema mode:
    ['{{' 'command:{},title:{},env:null,version:1,'
     'width:{},height:{},stdout:['.format(jc, jt, h, l)], each key between
    double quotes. *)
Definition asciinema_header (jc jt : bytes) (h l : Z) : bytes :=
  B "{" ++ key "command" ++ jc ++ B "," ++ key "title" ++ jt
  ++ B "," ++ key "env" ++ B "null," ++ key "version" ++ B "1,"
  ++ key "width" ++ str_int h ++ B "," ++ key "height" ++ str_int l
  ++ B "," ++ key "stdout" ++ B "[".

(** The text written at close in asciinema mode:
    ['],duration:{}}}'.format(d)], the key between double quotes. *)
Definition asciinema_footer (rt : runtime) (d : Q) : bytes :=
  B "]," ++ key "duration" ++ float_str rt d ++ B "}".

(** [' '.join(args)] *)
Fixpoint join_spaces (args : list bytes) : bytes :=
  match args with
  | [] => []
  | [a] => a
  | a :: r => a ++ B " " ++ join_spaces r
  end.

Definition nonempty {X : Type} (l : list X) : bool :=
  match l with
  | [] => false
  | _ :: _ => true
  end.

(** [rec and self.out.isatty() and rec in ('asciinema', 'ttyrec')] *)
Definition effective_rec (d : console) (r : option string) : option recmode :=
  match r with
  | None => None
  | Some name =>
    if negb (String.eqb name "") && isatty d then
      if String.eqb name "asciinema" then Some Asciinema
      else if String.eqb name "ttyrec" then Some Ttyrec
      else None
    else None
  end.

(** [if command and args: command = command + ' ' + ' '.join(args)] *)
Definition full_command (command : option bytes) (args : option (list bytes))
  : option bytes :=
  match command, args with
  | Some c, Some a =>
    if nonempty c && nonempty a then Some (c ++ B " " ++ join_spaces a)
    else command
  | _, _ => command
  end.

(** The line written at construction in plain mode:
    [command = command.decode('utf-8', errors='replace')] if the unicode
    flag is set, then ['> ' + command + newline]. *)
Definition header_line (unicode : bool) (c : bytes) : result pydata :=
  rbind (if unicode
         then rbind (utf8_decode Replace c) (fun u => Ok (Uni u))
         else Ok (Str c)) (fun c' =>
  rbind (py_add (Str (B "> ")) c') (fun x =>
  py_add x (Str [newline]))).

Section Recorder.
Variable rt : runtime.

(** [Log.__init__]; [now] is what [time.time()] returns when it is
    called.  The sinks start with no call recorded. *)
Definition init (d : console) (close_out : bool) (r : option string)
           (command : option bytes) (args : option (list bytes))
           (title : option bytes) (unicode : bool) (now : Q) : result Log :=
  let r := effective_rec d r in
  let command := full_command command args in
  match r with
  | Some Asciinema =>
    let (h, l) := consize d in
    rbind (dumps_opt_str command) (fun jc =>
    rbind (dumps_opt_str title) (fun jt =>
    Ok (mkLog d [] [LWrite (Str (asciinema_header jc jt h l))]
              close_out false r 0 now unicode)))
  | Some Ttyrec =>
    Ok (mkLog d [] [] close_out false r now 0 unicode)
  | None =>
    match command with
    | Some ((_ :: _) as c) =>
      rbind (header_line unicode c) (fun line =>
      Ok (mkLog d [] [LWrite line] close_out false r 0 0 unicode))
    | _ => Ok (mkLog d [] [] close_out false r 0 0 unicode)
    end
  end.

(** [Log.write] *)
Definition write (now : Q) (data : pydata) : M unit :=
  c <- gets closed ;;
  if c then ret tt else
  if negb (truthy data) then ret tt else
  out_write data ;;
  u <- gets unicode ;;
  data <- (if u then
             match data with
             | Str b => t <- lift (utf8_decode Ignore b) ;; ret (Uni t)
             | Uni _ => ret data
             end
           else ret data) ;;
  r <- gets rec ;;
  match r with
  | Some Ttyrec =>
    let (usec, sec) := modf now in
    let usec := Qtrunc (float_mul usec 1000000) in
    let sec := Qtrunc sec in
    hdr <- lift (pack_III sec usec (py_len data)) ;;
    frame <- lift (py_add (Str hdr) data) ;;
    log_write frame
  | Some Asciinema =>
    l <- gets last ;;
    duration <- (if nonzero l then
                   log_write (Str (B ",")) ;; ret (PyFloat (now - l))
                 else ret (PyInt 0)) ;;
    j <- lift (dumps_frame rt duration data) ;;
    log_write (Str j)
  | None =>
    log_write (clean_data rt data)
  end ;;
  modify (set_last now).

(** [Log.flush] *)
Definition flush : M unit :=
  c <- gets closed ;;
  if c then ret tt else
  out_flush ;;
  log_flush.

(** [Log.close]; [now] is what [time.time()] returns if it is called. *)
Definition close (now : Q) : M unit :=
  c <- gets closed ;;
  if c then ret tt else
  co <- gets close_out ;;
  (if co then out_close else ret tt) ;;
  r <- gets rec ;;
  match r with
  | Some Asciinema =>
    st <- gets start ;;
    log_write (Str (asciinema_footer rt (now - st)))
  | _ => ret tt
  end ;;
  log_close ;;
  modify (set_closed true).

(** [Log.getvalue] *)
Definition getvalue : M pydata :=
  value <- out_getvalue ;;
  c <- gets closed ;;
  (if c then ret tt else log_flush) ;;
  ret value.

(** [Log.truncate] *)
Definition truncate (size : Z) : M unit :=
  c <- gets closed ;;
  if c then ret tt else
  out_truncate size ;;
  log_flush.

(** A caller that writes the chunks one after the other, and stops at the
    first exception. *)
Fixpoint write_each (l : list (Q * pydata)) : M unit :=
  match l with
  | [] => ret tt
  | (now, data) :: r => write now data ;; write_each r
  end.

(** The recorder after every call of [l] was made, whatever each one
    answered. *)
Definition after_writes (l : list (Q * pydata)) (s : Log) : Log :=
  fold_left (fun s c => fst (write (fst c) (snd c) s)) l s.

(** [k] calls of [close], at the clock readings [ts]. *)
Fixpoint close_each (ts : list Q) : M unit :=
  match ts with
  | [] => ret tt
  | now :: r => close now ;; close_each r
  end.
End Recorder.

(** ** Reading the sinks *)

(** The bytes a sink holds after the calls [l]: what was written, in call
    order. *)
Fixpoint sink_bytes (l : list log_call) : bytes :=
  match l with
  | [] => []
  | LWrite (Str b) :: r => b ++ sink_bytes r
  | _ :: r => sink_bytes r
  end.

Definition is_close (c : log_call) : bool :=
  match c with
  | LClose => true
  | _ => false
  end.

(** How many times the recording sink was closed. *)
Definition closes (l : list log_call) : nat := length (filter is_close l).

(** What [Log.write] records of a chunk: the chunk itself, or its UTF-8
    decoding when the unicode flag is set. *)
Definition recorded (u : bool) (d : pydata) : result pydata :=
  if u then
    match d with
    | Str b => rbind (utf8_decode Ignore b) (fun t => Ok (Uni t))
    | Uni _ => Ok d
    end
  else Ok d.

(** The seconds and microseconds of a clock reading, as [Log.write]
    computes them for a ttyrec frame. *)
Definition seconds (now : Q) : Z := Qtrunc (snd (modf now)).
Definition microseconds (now : Q) : Z :=
  Qtrunc (float_mul (fst (modf now)) 1000000).

(** ** The ttyrec stream, as a reader sees it *)

Record frame : Type := {
  f_sec : Z;
  f_usec : Z;
  f_len : Z;
  f_payload : bytes
}.

(** An unsigned little-endian integer. *)
Definition le_value (b : bytes) : Z :=
  fold_right (fun c acc => Z.of_N (N_of_ascii c) + 256 * acc) 0 b.

(** The stream is a repetition of: three unsigned 32-bit little-endian
    integers (seconds, microseconds, length), then [length] raw bytes. *)
Fixpoint decode_ttyrec_fuel (fuel : nat) (s : bytes) : option (list frame) :=
  match s with
  | [] => Some []
  | _ :: _ =>
    match fuel with
    | O => None
    | S fuel' =>
      if (length s <? 12)%nat then None
      else
        let n := le_value (firstn 4 (skipn 8 s)) in
        let rest := skipn 12 s in
        if Z.of_nat (length rest) <? n then None
        else
          option_map
            (cons {| f_sec := le_value (firstn 4 s);
                     f_usec := le_value (firstn 4 (skipn 4 s));
                     f_len := n;
                     f_payload := firstn (Z.to_nat n) rest |})
            (decode_ttyrec_fuel fuel' (skipn (Z.to_nat n) rest))
    end
  end.

Definition decode_ttyrec (s : bytes) : option (list frame) :=
  decode_ttyrec_fuel (length s) s.

(** The frame that a write at [now] of the payload [p] is to produce. *)
Definition frame_of (c : Q * bytes) : frame :=
  {| f_sec := seconds (fst c);
     f_usec := microseconds (fst c);
     f_len := Z.of_nat (length (snd c));
     f_payload := snd c |}.

Definition frame_bytes (c : Q * bytes) : bytes :=
  le32 (seconds (fst c)) ++ le32 (microseconds (fst c))
  ++ le32 (Z.of_nat (length (snd c))) ++ snd c.

(** ** JSON texts (RFC 8259), restricted to ASCII *)

Definition is_digit (c : ascii) : bool :=
  (48 <=? N_of_ascii c)%N && (N_of_ascii c <=? 57)%N.

Definition digits (s : bytes) : Prop :=
  s <> [] /\ forallb is_digit s = true.

(** [int = zero / ( digit1-9 *DIGIT )] *)
Definition JInt (s : bytes) : Prop :=
  digits s /\ (hd "0"%char s = "0"%char -> s = ["0"%char]).

(** [number = [ minus ] int [ frac ] [ exp ]] *)
Definition JNumber (s : bytes) : Prop :=
  exists sign i frac ex,
    s = sign ++ i ++ frac ++ ex
    /\ (sign = [] \/ sign = ["-"%char])
    /\ JInt i
    /\ (frac = [] \/ exists ds, frac = "."%char :: ds /\ digits ds)
    /\ (ex = [] \/
        exists e sg ds,
          ex = e :: sg ++ ds
          /\ (e = "e"%char \/ e = "E"%char)
          /\ (sg = [] \/ sg = ["+"%char] \/ sg = ["-"%char])
          /\ digits ds).

Definition is_ws (c : ascii) : bool :=
  (N_of_ascii c =? 32)%N || (N_of_ascii c =? 9)%N
  || (N_of_ascii c =? 10)%N || (N_of_ascii c =? 13)%N.

Definition JWs (s : bytes) : Prop := forallb is_ws s = true.

(** A character that stands for itself inside a string. *)
Definition unescaped (c : ascii) : bool :=
  (32 <=? N_of_ascii c)%N && (N_of_ascii c <? 128)%N
  && negb (N_of_ascii c =? 34)%N && negb (N_of_ascii c =? 92)%N.

(** The character that follows a backslash, and the one it stands for. *)
Definition simple_escape (c : ascii) : option N :=
  match N_of_ascii c with
  | 34 => Some 34
  | 92 => Some 92
  | 47 => Some 47
  | 98 => Some 8
  | 102 => Some 12
  | 110 => Some 10
  | 114 => Some 13
  | 116 => Some 9
  | _ => None
  end%N.

Definition hex_value (c : ascii) : option N :=
  let n := N_of_ascii c in
  if (48 <=? n)%N && (n <=? 57)%N then Some (n - 48)%N
  else if (97 <=? n)%N && (n <=? 102)%N then Some (n - 87)%N
  else if (65 <=? n)%N && (n <=? 70)%N then Some (n - 55)%N
  else None.

Definition hex4_value (a b c d : ascii) : option N :=
  match hex_value a, hex_value b, hex_value c, hex_value d with
  | Some x, Some y, Some z, Some w => Some (x * 4096 + y * 256 + z * 16 + w)%N
  | _, _, _, _ => None
  end.

(** The body of a string and the UTF-16 code units it denotes. *)
Inductive JChars : bytes -> list N -> Prop :=
| JChars_nil : JChars [] []
| JChars_plain c s u :
    unescaped c = true -> JChars s u ->
    JChars (c :: s) (N_of_ascii c :: u)
| JChars_escape e v s u :
    simple_escape e = Some v -> JChars s u ->
    JChars (backslash :: e :: s) (v :: u)
| JChars_hex a b c d v s u :
    hex4_value a b c d = Some v -> JChars s u ->
    JChars (backslash :: "u"%char :: a :: b :: c :: d :: s) (v :: u).

Definition JString (s : bytes) (u : list N) : Prop :=
  exists body, s = dquote :: body ++ [dquote] /\ JChars body u.

(** JSON values; a number keeps its literal, a string is the list of its
    UTF-16 code units. *)
Inductive json : Type :=
| JNull
| JTrue
| JFalse
| JNum (lit : bytes)
| JStr (units : list N)
| JArr (items : list json)
| JObj (members : list (list N * json)).

(** [Json s v]: the text [s] is a JSON value, and reads as [v]. *)
Inductive Json : bytes -> json -> Prop :=
| Json_null : Json (B "null") JNull
| Json_true : Json (B "true") JTrue
| Json_false : Json (B "false") JFalse
| Json_number s : JNumber s -> Json s (JNum s)
| Json_string s u : JString s u -> Json s (JStr u)
| Json_array_empty w : JWs w -> Json (B "[" ++ w ++ B "]") (JArr [])
| Json_array s vs : JElements s vs -> Json (B "[" ++ s ++ B "]") (JArr vs)
| Json_object_empty w : JWs w -> Json (B "{" ++ w ++ B "}") (JObj [])
| Json_object s ms : JMembers s ms -> Json (B "{" ++ s ++ B "}") (JObj ms)
with JElements : bytes -> list json -> Prop :=
| JElements_one w1 s w2 v :
    JWs w1 -> Json s v -> JWs w2 -> JElements (w1 ++ s ++ w2) [v]
| JElements_cons w1 s w2 v r vs :
    JWs w1 -> Json s v -> JWs w2 -> JElements r vs ->
    JElements (w1 ++ s ++ w2 ++ B "," ++ r) (v :: vs)
with JMembers : bytes -> list (list N * json) -> Prop :=
| JMembers_one w1 k ku w2 w3 s w4 v :
    JWs w1 -> JString k ku -> JWs w2 -> JWs w3 -> Json s v -> JWs w4 ->
    JMembers (w1 ++ k ++ w2 ++ B ":" ++ w3 ++ s ++ w4) [(ku, v)]
| JMembers_cons w1 k ku w2 w3 s w4 v r ms :
    JWs w1 -> JString k ku -> JWs w2 -> JWs w3 -> Json s v -> JWs w4 ->
    JMembers r ms ->
    JMembers (w1 ++ k ++ w2 ++ B ":" ++ w3 ++ s ++ w4 ++ B "," ++ r)
             ((ku, v) :: ms).

(** The UTF-16 code units of a text. *)
Definition utf16_units (c : N) : list N :=
  if (c <? 65536)%N then [c]
  else
    let n := (c - 65536)%N in
    [N.lor 55296 (N.land (N.shiftr n 10) 1023); N.lor 56320 (N.land n 1023)].

Definition utf16 (u : text) : list N := flat_map utf16_units u.

(** A key of the document, as code units. *)
Definition K (s : string) : list N := map N_of_ascii (B s).

(** ** Well-formed colour sequences *)

(** A chunk cut in pieces: ordinary text, and sequences [ESC w m]. *)
Inductive segment (A : Type) : Type :=
| Text (t : list A)
| Sgr (w : list A).
Arguments Text {A} t.
Arguments Sgr {A} w.

Fixpoint list_eqb {A : Type} (A_eqb : A -> A -> bool) (x y : list A) : bool :=
  match x, y with
  | [], [] => true
  | a :: x', b :: y' => A_eqb a b && list_eqb A_eqb x' y'
  | _, _ => false
  end.

Section Segments.
Context {A : Type}.
Variable A_eqb : A -> A -> bool.
Variables esc m : A.

Definition sequence_of (w : list A) : list A := esc :: w ++ [m].

Definition segment_items (g : segment A) : list A :=
  match g with
  | Text t => t
  | Sgr w => sequence_of w
  end.

Definition chunk_of (segs : list (segment A)) : list A :=
  flat_map segment_items segs.

Definition segment_text (g : segment A) : list A :=
  match g with
  | Text t => t
  | Sgr _ => []
  end.

(** The chunk without its sequences. *)
Definition text_of (segs : list (segment A)) : list A :=
  flat_map segment_text segs.

(** The sequences of the chunk, from left to right. *)
Definition sequences (segs : list (segment A)) : list (list A) :=
  flat_map (fun g => match g with
                     | Text _ => []
                     | Sgr w => [sequence_of w]
                     end) segs.

(** The text holds no escape character; a sequence holds one, at its head,
    and one [m], at its end. *)
Definition well_formed (g : segment A) : Prop :=
  match g with
  | Text t => ~ In esc t
  | Sgr w => w <> [] /\ ~ In esc w /\ ~ In m w
  end.

(** The segments that are left once the sequences [order] are deleted. *)
Definition kept (order : list (list A)) (g : segment A) : bool :=
  match g with
  | Text _ => true
  | Sgr w => negb (existsb (list_eqb A_eqb (sequence_of w)) order)
  end.
End Segments.

(** [g] occurs in [s] as a substring. *)
Definition occurs {A : Type} (g s : list A) : Prop :=
  exists a b, s = a ++ g ++ b.

(** ** Two interpreters *)

(** Floats printed in decimal, with one to six digits after the point. *)
Fixpoint strip_zeros (rev_digits : bytes) : bytes :=
  match rev_digits with
  | [] => []
  | c :: r => if Ascii.eqb c "0"%char then strip_zeros r else rev_digits
  end.

Definition fraction_digits (micro : N) : bytes :=
  let six := [digit (micro / 100000 mod 10); digit (micro / 10000 mod 10);
              digit (micro / 1000 mod 10); digit (micro / 100 mod 10);
              digit (micro / 10 mod 10); digit (micro mod 10)]%N in
  match rev (strip_zeros (rev six)) with
  | [] => ["0"%char]
  | d => d
  end.

Definition float_decimal (q : Q) : bytes :=
  let a := Qabs q in
  (if Qnum q <? 0 then ["-"%char] else [])
  ++ dec_of_N (Z.to_N (Qtrunc a))
  ++ "."%char
     :: fraction_digits (Z.to_N (Qtrunc ((a - inject_Z (Qtrunc a)) * 1000000))).

(** A set that is iterated in the order of insertion. *)
Definition insertion_order {A : Type}
           (A_dec : forall x y : list A, {x = y} + {x <> y})
           (l : list (list A)) : list (list A) :=
  rev (nodup A_dec (rev l)).

Definition ordered_runtime : runtime :=
  {| float_repr := float_decimal;
     float_str := float_decimal;
     set_iter_str := insertion_order (list_eq_dec ascii_dec);
     set_iter_uni := insertion_order (list_eq_dec N.eq_dec) |}.

(** The set of CPython 2.7 on a 64-bit machine, without hash
    randomisation: a table of slots addressed by the string hash, with
    open addressing, iterated slot after slot. *)
Definition word : Z := 2 ^ 64.

Definition string_hash (s : list N) : Z :=
  match s with
  | [] => 0
  | c :: _ =>
    let x :=
      fold_left (fun x c => Z.lxor ((1000003 * x) mod word) (Z.of_N c))
                s ((Z.of_N c * 128) mod word) in
    let x := Z.lxor x (Z.of_nat (length s)) in
    if x =? word - 1 then word - 2 else x
  end.

Section HashSet.
Context {A : Type}.
Variable code : A -> N.
Variable A_dec : forall x y : list A, {x = y} + {x <> y}.

Definition slot (table : list (option (list A))) (i : Z)
  : option (list A) :=
  nth (Z.to_nat i) table None.

(** The slot where [key] is, or the free slot where it goes. *)
Fixpoint probe (fuel : nat) (table : list (option (list A)))
         (mask i perturb : Z) (key : list A) : Z :=
  match fuel with
  | O => Z.land i mask
  | S fuel' =>
    match slot table (Z.land i mask) with
    | None => Z.land i mask
    | Some k =>
      if A_dec k key then Z.land i mask
      else probe fuel' table mask ((i * 5 + perturb + 1) mod word)
                 (Z.shiftr perturb 5) key
    end
  end.

Fixpoint put (table : list (option (list A))) (i : nat) (key : list A)
  : list (option (list A)) :=
  match table, i with
  | [], _ => []
  | _ :: r, O => Some key :: r
  | x :: r, S i' => x :: put r i' key
  end.

Definition insert (table : list (option (list A))) (key : list A)
  : list (option (list A)) :=
  let mask := Z.of_nat (length table) - 1 in
  let h := string_hash (map code key) in
  let i := probe (length table + 16) table mask (Z.land h mask) h key in
  put table (Z.to_nat i) key.

Definition entries (table : list (option (list A))) : list (list A) :=
  flat_map (fun e => match e with Some k => [k] | None => [] end) table.

(** The table grows, to four times the number of its entries rounded up
    to a power of two, when two thirds of its slots are taken. *)
Fixpoint new_size (fuel : nat) (size minused : nat) : nat :=
  match fuel with
  | O => size
  | S fuel' =>
    if (minused <? size)%nat then size
    else new_size fuel' (2 * size) minused
  end.

Definition add (table : list (option (list A))) (key : list A)
  : list (option (list A)) :=
  let used := length (entries table) in
  let table' := insert table key in
  let used' := length (entries table') in
  if (used <? used')%nat && (length table' * 2 <=? used' * 3)%nat then
    fold_left insert (entries table')
              (repeat None (new_size (4 * used') 8 (4 * used')))
  else table'.

Definition hash_order (l : list (list A)) : list (list A) :=
  entries (fold_left add l (repeat None 8)).
End HashSet.

Definition cpython_runtime : runtime :=
  {| float_repr := float_decimal;
     float_str := float_decimal;
     set_iter_str := hash_order N_of_ascii (list_eq_dec ascii_dec);
     set_iter_uni := hash_order (fun c => c) (list_eq_dec N.eq_dec) |}.

(** The interpreter behaves: a set is iterated over exactly its members,
    and floats are printed as JSON numbers. *)
Definition sets_ok (rt : runtime) : Prop :=
  (forall l x, In x (set_iter_str rt l) <-> In x l)
  /\ (forall l x, In x (set_iter_uni rt l) <-> In x l).

Definition floats_ok (rt : runtime) : Prop :=
  (forall q, JNumber (float_repr rt q))
  /\ (forall q, JNumber (float_str rt q)).

(** The calls that the first [close] makes on each sink. *)
Definition closing_out (s : Log) : list out_call :=
  if close_out s then [OClose] else [].

Definition closing_log (rt : runtime) (now : Q) (s : Log) : list log_call :=
  match rec s with
  | Some Asciinema => [LWrite (Str (asciinema_footer rt (now - start s)))]
  | _ => []
  end ++ [LClose].

(** The calls of a caller on the recorder. *)
Inductive call : Type :=
| Cwrite (now : Q) (data : pydata)
| Cflush
| Ctruncate (size : Z)
| Cclose (now : Q).

Definition perform (rt : runtime) (c : call) : M unit :=
  match c with
  | Cwrite now data => write rt now data
  | Cflush => flush
  | Ctruncate size => truncate size
  | Cclose now => close rt now
  end.

Fixpoint perform_each (rt : runtime) (l : list call) : M unit :=
  match l with
  | [] => ret tt
  | c :: r => perform rt c ;; perform_each rt r
  end.

(** What a write of [d] appends to the recording sink in plain mode. *)
Definition plain_record (rt : runtime) (u : bool) (d : pydata)
  : list log_call :=
  if truthy d then
    match recorded u d with
    | Ok d' => [LWrite (clean_data rt d')]
    | Raise _ => []
    end
  else [].

(** What a write of [d] passes to the live sink. *)
Definition forwarded (d : pydata) : list out_call :=
  if truthy d then [OWrite d] else [].

(** The text of a frame of the asciinema document. *)
Definition frame_text (rt : runtime) (delta : pynum) (x : text) : bytes :=
  B "[" ++ dumps_num rt delta ++ B ", " ++ encode_text x ++ B "]".

(** The characters recorded for a chunk in asciinema mode. *)
Definition json_payload (u : bool) (d : pydata) : result text :=
  rbind (recorded u d) json_text.

(** The durations of the frames written at the clock readings [ts]: zero,
    then the time since the write before. *)
Fixpoint deltas_after (prev : Q) (ts : list Q) : list pynum :=
  match ts with
  | [] => []
  | t :: r => PyFloat (t - prev) :: deltas_after t r
  end.

Definition deltas (ts : list Q) : list pynum :=
  match ts with
  | [] => []
  | t :: r => PyInt 0 :: deltas_after t r
  end.

(** The calls that record the frames: a comma before each one but the
    first. *)
Fixpoint frame_calls (rt : runtime) (first : bool) (ds : list pynum)
         (xs : list text) : list log_call :=
  match ds, xs with
  | delta :: ds', x :: xs' =>
    (if first then [] else [LWrite (Str (B ","))])
    ++ LWrite (Str (frame_text rt delta x)) :: frame_calls rt false ds' xs'
  | _, _ => []
  end.

(** A write that asciinema mode can record: the chunk is not empty, the
    clock does not read zero, and the chunk has a JSON form [x]. *)
Definition recordable (u : bool) (c : Q * pydata) (x : text) : Prop :=
  truthy (snd c) = true /\ nonzero (fst c) = true
  /\ json_payload u (snd c) = Ok x.

(** A clock reading whose seconds fit an unsigned 32-bit integer. *)
Definition representable (now : Q) : Prop :=
  (0 <= now)%Q /\ (now < inject_Z (2 ^ 32))%Q.

(** A write that ttyrec mode can frame. *)
Definition framable (c : Q * bytes) : Prop :=
  snd c <> [] /\ representable (fst c)
  /\ Z.of_nat (length (snd c)) < 2 ^ 32.

(** A terminal of 24 rows and 80 columns. *)
Definition terminal : console :=
  {| isatty := true; termsize := Some (24, 80); buffered := false |}.

(** The frames of the document, as JSON values: the array [[delta, data]]
    of each write. *)
Definition frame_json (rt : runtime) (f : pynum * text) : json :=
  JArr [JNum (dumps_num rt (fst f)); JStr (utf16 (snd f))].

Definition frames_json (rt : runtime) (ds : list pynum) (xs : list text)
  : list json :=
  map (frame_json rt) (combine ds xs).

(** The asciinema document, as a JSON value. *)
Definition document (command title : json) (width height : bytes)
           (stdout : list json) (duration : bytes) : json :=
  JObj [(K "command", command); (K "title", title); (K "env", JNull);
        (K "version", JNum (B "1")); (K "width", JNum width);
        (K "height", JNum height); (K "stdout", JArr stdout);
        (K "duration", JNum duration)].

(** The JSON value of [json.dumps(s)], for [s] a [str] or [None]. *)
Definition json_of_opt_str (s : option bytes) : result json :=
  match s with
  | None => Ok JNull
  | Some b => rbind (json_text (Str b)) (fun x => Ok (JStr (utf16 x)))
  end.

(** A memory buffer, which is not a terminal. *)
Definition memory_buffer : console :=
  {| isatty := false; termsize := None; buffered := true |}.

(** Sessions on these consoles, as [init] constructs them with no command
    and no title. *)
Definition plain_session (d : console) (u : bool) : Log :=
  mkLog d [] [] false false None 0 0 u.

Definition asciinema_session (t0 : Q) : Log :=
  mkLog terminal []
        [LWrite (Str (asciinema_header (B "null") (B "null") 24 80))]
        false false (Some Asciinema) 0 t0 false.

(** The chunk [ESC [31m red ESC [0m], as bytes and as text. *)
Definition red_bytes : list (segment ascii) :=
  [Sgr (B "[31"); Text (B "red"); Sgr (B "[0")].

Definition red_text : list (segment N) :=
  [Sgr [91; 51; 49]%N; Text [114; 101; 100]%N; Sgr [91; 48]%N].

(** ** The rest of [Log] *)

(** [Log.__del__]: closes the session if the caller has not. *)
Definition del (rt : runtime) (now : Q) : M unit :=
  c <- gets closed ;;
  if c then ret tt else close rt now.

(** What a caller may do with the recorder, finalisation included. *)
Inductive action : Type :=
| Acall (c : call)
| Agetvalue
| Adel (now : Q).

Definition act (rt : runtime) (a : action) : M unit :=
  match a with
  | Acall c => perform rt c
  | Agetvalue => _ <- getvalue ;; ret tt
  | Adel now => del rt now
  end.

(** The recorder after the actions [l], each one made whatever the one
    before answered. *)
Definition lifetime (rt : runtime) (l : list action) (s : Log) : Log :=
  fold_left (fun s a => fst (act rt a s)) l s.

Definition is_oclose (c : out_call) : bool :=
  match c with
  | OClose => true
  | _ => false
  end.

(** How many times the live sink was closed. *)
Definition out_closes (l : list out_call) : nat :=
  length (filter is_oclose l).

(** [x] is [y] with some of its elements left out. *)
Inductive subsequence {A : Type} : list A -> list A -> Prop :=
| subsequence_nil : subsequence [] []
| subsequence_skip c x y : subsequence x y -> subsequence x (c :: y)
| subsequence_keep c x y : subsequence x y -> subsequence (c :: x) (c :: y).

(** ** [PupyModule.is_compatible] *)

(** What a client answers about its system. *)
Record client : Type := {
  is_android : bool;
  is_windows : bool;
  is_linux : bool;
  is_solaris : bool;
  is_darwin : bool;
  is_unix : bool;
  is_posix : bool
}.

(** [x in systems] *)
Definition mem (x : string) (systems : list string) : bool :=
  existsb (String.eqb x) systems.

Definition is_compatible (systems : list string) (c : client)
  : bool * string :=
  if mem "all" systems || (length systems =? 0)%nat then (true, ""%string)
  else if mem "android" systems && is_android c then (true, ""%string)
  else if mem "windows" systems && is_windows c then (true, ""%string)
  else if mem "linux" systems && is_linux c then (true, ""%string)
  else if mem "solaris" systems && is_solaris c then (true, ""%string)
  else if (mem "darwin" systems || mem "osx" systems) && is_darwin c
       then (true, ""%string)
  else if mem "unix" systems && is_unix c then (true, ""%string)
  else if mem "posix" systems && is_posix c then (true, ""%string)
  else (false,
        String.append
          "This module currently only support the following systems: "
          (String.concat "," systems)).

(** The systems that a name of the list stands for. *)
Definition stands_for (c : client) (name : string) : bool :=
  if String.eqb name "android" then is_android c
  else if String.eqb name "windows" then is_windows c
  else if String.eqb name "linux" then is_linux c
  else if String.eqb name "solaris" then is_solaris c
  else if String.eqb name "darwin" then is_darwin c
  else if String.eqb name "osx" then is_darwin c
  else if String.eqb name "unix" then is_unix c
  else if String.eqb name "posix" then is_posix c
  else false.

(** ** The decorator [config] *)

Inductive pyval : Type :=
| PStr (s : string)
| PBool (b : bool)
| PInt (z : Z)
| PList (l : list pyval).

(** Keyword arguments: the keys of the dictionary with their values, in
    the order of iteration. *)
Definition kwargs : Type := list (string * pyval).

(** [kwargs.get(k)] *)
Fixpoint kwargs_get (k : string) (kw : kwargs) : option pyval :=
  match kw with
  | [] => None
  | (k', v) :: r => if String.eqb k k' then Some v else kwargs_get k r
  end.

(** [kwargs.get(k, default)] *)
Definition kwargs_get_default (k : string) (kw : kwargs) (default : pyval)
  : pyval :=
  match kwargs_get k kw with
  | Some v => v
  | None => default
  end.

(** [if type(kwargs[l]) != list: kwargs[l] = [kwargs[l]]] *)
Definition as_list (v : pyval) : pyval :=
  match v with
  | PList _ => v
  | _ => PList [v]
  end.

Fixpoint kwargs_update (k : string) (f : pyval -> pyval) (kw : kwargs)
  : kwargs :=
  match kw with
  | [] => []
  | (k', v) :: r =>
    if String.eqb k k' then (k', f v) :: r
    else (k', v) :: kwargs_update k f r
  end.

Definition listed_keys : list string :=
  ["compat"; "compatibilities"; "compatibility"; "tags"]%string.

Definition normalise (kw : kwargs) : kwargs :=
  fold_left (fun kw l => kwargs_update l as_list kw) listed_keys kw.

(** The class attributes that the decorator may override. *)
Record attributes : Type := {
  tags : pyval;
  category : pyval;
  compatible_systems : pyval;
  daemon : pyval;
  max_clients : pyval
}.

(** [class_rebuilder]: the attributes of [NewClass]. *)
Definition class_rebuilder (kw : kwargs) (cls : attributes) : attributes :=
  {| tags := kwargs_get_default "tags" kw (tags cls);
     category :=
       kwargs_get_default "category" kw
         (kwargs_get_default "cat" kw (category cls));
     compatible_systems :=
       kwargs_get_default "compatibilities" kw
         (kwargs_get_default "compatibility" kw
            (kwargs_get_default "compat" kw (compatible_systems cls)));
     daemon := kwargs_get_default "daemon" kw (daemon cls);
     max_clients := kwargs_get_default "max_clients" kw (max_clients cls) |}.

Definition known_keys : list string :=
  ["tags"; "category"; "cat"; "compatibilities"; "compatibility"; "compat";
   "daemon"; "max_clients"]%string.

Definition known (k : string) : bool := mem k known_keys.

(** The text of the warning for the key [k]: [Unknown argument], the key
    between double quotes, [to @config context manager]. *)
Definition unknown_argument (k : string) : string :=
  String.append "Unknown argument "
    (String dquote
       (String.append k (String dquote " to @config context manager"))).

(** [config], applied to its keyword arguments and then to the class: the
    attributes of the class it returns, and the warnings it logs. *)
Definition config (kw : kwargs) (cls : attributes)
  : attributes * list string :=
  let kw := normalise kw in
  (class_rebuilder kw cls,
   map unknown_argument (filter (fun k => negb (known k)) (map fst kw))).

(** The list of strings that a value holds, when it is one. *)
Definition string_of (v : pyval) : option string :=
  match v with
  | PStr s => Some s
  | _ => None
  end.

Fixpoint strings_of_list (l : list pyval) : option (list string) :=
  match l with
  | [] => Some []
  | v :: r =>
    match string_of v, strings_of_list r with
    | Some s, Some r' => Some (s :: r')
    | _, _ => None
    end
  end.

Definition strings_of (v : pyval) : option (list string) :=
  match v with
  | PList l => strings_of_list l
  | _ => None
  end.

(** ** The life of a [PupyModule] *)

(** [PupyModule.encode] *)
Definition encode (msg : pydata) : result pydata :=
  match msg with
  | Uni _ => Ok msg
  | Str b => rbind (utf8_decode Replace b) (fun u => Ok (Uni u))
  end.

(** [s.replace(old, new)] *)
Fixpoint replace_with_from (old new : bytes) (skip : nat) (s : bytes) : bytes :=
  match s with
  | [] => []
  | c :: r =>
    match skip with
    | S k => replace_with_from old new k r
    | O =>
      if prefix_of Ascii.eqb old s
      then new ++ replace_with_from old new (length old - 1) r
      else c :: replace_with_from old new 0 r
    end
  end.

Definition replace_with (old new s : bytes) : bytes :=
  match old with
  | [] => new ++ flat_map (fun c => c :: new) s
  | _ :: _ => replace_with_from old new 0 s
  end.

(** The loop of [PupyModule.init] over the placeholders, in the order of
    the dictionary: [log = self.log_file.replace(k, str(v))] for each.
    [None] stands for a variable that was never assigned. *)
Definition log_path (items : list (bytes * bytes)) (log_file : bytes)
  : option bytes :=
  fold_left (fun _ kv => Some (replace_with (fst kv) (snd kv) log_file))
            items None.

(** The module's output stream: the stream it was given or made, or the
    recorder that wraps it. *)
Inductive stream : Type :=
| Raw (d : console) (calls : list out_call)
| Logged (l : Log).

(** A module as [PupyModule.__init__] leaves it. *)
Record fresh_module : Type := {
  f_client : bool;
  f_del_close : bool;
  f_log_file : option bytes;
  f_console : console;
  f_calls : list out_call;
  f_rec : option string;
  f_name : bytes
}.

(** A module once [PupyModule.init] has run. *)
Record module : Type := {
  del_close : bool;
  stdout : stream
}.

(** [PupyModule.__init__]: [client] tells whether there is a client,
    [given] is the stream of the caller, if any, with the calls it has
    received; [rec_attr] and [name] are the class attribute [rec] and the
    name that [get_name] returns. *)
Definition module_new (client : bool)
           (given : option (console * list out_call))
           (log : option bytes) (rec_attr : option string) (name : bytes)
  : fresh_module :=
  match given with
  | None =>
    {| f_client := client; f_del_close := true; f_log_file := log;
       f_console := memory_buffer; f_calls := []; f_rec := rec_attr;
       f_name := name |}
  | Some (d, calls) =>
    {| f_client := client; f_del_close := false; f_log_file := log;
       f_console := d; f_calls := calls; f_rec := rec_attr;
       f_name := name |}
  end.

Definition some_bytes (o : option bytes) : bool :=
  match o with
  | Some (_ :: _) => true
  | _ => false
  end.

Definition some_string (o : option string) : bool :=
  match o with
  | Some name => negb (String.eqb name "")
  | None => false
  end.

(** [PupyModule.init]: [logs] is the option [logs] of the configuration,
    [opens] tells whether the log file can be opened, [now] is the clock
    reading if [Log.__init__] asks for it. *)
Definition module_init (logs opens : bool) (cmdline : list bytes) (now : Q)
           (m : fresh_module) : result module :=
  if f_client m && (logs || some_bytes (f_log_file m)) then
    if opens then
      let unicode := negb (some_string (f_rec m)) in
      rbind (init (f_console m) (f_del_close m) (f_rec m)
                  (if some_bytes (f_log_file m) then None
                   else Some (f_name m))
                  (if some_bytes (f_log_file m) then None else Some cmdline)
                  None unicode now)
            (fun l =>
               Ok {| del_close := true;
                     stdout := Logged (set_out (f_calls m) l) |})
    else Raise IOError
  else Ok {| del_close := f_del_close m;
             stdout := Raw (f_console m) (f_calls m) |}.

(** [self.stdout.write(data)] and [self.stdout.close()] *)
Definition stream_write (rt : runtime) (now : Q) (data : pydata) (st : stream)
  : stream * result unit :=
  match st with
  | Raw d calls => (Raw d (calls ++ [OWrite data]), Ok tt)
  | Logged l => let (l', r) := write rt now data l in (Logged l', r)
  end.

Definition stream_close (rt : runtime) (now : Q) (st : stream)
  : stream * result unit :=
  match st with
  | Raw d calls => (Raw d (calls ++ [OClose]), Ok tt)
  | Logged l => let (l', r) := close rt now l in (Logged l', r)
  end.

(** [PupyModule.rawlog] *)
Definition rawlog (rt : runtime) (now : Q) (msg : pydata) (m : module)
  : module * result unit :=
  match encode msg with
  | Raise e => (m, Raise e)
  | Ok data =>
    let (st, r) := stream_write rt now data (stdout m) in
    ({| del_close := del_close m; stdout := st |}, r)
  end.

(** [PupyModule.free] *)
Definition free (rt : runtime) (now : Q) (m : module) : module * result unit :=
  if del_close m then
    let (st, r) := stream_close rt now (stdout m) in
    ({| del_close := del_close m; stdout := st |}, r)
  else (m, Ok tt).

(** The module after the messages [l] were logged, each one whatever the
    one before answered. *)
Definition after_rawlogs (rt : runtime) (l : list (Q * pydata)) (m : module)
  : module :=
  fold_left (fun m c => fst (rawlog rt (fst c) (snd c) m)) l m.

(** The calls that the live stream of the module has received, and the
    calls on the log file, when there is one. *)
Definition live_calls (st : stream) : list out_call :=
  match st with
  | Raw _ calls => calls
  | Logged l => out l
  end.

Definition file_calls (st : stream) : list log_call :=
  match st with
  | Raw _ _ => []
  | Logged l => log l
  end.

(** The sinks were closed as the state of the recorder tells: the
    recording sink once if the session is closed, the live sink once if it
    is closed and owned, and never otherwise. *)
Definition well_closed (co : bool) (s : Log) : Prop :=
  close_out s = co
  /\ closes (log s) = (if closed s then 1 else 0)%nat
  /\ out_closes (out s) = (if closed s && co then 1 else 0)%nat.

(** The actions that keep house: [flush], [truncate] and [getvalue]. *)
Definition housekeeping (a : action) : bool :=
  match a with
  | Acall Cflush => true
  | Acall (Ctruncate _) => true
  | Agetvalue => true
  | _ => false
  end.

(** The calls that a sink received, its flushes left out: the values
    written, byte strings and texts alike, and the closes, in call order. *)
Definition unflushed (l : list log_call) : list log_call :=
  filter (fun c => match c with
                   | LFlush => false
                   | _ => true
                   end) l.

(** Two recorders that made the same recording: they agree on their mode,
    flags and timestamps, and the recording sink received the same values
    and closes in the same order. *)
Definition same_recording (s1 s2 : Log) : Prop :=
  closed s1 = closed s2 /\ rec s1 = rec s2 /\ last s1 = last s2
  /\ start s1 = start s2 /\ unicode s1 = unicode s2
  /\ close_out s1 = close_out s2
  /\ unflushed (log s1) = unflushed (log s2).

(** The header of a ttyrec frame: [struct.pack('<III', sec, usec, n)]. *)
Definition ttyrec_header (now : Q) (n : Z) : bytes :=
  le32 (seconds now) ++ le32 (microseconds now) ++ le32 n.

(** Every value that the sink received by [write] is a text. *)
Definition all_text (l : list log_call) : Prop :=
  forall d, In (LWrite d) l -> exists u, d = Uni u.

(** The calls that the stream given to [PupyModule.__init__] had received,
    if one was given. *)
Definition given_calls (given : option (console * list out_call))
  : list out_call :=
  match given with
  | Some (_, calls) => calls
  | None => []
  end.

(** ** The concatenation of chunks *)






(** ** What plain mode records *)

(** The characters [r] are the characters [x] once sanitised: they are
    characters of [x], in their order, and when [x] is made of text without
    escape characters and of sequences (escape, characters other than [m]
    and escape, then [m]) they are the pieces of text, the sequences left
    out. *)
Definition sanitised_chars {A : Type} (esc m : A) (x r : list A) : Prop :=
  subsequence r x
  /\ forall segs, Forall (well_formed esc m) segs ->
                  x = chunk_of esc m segs -> r = text_of segs.

(** The chunk, and what plain mode records of it: a byte string for a byte
    string when the unicode flag is off; a text for a text; and, when the
    flag is on, a text for a byte string, from its UTF-8 decoding. *)
Inductive sanitised (u : bool) : pydata -> pydata -> Prop :=
| sanitised_str (b r : bytes) :
    u = false -> sanitised_chars ESC "m"%char b r ->
    sanitised u (Str b) (Str r)
| sanitised_uni (x r : text) :
    sanitised_chars 27%N 109%N x r -> sanitised u (Uni x) (Uni r)
| sanitised_decoded (b : bytes) (x r : text) :
    u = true -> utf8_decode Ignore b = Ok x ->
    sanitised_chars 27%N 109%N x r -> sanitised u (Str b) (Uni r).

(** * Properties *)

(** ** The methods, case by case *)

Lemma lenient_decode_returns (e : errors) (fuel : nat) (s : bytes) :
  e <> Strict -> exists u, utf8_decode_fuel fuel e s = Ok u.
Proof.
  intros He. revert s.
  induction fuel as [|fuel IH]; intros s; simpl.
  - now exists [].
  - destruct s as [|c s]; [now exists []|].
    destruct (utf8_next (c :: s)) as [cp used|used].
    + destruct (IH (skipn used (c :: s))) as [u ->]. simpl. now eexists.
    + destruct e; [congruence| |].
      * apply IH.
      * destruct (IH (skipn used (c :: s))) as [u ->]. simpl. now eexists.
Qed.

Lemma recorded_returns (u : bool) (d : pydata) :
  exists d', recorded u d = Ok d'.
Proof.
  unfold recorded. destruct u; [|now eexists].
  destruct d as [b|t]; [|now eexists].
  unfold utf8_decode.
  destruct (lenient_decode_returns Ignore (length b) b) as [x ->];
    [discriminate|].
  simpl. now eexists.
Qed.

Lemma write_closed (rt : runtime) (now : Q) (data : pydata) (s : Log) :
  closed s = true -> write rt now data s = (s, Ok tt).
Proof. intros H. unfold write, bind, gets. now rewrite H. Qed.

Lemma write_empty (rt : runtime) (now : Q) (data : pydata) (s : Log) :
  truthy data = false -> write rt now data s = (s, Ok tt).
Proof.
  intros H. unfold write, bind, gets. rewrite H.
  now destruct (closed s).
Qed.

Lemma flush_closed (s : Log) : closed s = true -> flush s = (s, Ok tt).
Proof. intros H. unfold flush, bind, gets. now rewrite H. Qed.

Lemma truncate_closed (size : Z) (s : Log) :
  closed s = true -> truncate size s = (s, Ok tt).
Proof. intros H. unfold truncate, bind, gets. now rewrite H. Qed.

Lemma close_closed (rt : runtime) (now : Q) (s : Log) :
  closed s = true -> close rt now s = (s, Ok tt).
Proof. intros H. unfold close, bind, gets. now rewrite H. Qed.

Lemma close_open (rt : runtime) (now : Q) (s : Log) :
  closed s = false ->
  close rt now s =
  (mkLog (dev s) (out s ++ closing_out s) (log s ++ closing_log rt now s)
         (close_out s) true (rec s) (last s) (start s) (unicode s), Ok tt).
Proof.
  intros H. destruct s as [d o l co c r la st u]. simpl in H. subst c.
  unfold close, closing_out, closing_log, bind, gets. simpl.
  destruct co; destruct r as [[|]|]; simpl;
    rewrite ?app_nil_r, <- ?app_assoc; reflexivity.
Qed.

Lemma close_closes (rt : runtime) (now : Q) (s : Log) :
  closed (fst (close rt now s)) = true.
Proof.
  destruct (closed s) eqn:H.
  - now rewrite close_closed.
  - now rewrite close_open.
Qed.

Lemma close_returns (rt : runtime) (now : Q) (s : Log) :
  snd (close rt now s) = Ok tt.
Proof.
  destruct (closed s) eqn:H.
  - now rewrite close_closed.
  - now rewrite close_open.
Qed.

Lemma close_each_closed (rt : runtime) (ts : list Q) (s : Log) :
  closed s = true -> close_each rt ts s = (s, Ok tt).
Proof.
  intros H. induction ts as [|t ts IH]; [reflexivity|].
  simpl. unfold bind. now rewrite close_closed.
Qed.

Lemma closes_app (l l' : list log_call) :
  closes (l ++ l') = (closes l + closes l')%nat.
Proof. unfold closes. now rewrite filter_app, length_app. Qed.

Lemma closes_closing_log (rt : runtime) (now : Q) (s : Log) :
  closes (closing_log rt now s) = 1%nat.
Proof. unfold closing_log. now destruct (rec s) as [[|]|]. Qed.

Lemma perform_closed (rt : runtime) (c : call) (s : Log) :
  closed s = true -> perform rt c s = (s, Ok tt).
Proof.
  intros H. destruct c; simpl.
  - now apply write_closed.
  - now apply flush_closed.
  - now apply truncate_closed.
  - now apply close_closed.
Qed.

Lemma perform_each_closed (rt : runtime) (l : list call) (s : Log) :
  closed s = true -> perform_each rt l s = (s, Ok tt).
Proof.
  intros H. induction l as [|c l IH]; [reflexivity|].
  simpl. unfold bind. now rewrite perform_closed.
Qed.

(** ** Closing *)

(** C3: [close] is idempotent.  Any number [1 + length ts] of calls of
    [close] leaves the recorder and both sinks as the first call does.  The
    first call, on an open session, closes the live sink if and only if the
    ownership flag is set, writes the duration footer in asciinema mode
    only, closes the recording sink once and marks the session closed; on a
    closed session it does nothing.  Every later call returns with the
    state, and so both sinks, unchanged. *)
Theorem close_idempotent (rt : runtime) (s : Log) (t : Q) (ts : list Q) :
  let s1 := mkLog (dev s) (out s ++ closing_out s)
                  (log s ++ closing_log rt t s)
                  (close_out s) true (rec s) (last s) (start s) (unicode s) in
  close_each rt (t :: ts) s = close rt t s
  /\ close rt t s = (if closed s then s else s1, Ok tt)
  /\ closes (log (fst (close rt t s)))
     = (closes (log s) + (if closed s then 0 else 1))%nat
  /\ closing_out s = (if close_out s then [OClose] else [])
  /\ closing_log rt t s
     = match rec s with
       | Some Asciinema => [LWrite (Str (asciinema_footer rt (t - start s)))]
       | _ => []
       end ++ [LClose]
  /\ forall t', close rt t' (fst (close rt t s)) = (fst (close rt t s), Ok tt).
Proof.
  intros s1.
  assert (Hc : close rt t s = (if closed s then s else s1, Ok tt)).
  { destruct (closed s) eqn:H.
    - now apply close_closed.
    - now apply close_open. }
  repeat split; trivial.
  - simpl. unfold bind. rewrite Hc.
    apply close_each_closed. now destruct (closed s) eqn:H.
  - rewrite Hc. simpl. destruct (closed s); simpl; [lia|].
    now rewrite closes_app, closes_closing_log.
  - intros t'. apply close_closed. apply close_closes.
Qed.

(** C4: once [close] has been called, [write], [flush] and [truncate]
    return without raising and leave the recorder and both sinks as they
    are, one call after the other; and [write] of an empty chunk does
    nothing, whatever the session. *)
Theorem no_effect_after_close (rt : runtime) (s : Log) (t : Q) :
  let s' := fst (close rt t s) in
  (forall now data, write rt now data s' = (s', Ok tt))
  /\ flush s' = (s', Ok tt)
  /\ (forall size, truncate size s' = (s', Ok tt))
  /\ (forall l, perform_each rt l s' = (s', Ok tt))
  /\ (forall s0 now,
         write rt now (Str []) s0 = (s0, Ok tt)
         /\ write rt now (Uni []) s0 = (s0, Ok tt)).
Proof.
  intros s'. assert (H : closed s' = true) by apply close_closes.
  repeat split.
  - intros. now apply write_closed.
  - now apply flush_closed.
  - intros. now apply truncate_closed.
  - intros. now apply perform_each_closed.
  - now apply write_empty.
  - now apply write_empty.
Qed.

(** ** Writing, mode by mode *)

Lemma recorded_unfold (u : bool) (data : pydata) (s : Log) :
  (if u
   then match data with
        | Str b => bind (lift (utf8_decode Ignore b)) (fun t => ret (Uni t))
        | Uni _ => ret data
        end
   else ret data) s
  = (s, recorded u data).
Proof.
  unfold recorded, bind, lift, ret. destruct u; [|reflexivity].
  destruct data as [b|t]; [|reflexivity].
  now destruct (utf8_decode Ignore b).
Qed.

Lemma write_open (rt : runtime) (now : Q) (data : pydata) (s : Log) :
  closed s = false -> truthy data = true ->
  write rt now data s
  = let s1 := set_out (out s ++ [OWrite data]) s in
    match recorded (unicode s) data with
    | Raise e => (s1, Raise e)
    | Ok d =>
      match rec s with
      | Some Ttyrec =>
        match pack_III (seconds now) (microseconds now) (py_len d) with
        | Raise e => (s1, Raise e)
        | Ok hdr =>
          match py_add (Str hdr) d with
          | Raise e => (s1, Raise e)
          | Ok f => (set_last now (set_log (log s ++ [LWrite f]) s1), Ok tt)
          end
        end
      | Some Asciinema =>
        let s2 := if nonzero (last s)
                  then set_log (log s ++ [LWrite (Str (B ","))]) s1
                  else s1 in
        match dumps_frame rt (if nonzero (last s) then PyFloat (now - last s)
                              else PyInt 0) d with
        | Raise e => (s2, Raise e)
        | Ok j => (set_last now (set_log (log s2 ++ [LWrite (Str j)]) s2),
                   Ok tt)
        end
      | None =>
        (set_last now (set_log (log s ++ [LWrite (clean_data rt d)]) s1),
         Ok tt)
      end
    end.
Proof.
  intros Hc Ht. destruct s as [dv o l co c r la st u].
  simpl in Hc. subst c.
  unfold write. unfold bind at 1. unfold gets at 1. simpl. rewrite Ht. simpl.
  unfold bind at 1. unfold out_write at 1, modify at 1.
  unfold bind at 1. unfold gets at 1. unfold bind at 1.
  rewrite recorded_unfold. simpl.
  destruct (recorded u data) as [d|e]; [|reflexivity].
  unfold bind, gets, lift, ret, log_write, modify, seconds, microseconds.
  simpl.
  destruct r as [[|]|]; simpl.
  - destruct (nonzero la); simpl;
      match goal with |- context [dumps_frame ?a ?b ?c] =>
        destruct (dumps_frame a b c) end; reflexivity.
  - match goal with |- context [pack_III ?a ?b ?c] =>
      destruct (pack_III a b c) as [hdr|] end; simpl; [|reflexivity].
    destruct d as [b|t]; simpl; [reflexivity|].
    destruct (ascii_decode hdr); reflexivity.
  - reflexivity.
Qed.

Lemma write_plain (rt : runtime) (now : Q) (data d : pydata) (s : Log) :
  closed s = false -> truthy data = true -> rec s = None ->
  recorded (unicode s) data = Ok d ->
  write rt now data s
  = (mkLog (dev s) (out s ++ [OWrite data])
           (log s ++ [LWrite (clean_data rt d)])
           (close_out s) false None now (start s) (unicode s), Ok tt).
Proof.
  intros Hc Ht Hr Hd. rewrite write_open by assumption.
  cbv zeta. rewrite Hd, Hr.
  destruct s; simpl in *; now subst.
Qed.

Lemma write_ttyrec (rt : runtime) (now : Q) (data d f : pydata) (hdr : bytes)
      (s : Log) :
  closed s = false -> truthy data = true -> rec s = Some Ttyrec ->
  recorded (unicode s) data = Ok d ->
  pack_III (seconds now) (microseconds now) (py_len d) = Ok hdr ->
  py_add (Str hdr) d = Ok f ->
  write rt now data s
  = (mkLog (dev s) (out s ++ [OWrite data]) (log s ++ [LWrite f])
           (close_out s) false (Some Ttyrec) now (start s) (unicode s), Ok tt).
Proof.
  intros Hc Ht Hr Hd Hp Ha. rewrite write_open by assumption.
  cbv zeta. rewrite Hd, Hr, Hp, Ha.
  destruct s; simpl in *; now subst.
Qed.

Lemma write_asciinema (rt : runtime) (now : Q) (data d : pydata) (j : bytes)
      (s : Log) :
  closed s = false -> truthy data = true -> rec s = Some Asciinema ->
  recorded (unicode s) data = Ok d ->
  dumps_frame rt (if nonzero (last s) then PyFloat (now - last s)
                  else PyInt 0) d = Ok j ->
  write rt now data s
  = (mkLog (dev s) (out s ++ [OWrite data])
           (log s ++ (if nonzero (last s) then [LWrite (Str (B ","))] else [])
                  ++ [LWrite (Str j)])
           (close_out s) false (Some Asciinema) now (start s) (unicode s),
     Ok tt).
Proof.
  intros Hc Ht Hr Hd Hj. rewrite write_open by assumption.
  cbv zeta. rewrite Hd, Hr, Hj.
  destruct s; simpl in *; subst.
  destruct (nonzero last0); simpl; rewrite <- ?app_assoc; reflexivity.
Qed.

(** Whatever the mode and the outcome, an open recorder forwards a
    non-empty chunk to the live sink, unmodified, and stays open. *)
Lemma write_forwards (rt : runtime) (now : Q) (data : pydata) (s : Log) :
  closed s = false ->
  let s' := fst (write rt now data s) in
  out s' = out s ++ forwarded data
  /\ closed s' = false /\ dev s' = dev s.
Proof.
  intros Hc s'. subst s'. unfold forwarded.
  destruct (truthy data) eqn:Ht;
    [|rewrite write_empty by assumption; simpl;
      now rewrite app_nil_r].
  rewrite write_open by assumption. cbv zeta.
  destruct s as [dv o l co c r la st u]. simpl in *. subst c.
  destruct (recorded u data) as [d|e]; [|simpl; auto].
  destruct r as [[|]|]; simpl.
  - destruct (nonzero la); simpl;
      match goal with |- context [dumps_frame ?a ?b ?c] =>
        destruct (dumps_frame a b c) end; simpl; auto.
  - match goal with |- context [pack_III ?a ?b ?c] =>
      destruct (pack_III a b c) as [hdr|] end; simpl; auto.
    destruct d as [b|t]; simpl; auto.
    destruct (ascii_decode hdr); simpl; auto.
  - auto.
Qed.

(** ** The live sink *)

Lemma after_writes_forwards (rt : runtime) (l : list (Q * pydata)) (s : Log) :
  closed s = false ->
  out (after_writes rt l s) = out s ++ flat_map (fun c => forwarded (snd c)) l
  /\ closed (after_writes rt l s) = false
  /\ dev (after_writes rt l s) = dev s.
Proof.
  revert s. induction l as [|[t d] l IH]; intros s Hc; simpl.
  - now rewrite app_nil_r.
  - destruct (write_forwards rt t d s Hc) as (Ho & Hc' & Hd).
    destruct (IH _ Hc') as (Ho2 & Hc2 & Hd2).
    unfold after_writes in *. simpl.
    rewrite Ho2, Hc2, Hd2, Ho, Hd, <- app_assoc. auto.
Qed.

Lemma buffer_value_bytes (bs : list bytes) (v : bytes) :
  buffer_value (flat_map forwarded (map Str bs)) (Str v)
  = Ok (Str (v ++ concat bs)).
Proof.
  revert v. induction bs as [|b bs IH]; intros v; simpl.
  - now rewrite app_nil_r.
  - destruct b as [|c b]; simpl.
    + apply IH.
    + rewrite IH. now rewrite <- app_assoc.
Qed.








(** ** Construction *)

Lemma utf8_decode_fuel_ascii (e : errors) (s : bytes) (fuel : nat) :
  forallb is_ascii s = true -> (length s <= fuel)%nat ->
  utf8_decode_fuel fuel e s = Ok (map N_of_ascii s).
Proof.
  revert fuel. induction s as [|c s IH]; intros fuel Ha Hl.
  - now destruct fuel.
  - destruct fuel as [|fuel]; [simpl in Hl; lia|].
    simpl in Ha. apply andb_true_iff in Ha. destruct Ha as [Hc Hs].
    unfold is_ascii in Hc.
    cbn [utf8_decode_fuel utf8_next]. rewrite Hc. cbn [skipn].
    rewrite IH by (simpl in Hl; auto; lia). reflexivity.
Qed.

Lemma utf8_decode_ascii (e : errors) (s : bytes) :
  forallb is_ascii s = true -> utf8_decode e s = Ok (map N_of_ascii s).
Proof. intros H. now apply utf8_decode_fuel_ascii. Qed.

Lemma header_line_bytes (c : bytes) :
  header_line false c = Ok (Str (B "> " ++ c ++ [newline])).
Proof. reflexivity. Qed.

Lemma header_line_text (c : bytes) :
  exists t, utf8_decode Replace c = Ok t
            /\ header_line true c = Ok (Uni (K "> " ++ t ++ [10%N])).
Proof.
  unfold header_line, utf8_decode.
  destruct (lenient_decode_returns Replace (length c) c) as [t Ht];
    [discriminate|].
  exists t. rewrite Ht. split; [reflexivity|]. reflexivity.
Qed.

Lemma header_line_returns (u : bool) (c : bytes) :
  exists line, header_line u c = Ok line.
Proof.
  destruct u.
  - destruct (header_line_text c) as (t & _ & H). eauto.
  - rewrite header_line_bytes. eauto.
Qed.

Lemma effective_rec_not_a_terminal (d : console) (r : option string) :
  isatty d = false -> effective_rec d r = None.
Proof.
  intros H. unfold effective_rec. destruct r as [name|]; [|reflexivity].
  rewrite H. now rewrite andb_false_r.
Qed.

Lemma init_plain (d : console) (co : bool) (r : option string)
      (cmd : option bytes) (args : option (list bytes)) (title : option bytes)
      (u : bool) (now : Q) :
  effective_rec d r = None ->
  exists l,
    init d co r cmd args title u now = Ok (mkLog d [] l co false None 0 0 u)
    /\ l = match full_command cmd args with
           | Some (x :: c) =>
             match header_line u (x :: c) with
             | Ok line => [LWrite line]
             | Raise _ => []
             end
           | _ => []
           end.
Proof.
  intros H. unfold init. rewrite H.
  destruct (full_command cmd args) as [[|x c]|]; try (eexists; split; reflexivity).
  destruct (header_line_returns u (x :: c)) as [line ->]. simpl.
  eexists; split; reflexivity.
Qed.

Lemma write_each_plain (rt : runtime) (l : list (Q * pydata)) (s : Log) :
  closed s = false -> rec s = None ->
  exists s',
    write_each rt l s = (s', Ok tt)
    /\ closed s' = false /\ rec s' = None
    /\ log s' = log s ++ flat_map (fun c => plain_record rt (unicode s) (snd c)) l.
Proof.
  revert s. induction l as [|[t d] l IH]; intros s Hc Hr.
  - exists s. simpl. rewrite app_nil_r. auto.
  - simpl. unfold bind, plain_record at 1. simpl.
    destruct (truthy d) eqn:Ht.
    + destruct (recorded_returns (unicode s) d) as [d' Hd].
      rewrite (write_plain rt t d d' s Hc Ht Hr Hd), Hd.
      edestruct IH as (s' & Hw & Hc' & Hr' & Hl'); [| |rewrite Hw].
      * reflexivity.
      * reflexivity.
      * exists s'. simpl in Hl'. rewrite Hl', <- app_assoc. auto.
    + rewrite write_empty by assumption.
      destruct (IH s Hc Hr) as (s' & Hw & Hc' & Hr' & Hl').
      exists s'. rewrite Hw. auto.
Qed.

Lemma full_command_both (c : bytes) (a : list bytes) :
  c <> [] -> a <> [] ->
  full_command (Some c) (Some a) = Some (c ++ B " " ++ join_spaces a).
Proof.
  intros Hc Ha. unfold full_command.
  destruct c; [congruence|]. destruct a; [congruence|]. reflexivity.
Qed.

(** C7, on the size (24, 80) of the console, that is 24 rows and 80
    columns: the header written at construction in asciinema mode gives 24
    as the width and 80 as the height. *)
Example header_of_24_rows_80_columns :
  init {| isatty := true; termsize := Some (24, 80); buffered := false |}
       false (Some "asciinema"%string) (Some (B "ls")) (Some [B "-la"]) None
       false 0
  = Ok (mkLog {| isatty := true; termsize := Some (24, 80);
                 buffered := false |}
              []
              [LWrite (Str (B "{" ++ key "command"
                              ++ dquote :: B "ls -la" ++ dquote :: B ","
                              ++ key "title" ++ B "null,"
                              ++ key "env" ++ B "null,"
                              ++ key "version" ++ B "1,"
                              ++ key "width" ++ B "24,"
                              ++ key "height" ++ B "80,"
                              ++ key "stdout" ++ B "["))]
              false false (Some Asciinema) 0 0 false).
Proof. reflexivity. Qed.

(** ** The asciinema timeline *)

Lemma dumps_frame_text (rt : runtime) (delta : pynum) (d : pydata) :
  dumps_frame rt delta d
  = rbind (json_text d) (fun x => Ok (frame_text rt delta x)).
Proof.
  unfold dumps_frame, encode_basestring_ascii, frame_text.
  now destruct (json_text d).
Qed.

Lemma write_frame (rt : runtime) (now : Q) (data : pydata) (x : text)
      (s : Log) :
  closed s = false -> rec s = Some Asciinema ->
  truthy data = true -> json_payload (unicode s) data = Ok x ->
  write rt now data s
  = (mkLog (dev s) (out s ++ [OWrite data])
           (log s
            ++ (if nonzero (last s) then [LWrite (Str (B ","))] else [])
            ++ [LWrite (Str (frame_text rt
                               (if nonzero (last s)
                                then PyFloat (now - last s) else PyInt 0) x))])
           (close_out s) false (Some Asciinema) now (start s) (unicode s),
     Ok tt).
Proof.
  intros Hc Hr Ht Hx. unfold json_payload in Hx.
  destruct (recorded (unicode s) data) as [d|e] eqn:Hd; [|discriminate].
  simpl in Hx.
  apply (write_asciinema rt now data d); trivial.
  rewrite dumps_frame_text, Hx. reflexivity.
Qed.

Lemma last_default {X : Type} (l : list X) (a d d' : X) :
  List.last (a :: l) d = List.last (a :: l) d'.
Proof.
  revert a. induction l as [|b l IH]; intros a; [reflexivity|].
  change (List.last (b :: l) d = List.last (b :: l) d'). apply IH.
Qed.

Lemma write_each_frames (rt : runtime) (u : bool) (l : list (Q * pydata))
      (xs : list text) :
  Forall2 (recordable u) l xs ->
  forall s,
    closed s = false -> rec s = Some Asciinema -> nonzero (last s) = true ->
    unicode s = u ->
    exists s',
      write_each rt l s = (s', Ok tt)
      /\ log s' = log s ++ frame_calls rt false
                                       (deltas_after (last s) (map fst l)) xs
      /\ last s' = List.last (map fst l) (last s)
      /\ start s' = start s /\ closed s' = false /\ rec s' = Some Asciinema
      /\ close_out s' = close_out s /\ unicode s' = u
      /\ dev s' = dev s.
Proof.
  intros HF.
  induction HF as [|[t d] x l xs (Ht & Hz & Hx) HF IH]; intros s Hc Hr Hl Hu.
  - exists s. simpl. rewrite app_nil_r. repeat split; trivial.
  - simpl in Ht, Hz, Hx. rewrite <- Hu in Hx.
    cbn [write_each]. unfold bind.
    rewrite (write_frame rt t d x s Hc Hr Ht Hx), Hl.
    edestruct IH as (s' & Hw & Hlog & Hla & Hst & Hc' & Hr' & Hco & Hu' & Hd);
      [| | | |rewrite Hw]; try reflexivity; try exact Hz; try exact Hu.
    exists s'. simpl in *. rewrite Hlog, Hla.
    repeat split; trivial.
    + now rewrite <- app_assoc.
    + destruct (map fst l); [reflexivity|apply last_default].
Qed.

Lemma write_each_first_frames (rt : runtime) (u : bool)
      (l : list (Q * pydata)) (xs : list text) (s : Log) :
  closed s = false -> rec s = Some Asciinema -> nonzero (last s) = false ->
  unicode s = u ->
  Forall2 (recordable u) l xs ->
  exists s',
    write_each rt l s = (s', Ok tt)
    /\ log s' = log s ++ frame_calls rt true (deltas (map fst l)) xs
    /\ last s' = List.last (map fst l) (last s)
    /\ start s' = start s /\ closed s' = false /\ rec s' = Some Asciinema
    /\ close_out s' = close_out s /\ unicode s' = u
    /\ dev s' = dev s.
Proof.
  intros Hc Hr Hl Hu HF.
  destruct HF as [|[t d] x l xs (Ht & Hz & Hx) HF].
  - exists s. simpl. rewrite app_nil_r. repeat split; trivial.
  - simpl in Ht, Hz, Hx. rewrite <- Hu in Hx.
    cbn [write_each]. unfold bind.
    rewrite (write_frame rt t d x s Hc Hr Ht Hx), Hl.
    edestruct (write_each_frames rt u l xs HF)
      as (s' & Hw & Hlog & Hla & Hst & Hc' & Hr' & Hco & Hu' & Hd);
      [| | | |rewrite Hw]; try reflexivity; try exact Hz; try exact Hu.
    exists s'. simpl in *. rewrite Hlog, Hla.
    repeat split; trivial.
    + now rewrite <- app_assoc.
    + destruct (map fst l); [reflexivity|apply last_default].
Qed.

Lemma init_asciinema (d : console) (co : bool) (cmd : option bytes)
      (args : option (list bytes)) (title : option bytes) (u : bool) (t0 : Q)
      (s : Log) :
  isatty d = true ->
  init d co (Some "asciinema"%string) cmd args title u t0 = Ok s ->
  exists jc jt,
    dumps_opt_str (full_command cmd args) = Ok jc
    /\ dumps_opt_str title = Ok jt
    /\ s = mkLog d [] [LWrite (Str (asciinema_header jc jt (fst (consize d))
                                                     (snd (consize d))))]
                 co false (Some Asciinema) 0 t0 u.
Proof.
  intros Ht. unfold init, effective_rec. rewrite Ht.
  simpl String.eqb. cbv iota beta. simpl negb. simpl andb. cbv iota beta.
  destruct (consize d) as [h l].
  destruct (dumps_opt_str (full_command cmd args)) as [jc|]; [|discriminate].
  destruct (dumps_opt_str title) as [jt|]; [|discriminate].
  simpl. intros H. injection H as <-. now exists jc, jt.
Qed.

Lemma write_without_frame (rt : runtime) (now : Q) (data : pydata)
      (s : Log) :
  closed s = false -> rec s = Some Asciinema ->
  truthy data = false \/ (exists e, json_payload (unicode s) data = Raise e) ->
  last (fst (write rt now data s)) = last s
  /\ log (fst (write rt now data s))
     = log s ++ (if truthy data && nonzero (last s)
                 then [LWrite (Str (B ","))] else []).
Proof.
  intros Hc Hr H.
  destruct (truthy data) eqn:Ht.
  - destruct H as [H|[e He]]; [discriminate|].
    rewrite write_open by assumption. cbv zeta.
    unfold json_payload in He.
    destruct (recorded_returns (unicode s) data) as [d Hd].
    rewrite Hd in *. cbn [rbind] in He. rewrite Hr.
    rewrite dumps_frame_text, He. cbn [rbind fst andb].
    destruct (nonzero (last s)); cbn [set_log set_out last log];
      [auto|now rewrite app_nil_r].
  - rewrite write_empty by assumption. cbn [fst andb].
    now rewrite app_nil_r.
Qed.

(** C6, as the code has it: in an asciinema session of writes whose chunks
    are not empty and have a JSON form, none at a clock reading of zero,
    the first frame is recorded with the duration zero, whatever the time
    since the start of the session; every later frame is recorded with its
    clock reading minus the one of the write before; and once the writes
    are done the last-write timestamp is the clock reading of the last
    one.  The start timestamp is the clock reading at construction, and no
    write changes it.  A write of an empty chunk, or of a chunk that has no
    JSON form, records no frame and leaves the last-write timestamp as it
    was, so that the duration of the next frame is counted from the last
    write that was recorded. *)
Theorem frame_durations (rt : runtime) (d : console) (co : bool)
        (cmd : option bytes) (args : option (list bytes))
        (title : option bytes) (u : bool) (t0 : Q) (s : Log)
        (l : list (Q * pydata)) (xs : list text) :
  isatty d = true ->
  init d co (Some "asciinema"%string) cmd args title u t0 = Ok s ->
  Forall2 (recordable u) l xs ->
  exists s',
    write_each rt l s = (s', Ok tt)
    /\ log s' = log s ++ frame_calls rt true (deltas (map fst l)) xs
    /\ deltas (map fst l)
       = match map fst l with
         | [] => []
         | t :: r => PyInt 0 :: deltas_after t r
         end
    /\ last s' = List.last (map fst l) 0%Q
    /\ start s' = t0
    /\ forall t c,
        truthy c = false \/ (exists e, json_payload u c = Raise e) ->
        last (fst (write rt t c s')) = last s'
        /\ log (fst (write rt t c s'))
           = log s' ++ (if truthy c && nonzero (last s')
                        then [LWrite (Str (B ","))] else []).
Proof.
  intros Ht Hi HF.
  destruct (init_asciinema _ _ _ _ _ _ _ _ Ht Hi) as (jc & jt & _ & _ & ->).
  match goal with
  | |- context [write_each rt l ?s0] =>
    destruct (write_each_first_frames rt u l xs s0 eq_refl eq_refl eq_refl
                                      eq_refl HF)
      as (s' & Hw & Hlog & Hla & Hst & Hc' & Hr' & _ & Hu' & _)
  end.
  exists s'. simpl in *. repeat split; auto.
  - apply write_without_frame; trivial. now rewrite Hu'.
  - apply write_without_frame; trivial. now rewrite Hu'.
Qed.

(** C6, the claim as it was stated fails: a session that starts at 10 and
    writes first at 12 records the duration 0 with its first frame, not
    12 - 10. *)
Lemma first_duration_is_not_since_start :
  exists s s',
    init terminal false (Some "asciinema"%string) None None None false 10
    = Ok s
    /\ start s = 10%Q
    /\ write ordered_runtime 12 (Str (B "x")) s = (s', Ok tt)
    /\ log s' = log s ++ [LWrite (Str (frame_text ordered_runtime (PyInt 0)
                                                  [120%N]))]
    /\ frame_text ordered_runtime (PyInt 0) [120%N]
       <> frame_text ordered_runtime (PyFloat (12 - start s)) [120%N].
Proof.
  eexists. eexists.
  split; [reflexivity|]. split; [reflexivity|].
  split; [reflexivity|]. split; [reflexivity|].
  discriminate.
Qed.

(** ** The ttyrec stream *)

(** *** Rounding to the nearest double *)

Lemma rne_ge (n d k : Z) : 0 < d -> k * d <= n -> k <= rne n d.
Proof.
  intros Hd H. unfold rne.
  assert (Hq : k <= n / d) by (apply Z.div_le_lower_bound; lia).
  destruct (2 * (n mod d) <? d); [exact Hq|].
  destruct (d <? 2 * (n mod d)); [lia|].
  destruct (Z.even (n / d)); lia.
Qed.

Lemma rne_le (n d k : Z) : 0 < d -> n <= k * d -> rne n d <= k.
Proof.
  intros Hd H. unfold rne.
  assert (Hn : n = d * (n / d) + n mod d) by (apply Z.div_mod; lia).
  assert (Hr : 0 <= n mod d < d) by (apply Z.mod_pos_bound; lia).
  destruct (Z.eq_dec n (k * d)) as [E|E].
  - assert (Hm : n mod d = 0) by (rewrite E; apply Z.mod_mul; lia).
    assert (Hq : n / d = k) by (rewrite E; apply Z.div_mul; lia).
    rewrite Hm, Hq.
    replace (2 * 0 <? d) with true by (symmetry; apply Z.ltb_lt; lia).
    lia.
  - assert (Hq : n / d < k) by (apply Z.div_lt_upper_bound; lia).
    destruct (2 * (n mod d) <? d); [lia|].
    destruct (d <? 2 * (n mod d)); [lia|].
    destruct (Z.even (n / d)); lia.
Qed.

Lemma double_exponent_pos (a d : Z) :
  0 < a -> 0 < d -> 0 < double_exponent a d ->
  2 ^ (52 + double_exponent a d) * d <= a.
Proof.
  intros Ha Hd. unfold double_exponent.
  set (k := Z.log2 a - Z.log2 d).
  destruct (Z.log2_spec a Ha) as [Ha1 Ha2].
  destruct (Z.log2_spec d Hd) as [Hd1 Hd2].
  assert (Hla : 0 <= Z.log2 a) by apply Z.log2_nonneg.
  assert (Hld : 0 <= Z.log2 d) by apply Z.log2_nonneg.
  intros He.
  destruct (0 <=? k) eqn:Hk.
  - apply Z.leb_le in Hk.
    destruct (a <? d * 2 ^ k) eqn:Hb.
    + rewrite Z.max_l in * by lia.
      replace (52 + (k - 1 - 52)) with (k - 1) by lia.
      assert (Hp : 2 ^ (k - 1) * 2 ^ (Z.succ (Z.log2 d)) = 2 ^ Z.log2 a).
      { rewrite <- Z.pow_add_r by lia. f_equal. unfold k. lia. }
      assert (0 < 2 ^ (k - 1)) by (apply Z.pow_pos_nonneg; lia).
      nia.
    + apply Z.ltb_ge in Hb.
      rewrite Z.max_l in * by lia.
      replace (52 + (k - 52)) with k by lia. lia.
  - apply Z.leb_gt in Hk. exfalso.
    destruct (a * 2 ^ (- k) <? d); lia.
Qed.

Lemma nearest_double_pos_bounds (a d k : Z) :
  0 < a -> 0 < d -> 0 <= k <= 2 ^ 52 ->
  (k * d <= a -> (inject_Z k <= nearest_double_pos a d)%Q)
  /\ (a <= k * d -> (nearest_double_pos a d <= inject_Z k)%Q).
Proof.
  intros Ha Hd Hk. unfold nearest_double_pos.
  set (e := double_exponent a d).
  destruct (0 <=? e) eqn:He.
  - apply Z.leb_le in He.
    assert (Hp : 0 < 2 ^ e) by (apply Z.pow_pos_nonneg; lia).
    destruct (Z.eq_dec e 0) as [E0|E0].
    + rewrite E0. change (2 ^ 0) with 1. rewrite !Z.mul_1_r.
      unfold Qle. simpl. rewrite !Z.mul_1_r.
      split; intros H; [now apply rne_ge|now apply rne_le].
    + assert (Hb := double_exponent_pos a d Ha Hd ltac:(fold e; lia)).
      fold e in Hb. rewrite Z.pow_add_r in Hb by lia.
      assert (H52 : 0 < 2 ^ 52) by reflexivity.
      assert (H2 : 2 <= 2 ^ e).
      { change 2 with (2 ^ 1) at 1. apply Z.pow_le_mono_r; lia. }
      split; intros H.
      * unfold Qle. simpl. rewrite !Z.mul_1_r.
        assert (Hm : 2 ^ 52 <= rne a (d * 2 ^ e)) by (apply rne_ge; nia).
        nia.
      * exfalso. nia.
  - apply Z.leb_gt in He.
    assert (Hp : 0 < 2 ^ (- e)) by (apply Z.pow_pos_nonneg; lia).
    unfold Qle. simpl. rewrite Z2Pos.id by exact Hp. rewrite !Z.mul_1_r.
    split; intros H.
    + apply rne_ge; [exact Hd|]. nia.
    + apply rne_le; [exact Hd|]. nia.
Qed.

(** Rounding does not cross an integer that a double holds exactly. *)
Lemma nearest_double_ge (q : Q) (k : Z) :
  - 2 ^ 52 <= k <= 2 ^ 52 ->
  (inject_Z k <= q)%Q -> (inject_Z k <= nearest_double q)%Q.
Proof.
  intros Hk H. destruct q as [n d]. unfold nearest_double. cbn [Qnum Qden].
  unfold Qle in H. cbn [Qnum Qden inject_Z] in H. rewrite Z.mul_1_r in H.
  destruct n as [|a|a].
  - unfold Qle. simpl. lia.
  - destruct (Z_le_gt_dec 0 k) as [Hk0|Hk0].
    + apply (nearest_double_pos_bounds (Z.pos a) (Z.pos d) k); lia.
    + apply Qle_trans with (inject_Z 0); [unfold Qle; simpl; lia|].
      apply (nearest_double_pos_bounds (Z.pos a) (Z.pos d) 0); lia.
  - assert (H' : (nearest_double_pos (Z.pos a) (Z.pos d) <= inject_Z (- k))%Q)
      by (apply (nearest_double_pos_bounds (Z.pos a) (Z.pos d) (- k)); lia).
    apply Qopp_le_compat in H'.
    rewrite <- inject_Z_opp, Z.opp_involutive in H'. exact H'.
Qed.

Lemma nearest_double_le (q : Q) (k : Z) :
  - 2 ^ 52 <= k <= 2 ^ 52 ->
  (q <= inject_Z k)%Q -> (nearest_double q <= inject_Z k)%Q.
Proof.
  intros Hk H. destruct q as [n d]. unfold nearest_double. cbn [Qnum Qden].
  unfold Qle in H. cbn [Qnum Qden inject_Z] in H. rewrite Z.mul_1_r in H.
  destruct n as [|a|a].
  - unfold Qle. simpl. lia.
  - apply (nearest_double_pos_bounds (Z.pos a) (Z.pos d) k); lia.
  - destruct (Z_le_gt_dec 0 k) as [Hk0|Hk0].
    + apply Qle_trans with (inject_Z 0); [|unfold Qle; simpl; lia].
      assert (H' : (inject_Z 0 <= nearest_double_pos (Z.pos a) (Z.pos d))%Q)
        by (apply (nearest_double_pos_bounds (Z.pos a) (Z.pos d) 0); lia).
      apply Qopp_le_compat in H'. exact H'.
    + assert (H' : (inject_Z (- k)
                    <= nearest_double_pos (Z.pos a) (Z.pos d))%Q)
        by (apply (nearest_double_pos_bounds (Z.pos a) (Z.pos d) (- k)); lia).
      apply Qopp_le_compat in H'.
      rewrite <- inject_Z_opp, Z.opp_involutive in H'. exact H'.
Qed.

Lemma Qtrunc_ge (x : Q) (k : Z) :
  0 <= k -> (inject_Z k <= x)%Q -> k <= Qtrunc x.
Proof.
  intros Hk H. destruct x as [n d]. unfold Qle, Qtrunc in *. simpl in *.
  rewrite Z.mul_1_r in H.
  rewrite Z.quot_div_nonneg by nia.
  apply Z.div_le_lower_bound; lia.
Qed.

Lemma Qtrunc_le (x : Q) (k : Z) : (x <= inject_Z k)%Q -> Qtrunc x <= k.
Proof.
  intros H. destruct x as [n d]. unfold Qle, Qtrunc in *. simpl in *.
  rewrite Z.mul_1_r in H.
  destruct (Z_le_gt_dec 0 n) as [Hn|Hn].
  - rewrite Z.quot_div_nonneg by lia.
    assert (Hnn : n = Z.pos d * (n / Z.pos d) + n mod Z.pos d)
      by (apply Z.div_mod; lia).
    assert (Hr : 0 <= n mod Z.pos d < Z.pos d)
      by (apply Z.mod_pos_bound; lia).
    nia.
  - assert (E : n ÷ Z.pos d = - ((- n) / Z.pos d)).
    { rewrite <- (Z.opp_involutive n) at 1. rewrite Z.quot_opp_l by lia.
      rewrite Z.quot_div_nonneg by lia. reflexivity. }
    rewrite E.
    assert (Hnn : - n = Z.pos d * (- n / Z.pos d) + (- n) mod Z.pos d)
      by (apply Z.div_mod; lia).
    assert (Hr : 0 <= (- n) mod Z.pos d < Z.pos d)
      by (apply Z.mod_pos_bound; lia).
    nia.
Qed.

(** The microseconds of a clock reading [n / d] that is not negative: the
    fraction times 1000000, rounded to the integer below it or to the one
    above, and kept when it is an integer. *)
Lemma microseconds_floor (n : Z) (d : positive) :
  0 <= n ->
  let r := n mod Z.pos d in
  let kf := r * 1000000 / Z.pos d in
  0 <= kf < 1000000
  /\ kf <= microseconds (n # d) <= kf + 1
  /\ ((r * 1000000) mod Z.pos d = 0 -> microseconds (n # d) = kf).
Proof.
  intros Hn r kf.
  assert (Hr : 0 <= r < Z.pos d) by (apply Z.mod_pos_bound; lia).
  assert (Hnd : n = Z.pos d * (n / Z.pos d) + r) by (apply Z.div_mod; lia).
  assert (Hk : r * 1000000 = Z.pos d * kf + (r * 1000000) mod Z.pos d)
    by (apply Z.div_mod; lia).
  assert (Hkr : 0 <= (r * 1000000) mod Z.pos d < Z.pos d)
    by (apply Z.mod_pos_bound; lia).
  assert (Hkf : 0 <= kf < 1000000).
  { split; [apply Z.div_pos; lia|apply Z.div_lt_upper_bound; lia]. }
  assert (H52 : 2 ^ 52 = 4503599627370496) by reflexivity.
  unfold microseconds, float_mul.
  set (p := (fst (modf (n # d)) * 1000000)%Q).
  assert (Hp : Qnum p = r * 1000000 /\ Z.pos (Qden p) = Z.pos d).
  { unfold p, modf, Qtrunc. simpl. rewrite !Pos.mul_1_r.
    rewrite Z.quot_div_nonneg by lia. split; [|reflexivity]. nia. }
  destruct Hp as [Hp1 Hp2]. clearbody p.
  assert (Hlo : (inject_Z kf <= p)%Q)
    by (unfold Qle; simpl; rewrite Hp1, Hp2; nia).
  assert (Hhi : (p <= inject_Z (kf + 1))%Q)
    by (unfold Qle; simpl; rewrite Hp1, Hp2; nia).
  split; [exact Hkf|]. split; [split|].
  - apply Qtrunc_ge; [lia|]. apply nearest_double_ge; [lia|exact Hlo].
  - apply Qtrunc_le. apply nearest_double_le; [lia|exact Hhi].
  - intros H0.
    assert (Hex : (p <= inject_Z kf)%Q)
      by (unfold Qle; simpl; rewrite Hp1, Hp2; nia).
    apply Z.le_antisymm.
    + apply Qtrunc_le. apply nearest_double_le; [lia|exact Hex].
    + apply Qtrunc_ge; [lia|]. apply nearest_double_ge; [lia|exact Hlo].
Qed.

Lemma seconds_trunc (now : Q) : seconds now = Qtrunc now.
Proof. unfold seconds, modf, Qtrunc. simpl. apply Z.quot_1_r. Qed.

Lemma seconds_u32 (now : Q) : representable now -> u32 (seconds now) = true.
Proof.
  intros [H0 H1]. rewrite seconds_trunc.
  destruct now as [n d]. unfold Qle, Qlt, Qtrunc, u32 in *. simpl in *.
  rewrite Z.mul_1_r in H0.
  rewrite Z.quot_div_nonneg by lia.
  apply andb_true_iff. split.
  - apply Z.leb_le. apply Z.div_pos; lia.
  - apply Z.ltb_lt. apply Z.div_lt_upper_bound; lia.
Qed.

Lemma microseconds_u32 (now : Q) :
  representable now -> u32 (microseconds now) = true.
Proof.
  intros [H0 _]. destruct now as [n d].
  assert (Hn : 0 <= n) by (unfold Qle in H0; simpl in H0; lia).
  destruct (microseconds_floor n d Hn) as (Hk & Hm & _).
  unfold u32. apply andb_true_iff. split.
  - apply Z.leb_le. lia.
  - apply Z.ltb_lt. apply Z.le_lt_trans with 1000000; [lia|reflexivity].
Qed.

Lemma byte_value (v : Z) :
  Z.of_N (N_of_ascii (ascii_of_N (Z.to_N (Z.land v 255)))) = v mod 256.
Proof.
  change 255 with (Z.ones 8). rewrite Z.land_ones by lia.
  change (2 ^ 8) with 256.
  assert (H : 0 <= v mod 256 < 256) by (apply Z.mod_pos_bound; lia).
  rewrite N_ascii_embedding by lia. lia.
Qed.

Lemma le_value_le32 (v : Z) : 0 <= v < 2 ^ 32 -> le_value (le32 v) = v.
Proof.
  intros H. unfold le32, le_value. cbn [map fold_right].
  rewrite !byte_value, !Z.shiftr_div_pow2 by lia.
  change (2 ^ (8 * 0)) with 1. change (2 ^ (8 * 1)) with 256.
  change (2 ^ (8 * 2)) with 65536. change (2 ^ (8 * 3)) with 16777216.
  change (2 ^ 32) with 4294967296 in H.
  Z.to_euclidean_division_equations. lia.
Qed.

Lemma length_le32 (v : Z) : length (le32 v) = 4%nat.
Proof. reflexivity. Qed.

Lemma decode_frame (c : Q * bytes) (rest : bytes) (fuel : nat) :
  framable c ->
  decode_ttyrec_fuel (S fuel) (frame_bytes c ++ rest)
  = option_map (cons (frame_of c)) (decode_ttyrec_fuel fuel rest).
Proof.
  intros (Hne & Hrep & Hlen).
  assert (Hs := seconds_u32 _ Hrep). assert (Hu := microseconds_u32 _ Hrep).
  unfold u32 in Hs, Hu.
  apply andb_true_iff in Hs, Hu.
  rewrite Z.leb_le, Z.ltb_lt in Hs, Hu.
  unfold frame_bytes, frame_of.
  set (sec := seconds (fst c)) in *. set (usec := microseconds (fst c)) in *.
  set (p := snd c) in *.
  assert (E1 : le32 sec ++ le32 usec ++ le32 (Z.of_nat (length p)) ++ p
               = le32 sec ++ le32 usec ++ le32 (Z.of_nat (length p)) ++ p)
    by reflexivity.
  remember (le32 sec) as a eqn:Ea. remember (le32 usec) as b eqn:Eb.
  remember (le32 (Z.of_nat (length p))) as n eqn:En.
  assert (La : length a = 4%nat) by (subst; reflexivity).
  assert (Lb : length b = 4%nat) by (subst; reflexivity).
  assert (Ln : length n = 4%nat) by (subst; reflexivity).
  clear E1.
  destruct a as [|a0 [|a1 [|a2 [|a3 [|]]]]]; try discriminate.
  destruct b as [|b0 [|b1 [|b2 [|b3 [|]]]]]; try discriminate.
  destruct n as [|n0 [|n1 [|n2 [|n3 [|]]]]]; try discriminate.
  cbn [app decode_ttyrec_fuel length Nat.ltb Nat.leb skipn firstn].
  rewrite En, Ea, Eb, !le_value_le32 by lia.
  rewrite length_app.
  replace (Z.of_nat (length p + length rest) <? Z.of_nat (length p))
    with false by (symmetry; apply Z.ltb_ge; lia).
  rewrite Nat2Z.id.
  rewrite firstn_app, Nat.sub_diag, firstn_all, firstn_O, app_nil_r.
  rewrite skipn_app, Nat.sub_diag, skipn_all, skipn_O.
  reflexivity.
Qed.

Lemma decode_frames (l : list (Q * bytes)) (fuel : nat) :
  Forall framable l -> (length l <= fuel)%nat ->
  decode_ttyrec_fuel fuel (concat (map frame_bytes l)) = Some (map frame_of l).
Proof.
  intros HF. revert fuel.
  induction HF as [|c l Hc HF IH]; intros fuel Hl.
  - now destruct fuel.
  - destruct fuel as [|fuel]; [simpl in Hl; lia|].
    cbn [map concat]. rewrite decode_frame by assumption.
    rewrite IH by (simpl in Hl; lia). reflexivity.
Qed.

Lemma length_frames (l : list (Q * bytes)) :
  (length l <= length (concat (map frame_bytes l)))%nat.
Proof.
  induction l as [|c l IH]; [simpl; lia|].
  cbn [map concat length]. rewrite length_app.
  assert (1 <= length (frame_bytes c))%nat
    by (unfold frame_bytes; rewrite length_app, length_le32; lia).
  lia.
Qed.

Lemma sink_bytes_app (l l' : list log_call) :
  sink_bytes (l ++ l') = sink_bytes l ++ sink_bytes l'.
Proof.
  induction l as [|c l IH]; simpl; [reflexivity|].
  destruct c as [[b|u]| |]; trivial.
  now rewrite IH, app_assoc.
Qed.

Lemma sink_bytes_writes (bs : list bytes) :
  sink_bytes (map (fun b => LWrite (Str b)) bs) = concat bs.
Proof. induction bs; simpl; congruence. Qed.

Lemma write_each_ttyrec (rt : runtime) (l : list (Q * bytes)) :
  Forall framable l ->
  forall s,
    closed s = false -> rec s = Some Ttyrec -> unicode s = false ->
    exists s',
      write_each rt (map (fun c => (fst c, Str (snd c))) l) s = (s', Ok tt)
      /\ log s' = log s ++ map (fun c => LWrite (Str (frame_bytes c))) l
      /\ out s' = out s ++ map (fun c => OWrite (Str (snd c))) l.
Proof.
  intros HF.
  induction HF as [|[t p] l (Hne & Hrep & Hlen) HF IH]; intros s Hc Hr Hu.
  - exists s. simpl. rewrite !app_nil_r. auto.
  - simpl in Hne, Hrep, Hlen. cbn [map write_each fst snd]. unfold bind.
    assert (Ht : truthy (Str p) = true) by (destruct p; [congruence|reflexivity]).
    assert (Hd : recorded (unicode s) (Str p) = Ok (Str p))
      by (rewrite Hu; reflexivity).
    assert (Hp : pack_III (seconds t) (microseconds t) (py_len (Str p))
                 = Ok (le32 (seconds t) ++ le32 (microseconds t)
                            ++ le32 (Z.of_nat (length p)))).
    { unfold pack_III. rewrite seconds_u32, microseconds_u32 by assumption.
      unfold u32. simpl py_len.
      replace (0 <=? Z.of_nat (length p)) with true
        by (symmetry; apply Z.leb_le; lia).
      replace (Z.of_nat (length p) <? 2 ^ 32) with true
        by (symmetry; apply Z.ltb_lt; lia).
      reflexivity. }
    rewrite (write_ttyrec rt t (Str p) (Str p) _ _ s Hc Ht Hr Hd Hp eq_refl).
    edestruct IH as (s' & Hw & Hlog & Hout); [| | |rewrite Hw];
      try reflexivity; try assumption.
    exists s'. split; [reflexivity|].
    cbn [log out] in Hlog, Hout. rewrite Hlog, Hout.
    cbn [map fst snd]. unfold frame_bytes. cbn [fst snd].
    rewrite <- !app_assoc. split; reflexivity.
Qed.

Lemma init_ttyrec (d : console) (co : bool) (cmd : option bytes)
      (args : option (list bytes)) (title : option bytes) (u : bool) (t0 : Q) :
  isatty d = true ->
  init d co (Some "ttyrec"%string) cmd args title u t0
  = Ok (mkLog d [] [] co false (Some Ttyrec) t0 0 u).
Proof.
  intros Ht. unfold init, effective_rec. rewrite Ht. reflexivity.
Qed.

(** C1, as the code has it: in a ttyrec session whose unicode flag is off
    (as [PupyModule.init] constructs it), [N] writes of non-empty byte
    payloads, at clock readings whose seconds fit 32 bits, append to the
    recording sink the [N] frames in call order and nothing else; a frame is
    the 12-byte little-endian header of seconds, microseconds and payload
    length, followed by the payload bytes unchanged; and a reader of the
    stream finds exactly these [N] frames, in order, with the lengths and
    the payloads of the writes. *)
Theorem ttyrec_round_trip (rt : runtime) (d : console) (co : bool)
        (cmd : option bytes) (args : option (list bytes))
        (title : option bytes) (t0 : Q) (l : list (Q * bytes)) :
  isatty d = true -> Forall framable l ->
  exists s s',
    init d co (Some "ttyrec"%string) cmd args title false t0 = Ok s
    /\ write_each rt (map (fun c => (fst c, Str (snd c))) l) s = (s', Ok tt)
    /\ log s' = map (fun c => LWrite (Str (frame_bytes c))) l
    /\ sink_bytes (log s') = concat (map frame_bytes l)
    /\ (forall c, frame_bytes c
                  = le32 (seconds (fst c)) ++ le32 (microseconds (fst c))
                    ++ le32 (Z.of_nat (length (snd c))) ++ snd c)
    /\ decode_ttyrec (sink_bytes (log s')) = Some (map frame_of l)
    /\ map f_len (map frame_of l) = map (fun c => Z.of_nat (length (snd c))) l
    /\ map f_payload (map frame_of l) = map snd l.
Proof.
  intros Ht HF.
  destruct (write_each_ttyrec rt l HF (mkLog d [] [] co false (Some Ttyrec) t0 0 false)
                              eq_refl eq_refl eq_refl)
    as (s' & Hw & Hlog & _).
  simpl in Hlog.
  assert (Hb : sink_bytes (log s') = concat (map frame_bytes l)).
  { rewrite Hlog, <- (map_map frame_bytes (fun b => LWrite (Str b))).
    apply sink_bytes_writes. }
  eexists. exists s'.
  split; [now apply init_ttyrec|].
  split; [exact Hw|]. split; [exact Hlog|]. split; [exact Hb|].
  split; [reflexivity|].
  split; [|split].
  - rewrite Hb. unfold decode_ttyrec.
    apply decode_frames; [assumption|apply length_frames].
  - rewrite !map_map. reflexivity.
  - rewrite !map_map. reflexivity.
Qed.

Lemma ttyrec_round_trip_witness :
  (isatty terminal = true
   /\ Forall framable [(1%Q, B "ab"); ((3 # 2)%Q, B "c")])
  /\ exists s s',
      init terminal false (Some "ttyrec"%string) None None None false 0 = Ok s
      /\ write_each ordered_runtime
                    (map (fun c => (fst c, Str (snd c)))
                         [(1%Q, B "ab"); ((3 # 2)%Q, B "c")]) s
         = (s', Ok tt)
      /\ log s' = map (fun c => LWrite (Str (frame_bytes c)))
                      [(1%Q, B "ab"); ((3 # 2)%Q, B "c")]
      /\ sink_bytes (log s')
         = concat (map frame_bytes [(1%Q, B "ab"); ((3 # 2)%Q, B "c")])
      /\ (forall c, frame_bytes c
                    = le32 (seconds (fst c)) ++ le32 (microseconds (fst c))
                      ++ le32 (Z.of_nat (length (snd c))) ++ snd c)
      /\ decode_ttyrec (sink_bytes (log s'))
         = Some (map frame_of [(1%Q, B "ab"); ((3 # 2)%Q, B "c")])
      /\ map f_len (map frame_of [(1%Q, B "ab"); ((3 # 2)%Q, B "c")])
         = map (fun c => Z.of_nat (length (snd c)))
               [(1%Q, B "ab"); ((3 # 2)%Q, B "c")]
      /\ map f_payload (map frame_of [(1%Q, B "ab"); ((3 # 2)%Q, B "c")])
         = map snd [(1%Q, B "ab"); ((3 # 2)%Q, B "c")].
Proof.
  assert (H : isatty terminal = true
              /\ Forall framable [(1%Q, B "ab"); ((3 # 2)%Q, B "c")]).
  { split; [reflexivity|].
    repeat constructor; simpl; try discriminate; try lia;
      unfold Qle, Qlt; simpl; lia. }
  split; [exact H|].
  exact (ttyrec_round_trip ordered_runtime terminal false None None None 0
                           _ (proj1 H) (proj2 H)).
Defined.

(** C1, the claim as it was stated fails when the unicode flag is set: the
    payload [c3 a9] written at the clock reading 1 reaches the recording
    sink as a text, decoded, under a header that gives its length as 1; at
    the clock reading 1700000000 the write raises and records nothing. *)
Lemma ttyrec_decodes_when_unicode :
  exists s s',
    init terminal false (Some "ttyrec"%string) None None None true 0 = Ok s
    /\ write ordered_runtime 1 (Str ["195"%char; "169"%char]) s = (s', Ok tt)
    /\ log s' = [LWrite (Uni [1; 0; 0; 0; 0; 0; 0; 0; 1; 0; 0; 0; 233]%N)]
    /\ log s' <> [LWrite (Str (frame_bytes (1%Q, ["195"%char; "169"%char])))]
    /\ snd (write ordered_runtime 1700000000
                  (Str ["195"%char; "169"%char]) s)
       = Raise UnicodeDecodeError
    /\ log (fst (write ordered_runtime 1700000000
                       (Str ["195"%char; "169"%char]) s)) = [].
Proof.
  eexists. eexists.
  split; [reflexivity|]. split; [reflexivity|].
  split; [reflexivity|]. split; [discriminate|].
  split; reflexivity.
Qed.

(** ** The scrub of plain mode *)

Section CleanerFacts.
Context {A : Type}.
Variable A_eqb : A -> A -> bool.
Hypothesis A_eqb_eq : forall x y, A_eqb x y = true <-> x = y.
Variables esc m : A.
Hypothesis esc_not_m : esc <> m.

Local Notation "'seq_of'" := (sequence_of esc m).
Local Notation "'chunk'" := (chunk_of esc m).
Local Notation "'wf'" := (well_formed esc m).

Lemma A_eqb_refl (x : A) : A_eqb x x = true.
Proof. now apply A_eqb_eq. Qed.

Lemma A_eqb_neq (x y : A) : x <> y -> A_eqb x y = false.
Proof.
  intros H. destruct (A_eqb x y) eqn:E; [|reflexivity].
  apply A_eqb_eq in E. contradiction.
Qed.

Lemma list_eqb_eq (x y : list A) : list_eqb A_eqb x y = true <-> x = y.
Proof.
  revert y. induction x as [|a x IH]; intros [|b y]; simpl;
    try (split; [discriminate|discriminate]); [tauto|].
  rewrite andb_true_iff, A_eqb_eq, IH.
  split; [intros [-> ->]; reflexivity|intros H; injection H; auto].
Qed.

Lemma span_not_m_app (w rest : list A) :
  ~ In m w -> span_not_m A_eqb m (w ++ m :: rest) = (w, m :: rest).
Proof.
  induction w as [|c w IH]; intros Hm; simpl.
  - now rewrite A_eqb_refl.
  - rewrite A_eqb_neq by (intros ->; apply Hm; now left).
    rewrite IH by (intros H; apply Hm; now right). reflexivity.
Qed.

Lemma match_at_sequence (w rest : list A) :
  w <> [] -> ~ In m w ->
  match_at A_eqb esc m (esc :: w ++ m :: rest) = Some (seq_of w).
Proof.
  intros Hw Hm. unfold match_at. rewrite A_eqb_refl, span_not_m_app by assumption.
  destruct w; [congruence|reflexivity].
Qed.

Lemma match_at_other (c : A) (r : list A) :
  c <> esc -> match_at A_eqb esc m (c :: r) = None.
Proof. intros H. unfold match_at. now rewrite A_eqb_neq. Qed.

Lemma finditer_from_skip (x rest : list A) :
  finditer_from A_eqb esc m (length x) (x ++ rest)
  = finditer_from A_eqb esc m 0 rest.
Proof. induction x as [|c x IH]; [reflexivity|exact IH]. Qed.

Lemma finditer_text (t rest : list A) :
  ~ In esc t ->
  finditer_from A_eqb esc m 0 (t ++ rest) = finditer_from A_eqb esc m 0 rest.
Proof.
  induction t as [|c t IH]; intros He; [reflexivity|].
  cbn [app finditer_from].
  rewrite match_at_other by (intros ->; apply He; now left).
  apply IH. intros H. apply He. now right.
Qed.

Lemma finditer_sequence (w rest : list A) :
  w <> [] -> ~ In m w ->
  finditer_from A_eqb esc m 0 (seq_of w ++ rest)
  = seq_of w :: finditer_from A_eqb esc m 0 rest.
Proof.
  intros Hw Hm. unfold sequence_of.
  change ((esc :: w ++ [m]) ++ rest) with (esc :: (w ++ [m]) ++ rest).
  cbn [finditer_from].
  replace ((w ++ [m]) ++ rest) with (w ++ m :: rest)
    by (now rewrite <- app_assoc).
  rewrite match_at_sequence by assumption. f_equal.
  unfold sequence_of.
  replace (length (esc :: w ++ [m]) - 1)%nat with (length (w ++ [m]))
    by (simpl; lia).
  replace (w ++ m :: rest) with ((w ++ [m]) ++ rest)
    by (now rewrite <- app_assoc).
  apply finditer_from_skip.
Qed.

Lemma finditer_chunk (segs : list (segment A)) :
  Forall wf segs ->
  finditer A_eqb esc m (chunk segs) = sequences esc m segs.
Proof.
  unfold finditer. induction 1 as [|g segs Hg HF IH]; [reflexivity|].
  destruct g as [t|w]; cbn [chunk_of sequences flat_map segment_items].
  - rewrite finditer_text by exact Hg. exact IH.
  - destruct Hg as (Hw & _ & Hm).
    rewrite finditer_sequence by assumption. simpl. f_equal. exact IH.
Qed.

Lemma prefix_of_app (x rest : list A) : prefix_of A_eqb x (x ++ rest) = true.
Proof.
  induction x as [|c x IH]; [reflexivity|].
  simpl. now rewrite A_eqb_refl.
Qed.

Lemma prefix_of_sequences (w w' rest : list A) :
  ~ In m w -> ~ In m w' ->
  prefix_of A_eqb (w ++ [m]) (w' ++ m :: rest) = true -> w = w'.
Proof.
  revert w'. induction w as [|c w IH]; intros [|c' w'] Hm Hm'; simpl.
  - reflexivity.
  - rewrite andb_true_iff, A_eqb_eq. intros [<- _].
    exfalso. apply Hm'. now left.
  - rewrite andb_true_iff, A_eqb_eq. intros [-> _].
    exfalso. apply Hm. now left.
  - rewrite andb_true_iff, A_eqb_eq. intros [-> H]. f_equal.
    apply IH; trivial; intros H'; [apply Hm|apply Hm']; now right.
Qed.

Lemma replace_from_skip (old x rest : list A) :
  replace_from A_eqb old (length x) (x ++ rest)
  = replace_from A_eqb old 0 rest.
Proof. induction x as [|c x IH]; [reflexivity|exact IH]. Qed.

Lemma replace_text (p t rest : list A) :
  ~ In esc t ->
  replace_from A_eqb (esc :: p) 0 (t ++ rest)
  = t ++ replace_from A_eqb (esc :: p) 0 rest.
Proof.
  induction t as [|c t IH]; intros He; [reflexivity|].
  cbn [app replace_from prefix_of].
  rewrite (A_eqb_neq esc c) by (intros ->; apply He; now left).
  cbn [andb]. f_equal. apply IH. intros H. apply He. now right.
Qed.

Lemma replace_same (w rest : list A) :
  replace_from A_eqb (seq_of w) 0 (seq_of w ++ rest)
  = replace_from A_eqb (seq_of w) 0 rest.
Proof.
  assert (H := prefix_of_app (seq_of w) rest).
  unfold sequence_of in *.
  change ((esc :: w ++ [m]) ++ rest) with (esc :: (w ++ [m]) ++ rest) in *.
  cbn [replace_from]. rewrite H.
  replace (length (esc :: w ++ [m]) - 1)%nat with (length (w ++ [m]))
    by (simpl; lia).
  apply replace_from_skip.
Qed.

Lemma replace_other (w w' rest : list A) :
  ~ In m w -> ~ In m w' -> ~ In esc w' -> w <> w' ->
  replace_from A_eqb (seq_of w) 0 (seq_of w' ++ rest)
  = seq_of w' ++ replace_from A_eqb (seq_of w) 0 rest.
Proof.
  intros Hm Hm' He' Hne. unfold sequence_of.
  change ((esc :: w' ++ [m]) ++ rest) with (esc :: (w' ++ [m]) ++ rest).
  cbn [replace_from prefix_of]. rewrite A_eqb_refl. cbn [andb].
  destruct (prefix_of A_eqb (w ++ [m]) ((w' ++ [m]) ++ rest)) eqn:E.
  - rewrite <- app_assoc in E. apply prefix_of_sequences in E; trivial.
    contradiction.
  - cbn [app]. f_equal. apply replace_text.
    intros H. apply in_app_or in H. destruct H as [H|[H|[]]]; auto.
Qed.

Lemma kept_one (w : list A) (g : segment A) :
  kept A_eqb esc m [seq_of w] g
  = match g with
    | Text _ => true
    | Sgr w' => negb (list_eqb A_eqb (seq_of w') (seq_of w))
    end.
Proof. destruct g; simpl; [reflexivity|]. now rewrite orb_false_r. Qed.

Lemma sequence_of_inj (w w' : list A) : seq_of w = seq_of w' -> w = w'.
Proof.
  unfold sequence_of. intros H. injection H as H.
  now apply app_inv_tail in H.
Qed.

Lemma replace_chunk (w : list A) (segs : list (segment A)) :
  ~ In m w -> Forall wf segs ->
  replace A_eqb (seq_of w) (chunk segs)
  = chunk (filter (kept A_eqb esc m [seq_of w]) segs).
Proof.
  intros Hm HF. unfold replace.
  change (replace_from A_eqb (seq_of w) 0 (chunk segs)
          = chunk (filter (kept A_eqb esc m [seq_of w]) segs)).
  induction HF as [|g segs Hg HF IH]; [reflexivity|].
  cbn [filter]. rewrite kept_one.
  destruct g as [t|w']; cbn [chunk_of flat_map segment_items].
  - change (esc :: w ++ [m]) with (seq_of w).
    unfold sequence_of at 1. rewrite replace_text by exact Hg.
    f_equal. exact IH.
  - destruct Hg as (_ & He' & Hm').
    destruct (list_eqb A_eqb (seq_of w') (seq_of w)) eqn:E; cbn [negb].
    + apply list_eqb_eq, sequence_of_inj in E. subst w'.
      rewrite replace_same. exact IH.
    + rewrite replace_other; trivial.
      * cbn [chunk_of flat_map segment_items]. f_equal. exact IH.
      * intros ->. rewrite (proj2 (list_eqb_eq _ _) eq_refl) in E.
        discriminate.
Qed.

Lemma filter_twice {X : Type} (f g : X -> bool) (l : list X) :
  filter f (filter g l) = filter (fun x => g x && f x) l.
Proof.
  induction l as [|x l IH]; [reflexivity|].
  simpl. destruct (g x); simpl; [destruct (f x)|]; now rewrite IH.
Qed.

Lemma filter_ext_all {X : Type} (f g : X -> bool) (l : list X) :
  (forall x, f x = g x) -> filter f l = filter g l.
Proof.
  intros H. induction l as [|x l IH]; [reflexivity|].
  simpl. now rewrite H, IH.
Qed.

Lemma wf_filter (f : segment A -> bool) (segs : list (segment A)) :
  Forall wf segs -> Forall wf (filter f segs).
Proof.
  intros H. apply Forall_forall. intros g Hg.
  apply filter_In in Hg. destruct Hg as [Hg _].
  revert g Hg. now apply Forall_forall.
Qed.

Lemma replace_all (order : list (list A)) :
  Forall (fun x => exists w, x = seq_of w /\ ~ In m w) order ->
  forall segs : list (segment A),
    Forall wf segs ->
    fold_left (fun d s => replace A_eqb s d) order (chunk segs)
    = chunk (filter (kept A_eqb esc m order) segs).
Proof.
  induction 1 as [|x order (w & -> & Hm) Ho IH]; intros segs HF.
  - simpl. f_equal. symmetry. apply forallb_filter_id.
    apply forallb_forall. intros [t|w] _; reflexivity.
  - cbn [fold_left]. rewrite replace_chunk by assumption.
    rewrite IH by now apply wf_filter.
    f_equal. rewrite filter_twice. apply filter_ext_all.
    intros [t|w']; [reflexivity|].
    simpl. rewrite orb_false_r. now rewrite negb_orb.
Qed.

Lemma chunk_without_sequences (order : list (list A))
      (segs : list (segment A)) :
  (forall w, In (Sgr w) segs -> In (seq_of w) order) ->
  chunk (filter (kept A_eqb esc m order) segs) = text_of segs.
Proof.
  induction segs as [|g segs IH]; intros H; [reflexivity|].
  cbn [filter]. destruct g as [t|w]; cbn [kept].
  - cbn [chunk_of text_of flat_map segment_items segment_text].
    f_equal. apply IH. intros w Hw. apply H. now right.
  - assert (E : existsb (list_eqb A_eqb (seq_of w)) order = true).
    { apply existsb_exists. exists (seq_of w). split.
      - apply H. now left.
      - now apply list_eqb_eq. }
    rewrite E. cbn [negb text_of flat_map segment_text app].
    apply IH. intros w' Hw'. apply H. now right.
Qed.

Lemma in_sequences (segs : list (segment A)) (x : list A) :
  In x (sequences esc m segs) <-> exists w, x = seq_of w /\ In (Sgr w) segs.
Proof.
  unfold sequences. rewrite in_flat_map. split.
  - intros ([t|w] & Hg & Hx); [destruct Hx|].
    destruct Hx as [<-|[]]. eauto.
  - intros (w & -> & Hw). exists (Sgr w). split; [exact Hw|now left].
Qed.

Lemma text_of_no_escape (segs : list (segment A)) :
  Forall wf segs -> ~ In esc (text_of segs).
Proof.
  induction 1 as [|g segs Hg HF IH]; [auto|].
  cbn [text_of flat_map]. intros H. apply in_app_or in H.
  destruct H as [H|H]; [|now apply IH].
  destruct g as [t|w]; [now apply Hg|destruct H].
Qed.

(** On a chunk made of text and of well-formed sequences, the scrub
    deletes the sequences and nothing else, whatever the order of the
    set. *)
Lemma clean_chunk (iter : list (list A) -> list (list A))
      (segs : list (segment A)) :
  (forall l x, In x (iter l) <-> In x l) ->
  Forall wf segs ->
  clean A_eqb esc m iter (chunk segs) = text_of segs.
Proof.
  intros Hiter HF. unfold clean. rewrite finditer_chunk by assumption.
  rewrite replace_all; trivial.
  - apply chunk_without_sequences. intros w Hw.
    apply Hiter. apply in_sequences. eauto.
  - apply Forall_forall. intros x Hx.
    apply Hiter, in_sequences in Hx. destruct Hx as (w & -> & Hw).
    exists w. split; [reflexivity|].
    rewrite Forall_forall in HF. now destruct (HF _ Hw) as (_ & _ & Hm).
Qed.

Lemma sequence_not_in_text (segs : list (segment A)) (g : list A) :
  Forall wf segs -> In g (sequences esc m segs) ->
  ~ occurs g (text_of segs).
Proof.
  intros HF Hg (a & b & E).
  apply in_sequences in Hg. destruct Hg as (w & -> & _).
  apply (text_of_no_escape segs HF). rewrite E.
  apply in_or_app. right. now left.
Qed.
End CleanerFacts.

(** The scrub only deletes. *)
Lemma subsequence_refl {A : Type} (x : list A) : subsequence x x.
Proof. induction x; constructor; assumption. Qed.

Lemma subsequence_trans {A : Type} (x y z : list A) :
  subsequence x y -> subsequence y z -> subsequence x z.
Proof.
  intros Hxy Hyz. revert x Hxy.
  induction Hyz as [|c y z Hyz IH|c y z Hyz IH]; intros x Hxy.
  - exact Hxy.
  - constructor. now apply IH.
  - inversion Hxy; subst.
    + apply subsequence_skip. now apply IH.
    + apply subsequence_keep. now apply IH.
Qed.

Lemma replace_from_subsequence {A : Type} (A_eqb : A -> A -> bool)
      (old : list A) (skip : nat) (s : list A) :
  subsequence (replace_from A_eqb old skip s) s.
Proof.
  revert skip. induction s as [|c r IH]; intros skip; [constructor|].
  cbn [replace_from]. destruct skip as [|k].
  - destruct (prefix_of A_eqb old (c :: r));
      [apply subsequence_skip|apply subsequence_keep]; apply IH.
  - apply subsequence_skip. apply IH.
Qed.

Lemma clean_subsequence {A : Type} (A_eqb : A -> A -> bool) (esc m : A)
      (iter : list (list A) -> list (list A)) (data : list A) :
  subsequence (clean A_eqb esc m iter data) data.
Proof.
  unfold clean.
  generalize (iter (finditer A_eqb esc m data)). intros l.
  assert (H : forall d, subsequence d data ->
                        subsequence
                          (fold_left (fun d seq => replace A_eqb seq d) l d)
                          data).
  { induction l as [|g l IH]; intros d Hd; [exact Hd|].
    cbn [fold_left]. apply IH.
    apply subsequence_trans with (y := d); [|exact Hd].
    unfold replace. destruct g; [apply subsequence_refl|].
    apply replace_from_subsequence. }
  apply H, subsequence_refl.
Qed.

Lemma insertion_order_members {A : Type}
      (A_dec : forall x y : list A, {x = y} + {x <> y})
      (l : list (list A)) (x : list A) :
  In x (insertion_order A_dec l) <-> In x l.
Proof.
  unfold insertion_order. now rewrite <- in_rev, nodup_In, <- in_rev.
Qed.

Lemma ordered_runtime_sets : sets_ok ordered_runtime.
Proof. split; intros l x; apply insertion_order_members. Qed.

(** C8, as the code has it: in plain mode the text appended to the
    recording sink is the chunk from which the sequences found by the scan
    (escape, characters other than [m], then [m]) have been deleted one
    after the other, in the order of the set.  When the chunk is made of
    text without escape characters and of sequences that hold one escape
    character, at their head, the result is the chunk without its
    sequences: it holds no escape character, and so none of the sequences
    that the scan found.  This holds for a chunk of bytes when the unicode
    flag is off, and for a chunk of text. *)
Theorem plain_scrub (rt : runtime) (now : Q) (s : Log)
        (segs : list (segment ascii)) (usegs : list (segment N)) :
  sets_ok rt ->
  closed s = false -> rec s = None ->
  Forall (well_formed ESC "m"%char) segs ->
  Forall (well_formed 27%N 109%N) usegs ->
  chunk_of ESC "m"%char segs <> [] ->
  chunk_of 27%N 109%N usegs <> [] ->
  (unicode s = false ->
   write rt now (Str (chunk_of ESC "m"%char segs)) s
   = (mkLog (dev s) (out s ++ [OWrite (Str (chunk_of ESC "m"%char segs))])
            (log s ++ [LWrite (Str (text_of segs))])
            (close_out s) false None now (start s) (unicode s), Ok tt))
  /\ write rt now (Uni (chunk_of 27%N 109%N usegs)) s
     = (mkLog (dev s) (out s ++ [OWrite (Uni (chunk_of 27%N 109%N usegs))])
              (log s ++ [LWrite (Uni (text_of usegs))])
              (close_out s) false None now (start s) (unicode s), Ok tt)
  /\ finditer Ascii.eqb ESC "m"%char (chunk_of ESC "m"%char segs)
     = sequences ESC "m"%char segs
  /\ finditer N.eqb 27%N 109%N (chunk_of 27%N 109%N usegs)
     = sequences 27%N 109%N usegs
  /\ ~ In ESC (text_of segs) /\ ~ In 27%N (text_of usegs)
  /\ (forall g, In g (finditer Ascii.eqb ESC "m"%char
                               (chunk_of ESC "m"%char segs)) ->
                ~ occurs g (text_of segs))
  /\ (forall g, In g (finditer N.eqb 27%N 109%N
                               (chunk_of 27%N 109%N usegs)) ->
                ~ occurs g (text_of usegs)).
Proof.
  intros [Hsb Hsu] Hc Hr HF HFu Hne Hneu.
  assert (Eb : ESC <> "m"%char) by discriminate.
  assert (Eu : 27%N <> 109%N) by discriminate.
  assert (Fb := finditer_chunk Ascii.eqb Ascii.eqb_eq ESC "m"%char segs HF).
  assert (Fu := finditer_chunk N.eqb N.eqb_eq 27%N 109%N usegs HFu).
  repeat split.
  - intros Hu.
    rewrite (write_plain rt now _ (Str (chunk_of ESC "m"%char segs)) s);
      trivial.
    + simpl. now rewrite (clean_chunk Ascii.eqb Ascii.eqb_eq ESC "m"%char Eb).
    + destruct (chunk_of ESC "m"%char segs); [congruence|reflexivity].
    + now rewrite Hu.
  - rewrite (write_plain rt now _ (Uni (chunk_of 27%N 109%N usegs)) s);
      trivial.
    + simpl. now rewrite (clean_chunk N.eqb N.eqb_eq 27%N 109%N Eu).
    + destruct (chunk_of 27%N 109%N usegs); [congruence|reflexivity].
    + now destruct (unicode s).
  - exact Fb.
  - exact Fu.
  - now apply (text_of_no_escape ESC "m"%char).
  - now apply (text_of_no_escape 27%N 109%N).
  - intros g Hg. rewrite Fb in Hg.
    now apply (sequence_not_in_text ESC "m"%char).
  - intros g Hg. rewrite Fu in Hg.
    now apply (sequence_not_in_text 27%N 109%N).
Qed.

(** C8, the claim as it was stated fails: the chunk [ESC] [[1] [ESC] [[1m]
    [m] [ESC] [[1m] holds the sequences [ESC [1 ESC [1m] and [ESC [1m]; the
    set gives the shorter one first; deleting it twice, then the longer one
    (which is not there any more), leaves [ESC [1m] in the recording: a
    sequence that the scan found. *)
Lemma scrub_leaves_a_sequence :
  exists s s',
    init terminal false None None None None false 0 = Ok s
    /\ write cpython_runtime 1
             (Str (ESC :: B "[1" ++ ESC :: B "[1mm" ++ ESC :: B "[1m")) s
       = (s', Ok tt)
    /\ finditer Ascii.eqb ESC "m"%char
                (ESC :: B "[1" ++ ESC :: B "[1mm" ++ ESC :: B "[1m")
       = [ESC :: B "[1" ++ ESC :: B "[1m"; ESC :: B "[1m"]
    /\ set_iter_str cpython_runtime
                    [ESC :: B "[1" ++ ESC :: B "[1m"; ESC :: B "[1m"]
       = [ESC :: B "[1m"; ESC :: B "[1" ++ ESC :: B "[1m"]
    /\ log s' = [LWrite (Str (ESC :: B "[1m"))]
    /\ occurs (ESC :: B "[1m") (ESC :: B "[1m").
Proof.
  eexists. eexists.
  split; [reflexivity|]. split; [vm_compute; reflexivity|].
  split; [reflexivity|]. split; [vm_compute; reflexivity|].
  split; [reflexivity|].
  exists [], []. reflexivity.
Qed.

(** ** Numbers and strings of the asciinema document *)

Lemma digit_is_digit (k : N) : (k < 10)%N -> is_digit (digit k) = true.
Proof.
  intros H. unfold is_digit, digit. rewrite N_ascii_embedding by lia.
  apply andb_true_iff. split; apply N.leb_le; lia.
Qed.

Lemma digit_zero (k : N) : (k < 10)%N -> digit k = "0"%char -> k = 0%N.
Proof.
  intros H E. apply (f_equal N_of_ascii) in E. unfold digit in E.
  rewrite N_ascii_embedding in E by lia.
  change (N_of_ascii "0"%char) with 48%N in E. lia.
Qed.

Lemma dec_fuel_S (f : nat) (n : N) (acc : bytes) :
  dec_fuel (S f) n acc
  = if (n / 10 =? 0)%N then digit (n mod 10) :: acc
    else dec_fuel f (n / 10) (digit (n mod 10) :: acc).
Proof. reflexivity. Qed.

Lemma dec_fuel_digits (f : nat) :
  forall (n : N) (acc : bytes),
    (n < 10 ^ N.of_nat (S f))%N ->
    exists ds,
      dec_fuel (S f) n acc = ds ++ acc
      /\ ds <> [] /\ forallb is_digit ds = true
      /\ (hd "0"%char ds = "0"%char -> n = 0%N)
      /\ (n = 0%N -> ds = ["0"%char]).
Proof.
  assert (Base : forall n acc, (n / 10 = 0)%N ->
            exists ds,
              digit (n mod 10) :: acc = ds ++ acc
              /\ ds <> [] /\ forallb is_digit ds = true
              /\ (hd "0"%char ds = "0"%char -> n = 0%N)
              /\ (n = 0%N -> ds = ["0"%char])).
  { intros n acc Hq.
    assert (Hlt : (n < 10)%N) by (apply N.div_small_iff in Hq; lia).
    rewrite N.mod_small by exact Hlt.
    exists [digit n]. repeat split.
    - discriminate.
    - simpl. now rewrite digit_is_digit.
    - simpl. intros E. now apply digit_zero in E.
    - intros ->. reflexivity. }
  induction f as [|f IH]; intros n acc Hn.
  - change (10 ^ N.of_nat 1)%N with 10%N in Hn.
    assert (Hq : (n / 10 = 0)%N) by (apply N.div_small; lia).
    rewrite dec_fuel_S, Hq. simpl N.eqb. cbv iota.
    now apply Base.
  - rewrite dec_fuel_S.
    assert (Hm : (n mod 10 < 10)%N) by (apply N.mod_lt; lia).
    destruct (n / 10 =? 0)%N eqn:Hq.
    + apply N.eqb_eq in Hq. now apply Base.
    + apply N.eqb_neq in Hq.
      assert (Hd : (n / 10 < 10 ^ N.of_nat (S f))%N).
      { apply N.Div0.div_lt_upper_bound.
        replace (N.of_nat (S (S f))) with (N.succ (N.of_nat (S f))) in Hn
          by lia.
        now rewrite N.pow_succ_r' in Hn. }
      destruct (IH (n / 10)%N (digit (n mod 10) :: acc) Hd)
        as (ds & E & Hne & Hdig & Hhd & _).
      rewrite E. exists (ds ++ [digit (n mod 10)]). repeat split.
      * now rewrite <- app_assoc.
      * destruct ds; discriminate.
      * rewrite forallb_app, Hdig. simpl. now rewrite digit_is_digit.
      * destruct ds as [|c ds]; [congruence|]. simpl. intros Hc.
        exfalso. apply Hq. now apply Hhd.
      * intros ->. exfalso. apply Hq. reflexivity.
Qed.

Lemma dec_of_N_int (n : N) : JInt (dec_of_N n).
Proof.
  unfold dec_of_N.
  assert (Hn : (n < 10 ^ N.of_nat (S (N.to_nat (N.log2 n))))%N).
  { destruct (N.eq_dec n 0) as [->|Hz]; [reflexivity|].
    assert (H2 : (n < 2 ^ N.succ (N.log2 n))%N)
      by (apply N.log2_spec; lia).
    replace (N.of_nat (S (N.to_nat (N.log2 n)))) with (N.succ (N.log2 n))
      by lia.
    eapply N.lt_le_trans; [exact H2|].
    apply N.pow_le_mono_l. lia. }
  destruct (dec_fuel_digits _ n [] Hn) as (ds & E & Hne & Hdig & Hhd & Hz).
  rewrite E, app_nil_r. split; [split; assumption|].
  intros H. apply Hz. now apply Hhd.
Qed.

Lemma JInt_number (sign s : bytes) :
  sign = [] \/ sign = ["-"%char] -> JInt s -> JNumber (sign ++ s).
Proof.
  intros Hs Hi. exists sign, s, [], [].
  split; [now rewrite !app_nil_r|]. split; [exact Hs|].
  split; [exact Hi|]. split; now left.
Qed.

Lemma str_int_number (z : Z) : JNumber (str_int z).
Proof.
  unfold str_int. destruct (z <? 0).
  - apply (JInt_number ["-"%char]); [now right|apply dec_of_N_int].
  - apply (JInt_number []); [now left|apply dec_of_N_int].
Qed.

Lemma hex_value_hexdigit (k : N) :
  (k < 16)%N -> hex_value (hexdigit k) = Some k.
Proof.
  intros H. unfold hex_value, hexdigit.
  destruct (k <? 10)%N eqn:E.
  - apply N.ltb_lt in E. rewrite N_ascii_embedding by lia.
    replace ((48 <=? 48 + k) && (48 + k <=? 57))%N with true
      by (symmetry; apply andb_true_iff; split; apply N.leb_le; lia).
    f_equal. lia.
  - apply N.ltb_ge in E. rewrite N_ascii_embedding by lia.
    replace ((48 <=? 87 + k) && (87 + k <=? 57))%N with false
      by (symmetry; apply andb_false_iff; right; apply N.leb_gt; lia).
    replace ((97 <=? 87 + k) && (87 + k <=? 102))%N with true
      by (symmetry; apply andb_true_iff; split; apply N.leb_le; lia).
    f_equal. lia.
Qed.

Lemma hex4_value_hex4 (n : N) (rest : bytes) (l : list N) :
  (n < 65536)%N -> JChars rest l ->
  JChars (uescape n ++ rest) (n :: l).
Proof.
  intros H Hr. unfold uescape, hex4. cbn [app].
  apply JChars_hex; [|exact Hr].
  unfold hex4_value.
  rewrite !hex_value_hexdigit by (apply N.mod_lt; lia).
  f_equal.
  assert (E1 : (n = 16 * (n / 16) + n mod 16)%N) by (apply N.div_mod; lia).
  assert (E2 : (n / 16 = 16 * (n / 256) + (n / 16) mod 16)%N).
  { replace (n / 256)%N with (n / 16 / 16)%N
      by (now rewrite N.Div0.div_div).
    apply N.div_mod; lia. }
  assert (E3 : (n / 256 = 16 * (n / 4096) + (n / 256) mod 16)%N).
  { replace (n / 4096)%N with (n / 256 / 16)%N
      by (now rewrite N.Div0.div_div).
    apply N.div_mod; lia. }
  assert (E4 : ((n / 4096) mod 16 = n / 4096)%N).
  { apply N.mod_small. apply N.Div0.div_lt_upper_bound. exact H. }
  lia.
Qed.

Lemma surrogate_bound (a x : N) :
  (0 < a)%N -> (N.log2 a < 16)%N -> (N.lor a (N.land x 1023) < 65536)%N.
Proof.
  intros Ha Hl. change 65536%N with (2 ^ 16)%N.
  apply N.log2_lt_pow2.
  - apply N.neq_0_lt_0. intros E.
    apply N.lor_eq_0_iff in E. destruct E as [E _]. subst a.
    now apply N.lt_irrefl in Ha.
  - rewrite N.log2_lor. apply N.max_lub_lt; [exact Hl|].
    change 1023%N with (N.ones 10). rewrite N.land_ones.
    assert (H : (x mod 2 ^ 10 < 2 ^ 10)%N) by (apply N.mod_lt; discriminate).
    destruct (N.eq_dec (x mod 2 ^ 10) 0) as [->|Hz]; [reflexivity|].
    apply N.lt_trans with 10%N; [|reflexivity].
    apply N.log2_lt_pow2; [now apply N.neq_0_lt_0|exact H].
Qed.

Lemma escape_char_chars (c : N) (rest : bytes) (l : list N) :
  JChars rest l -> JChars (escape_char c ++ rest) (utf16_units c ++ l).
Proof.
  intros Hr. unfold escape_char.
  destruct (c =? 34)%N eqn:E1;
    [apply N.eqb_eq in E1; subst; now apply JChars_escape|].
  destruct (c =? 92)%N eqn:E2;
    [apply N.eqb_eq in E2; subst; now apply JChars_escape|].
  destruct (c =? 8)%N eqn:E3;
    [apply N.eqb_eq in E3; subst; now apply JChars_escape|].
  destruct (c =? 12)%N eqn:E4;
    [apply N.eqb_eq in E4; subst; now apply JChars_escape|].
  destruct (c =? 10)%N eqn:E5;
    [apply N.eqb_eq in E5; subst; now apply JChars_escape|].
  destruct (c =? 13)%N eqn:E6;
    [apply N.eqb_eq in E6; subst; now apply JChars_escape|].
  destruct (c =? 9)%N eqn:E7;
    [apply N.eqb_eq in E7; subst; now apply JChars_escape|].
  apply N.eqb_neq in E1, E2.
  unfold utf16_units.
  destruct ((32 <=? c) && (c <=? 126))%N eqn:E8.
  - apply andb_true_iff in E8. destruct E8 as [Hlo Hhi].
    apply N.leb_le in Hlo, Hhi.
    replace (c <? 65536)%N with true by (symmetry; apply N.ltb_lt; lia).
    assert (E : N_of_ascii (ascii_of_N c) = c)
      by (apply N_ascii_embedding; lia).
    cbn [app]. rewrite <- E at 2.
    apply JChars_plain; [|exact Hr].
    unfold unescaped. rewrite E.
    repeat (apply andb_true_iff; split).
    + apply N.leb_le; lia.
    + apply N.ltb_lt; lia.
    + apply negb_true_iff, N.eqb_neq; exact E1.
    + apply negb_true_iff, N.eqb_neq; exact E2.
  - destruct (c <? 65536)%N eqn:E9.
    + apply N.ltb_lt in E9. now apply hex4_value_hex4.
    + rewrite <- app_assoc. cbn [app].
      apply hex4_value_hex4; [now apply surrogate_bound|].
      apply hex4_value_hex4; [now apply surrogate_bound|exact Hr].
Qed.

Lemma encode_text_string (u : text) : JString (encode_text u) (utf16 u).
Proof.
  unfold JString, encode_text. exists (flat_map escape_char u).
  split; [reflexivity|].
  induction u as [|c u IH]; [constructor|].
  cbn [flat_map utf16]. apply escape_char_chars. exact IH.
Qed.


(** ** The asciinema document *)

Lemma plain_chars (b : bytes) :
  forallb unescaped b = true -> JChars b (map N_of_ascii b).
Proof.
  induction b as [|c b IH]; simpl; [constructor|].
  rewrite andb_true_iff. intros [Hc Hb]. now apply JChars_plain; [|apply IH].
Qed.

Lemma key_text (k : string) :
  forallb unescaped (B k) = true ->
  JString (dquote :: B k ++ [dquote]) (K k).
Proof.
  intros H. exists (B k). split; [reflexivity|]. now apply plain_chars.
Qed.

Ltac same_bytes :=
  unfold key;
  repeat first [ rewrite <- app_assoc
               | rewrite app_nil_r
               | progress cbn [app B list_ascii_of_string] ];
  reflexivity.

Lemma JWs_nil : JWs [].
Proof. reflexivity. Qed.

Lemma member_last (k : string) (s : bytes) (v : json) :
  forallb unescaped (B k) = true -> Json s v ->
  JMembers (key k ++ s) [(K k, v)].
Proof.
  intros Hk Hs.
  replace (key k ++ s)
    with ([] ++ (dquote :: B k ++ [dquote]) ++ [] ++ B ":" ++ [] ++ s ++ []).
  - apply JMembers_one; auto using JWs_nil, key_text.
  - same_bytes.
Qed.

Lemma member_cons (k : string) (s r : bytes) (v : json)
      (ms : list (list N * json)) :
  forallb unescaped (B k) = true -> Json s v -> JMembers r ms ->
  JMembers (key k ++ s ++ B "," ++ r) ((K k, v) :: ms).
Proof.
  intros Hk Hs Hr.
  replace (key k ++ s ++ B "," ++ r)
    with ([] ++ (dquote :: B k ++ [dquote]) ++ [] ++ B ":" ++ []
             ++ s ++ [] ++ B "," ++ r).
  - apply JMembers_cons; auto using JWs_nil, key_text.
  - same_bytes.
Qed.

Lemma dumps_opt_str_json (o : option bytes) (j : bytes) :
  dumps_opt_str o = Ok j ->
  exists v, json_of_opt_str o = Ok v /\ Json j v.
Proof.
  destruct o as [b|];
    unfold dumps_opt_str, json_of_opt_str, encode_basestring_ascii.
  - destruct (json_text (Str b)) as [x|]; [|discriminate].
    cbn [rbind]. intros H. injection H as <-.
    exists (JStr (utf16 x)). split; [reflexivity|].
    apply Json_string, encode_text_string.
  - intros H. injection H as <-. exists JNull. split; [reflexivity|].
    apply Json_null.
Qed.

Lemma dumps_num_number (rt : runtime) (delta : pynum) :
  floats_ok rt -> JNumber (dumps_num rt delta).
Proof.
  intros [Hr _]. destruct delta as [z|q]; simpl.
  - apply str_int_number.
  - apply Hr.
Qed.

Lemma frame_text_json (rt : runtime) (delta : pynum) (x : text) :
  floats_ok rt -> Json (frame_text rt delta x) (frame_json rt (delta, x)).
Proof.
  intros Hrt. unfold frame_text, frame_json.
  cbn [fst snd].
  replace (B "[" ++ dumps_num rt delta ++ B ", " ++ encode_text x ++ B "]")
    with (B "[" ++ ([] ++ dumps_num rt delta ++ [] ++ B ","
                       ++ (B " " ++ encode_text x ++ [])) ++ B "]")
    by same_bytes.
  apply Json_array.
  apply JElements_cons; try apply JWs_nil.
  - apply Json_number. now apply dumps_num_number.
  - apply JElements_one; [reflexivity| |apply JWs_nil].
    apply Json_string, encode_text_string.
Qed.

Lemma sink_bytes_frame_calls (rt : runtime) (first : bool) (delta : pynum)
      (x : text) (ds : list pynum) (xs : list text) :
  sink_bytes (frame_calls rt first (delta :: ds) (x :: xs))
  = (if first then [] else B ",") ++ frame_text rt delta x
    ++ sink_bytes (frame_calls rt false ds xs).
Proof.
  cbn [frame_calls]. rewrite sink_bytes_app.
  destruct first; reflexivity.
Qed.

Lemma frames_elements (rt : runtime) (ds : list pynum) :
  floats_ok rt ->
  forall (delta : pynum) (x : text) (xs : list text),
    JElements (frame_text rt delta x
               ++ sink_bytes (frame_calls rt false ds xs))
              (frames_json rt (delta :: ds) (x :: xs)).
Proof.
  intros Hrt. induction ds as [|d' ds IH]; intros delta x xs.
  - cbn [frame_calls sink_bytes]. rewrite app_nil_r.
    replace (frame_text rt delta x) with ([] ++ frame_text rt delta x ++ [])
      by (cbn [app]; now rewrite app_nil_r).
    apply JElements_one; try apply JWs_nil. now apply frame_text_json.
  - destruct xs as [|x' xs].
    + cbn [frame_calls sink_bytes]. rewrite app_nil_r.
      replace (frame_text rt delta x) with ([] ++ frame_text rt delta x ++ [])
        by (cbn [app]; now rewrite app_nil_r).
      apply JElements_one; try apply JWs_nil. now apply frame_text_json.
    + rewrite sink_bytes_frame_calls.
      change (frames_json rt (delta :: d' :: ds) (x :: x' :: xs))
        with (frame_json rt (delta, x) :: frames_json rt (d' :: ds) (x' :: xs)).
      replace (frame_text rt delta x
               ++ B "," ++ frame_text rt d' x'
               ++ sink_bytes (frame_calls rt false ds xs))
        with ([] ++ frame_text rt delta x ++ [] ++ B ","
                 ++ (frame_text rt d' x'
                     ++ sink_bytes (frame_calls rt false ds xs)))
        by reflexivity.
      apply JElements_cons; try apply JWs_nil.
      * now apply frame_text_json.
      * apply IH.
Qed.

Lemma frames_array (rt : runtime) (ds : list pynum) (xs : list text) :
  floats_ok rt ->
  Json (B "[" ++ sink_bytes (frame_calls rt true ds xs) ++ B "]")
       (JArr (frames_json rt ds xs)).
Proof.
  intros Hrt. destruct ds as [|delta ds]; [|destruct xs as [|x xs]].
  - apply (Json_array_empty []). reflexivity.
  - apply (Json_array_empty []). reflexivity.
  - apply Json_array. rewrite sink_bytes_frame_calls. cbn [app].
    now apply frames_elements.
Qed.

Lemma document_json (rt : runtime) (jc jt : bytes) (vc vt : json) (h l : Z)
      (ds : list pynum) (xs : list text) (q : Q) :
  floats_ok rt -> Json jc vc -> Json jt vt ->
  Json (asciinema_header jc jt h l
        ++ sink_bytes (frame_calls rt true ds xs)
        ++ asciinema_footer rt q)
       (document vc vt (str_int h) (str_int l) (frames_json rt ds xs)
                 (float_str rt q)).
Proof.
  intros Hrt Hc Ht.
  set (frames := sink_bytes (frame_calls rt true ds xs)).
  replace (asciinema_header jc jt h l ++ frames ++ asciinema_footer rt q)
    with (B "{"
          ++ (key "command" ++ jc ++ B ","
              ++ key "title" ++ jt ++ B ","
              ++ key "env" ++ B "null" ++ B ","
              ++ key "version" ++ B "1" ++ B ","
              ++ key "width" ++ str_int h ++ B ","
              ++ key "height" ++ str_int l ++ B ","
              ++ key "stdout" ++ (B "[" ++ frames ++ B "]") ++ B ","
              ++ key "duration" ++ float_str rt q)
          ++ B "}").
  - apply Json_object.
    apply member_cons; [reflexivity|exact Hc|].
    apply member_cons; [reflexivity|exact Ht|].
    apply member_cons; [reflexivity|apply Json_null|].
    apply member_cons; [reflexivity| |].
    { apply Json_number. exact (str_int_number 1). }
    apply member_cons; [reflexivity| |].
    { apply Json_number, str_int_number. }
    apply member_cons; [reflexivity| |].
    { apply Json_number, str_int_number. }
    apply member_cons; [reflexivity| |].
    { now apply frames_array. }
    apply member_last; [reflexivity|].
    apply Json_number. apply Hrt.
  - unfold asciinema_header, asciinema_footer. same_bytes.
Qed.

Lemma forallb_rev {X : Type} (f : X -> bool) (l : list X) :
  forallb f (rev l) = forallb f l.
Proof.
  induction l as [|x l IH]; [reflexivity|].
  simpl. rewrite forallb_app, IH. simpl.
  rewrite andb_true_r. apply andb_comm.
Qed.

Lemma strip_zeros_digits (l : bytes) :
  forallb is_digit l = true -> forallb is_digit (strip_zeros l) = true.
Proof.
  induction l as [|c l IH]; [reflexivity|].
  intros H. cbn [strip_zeros]. destruct (Ascii.eqb c "0"); [|exact H].
  apply IH. simpl in H. now apply andb_true_iff in H.
Qed.

Lemma fraction_digits_digits (micro : N) : digits (fraction_digits micro).
Proof.
  unfold fraction_digits.
  set (six := [digit (micro / 100000 mod 10); digit (micro / 10000 mod 10);
               digit (micro / 1000 mod 10); digit (micro / 100 mod 10);
               digit (micro / 10 mod 10); digit (micro mod 10)]%N).
  assert (H6 : forallb is_digit six = true).
  { subst six. cbn [forallb].
    rewrite !digit_is_digit by (apply N.mod_lt; discriminate). reflexivity. }
  assert (H : forallb is_digit (rev (strip_zeros (rev six))) = true).
  { rewrite forallb_rev. apply strip_zeros_digits. now rewrite forallb_rev. }
  destruct (rev (strip_zeros (rev six))) as [|c r].
  - split; [discriminate|reflexivity].
  - split; [discriminate|exact H].
Qed.

Lemma float_decimal_number (q : Q) : JNumber (float_decimal q).
Proof.
  unfold float_decimal.
  exists (if Qnum q <? 0 then ["-"%char] else []),
         (dec_of_N (Z.to_N (Qtrunc (Qabs q)))),
         ("."%char
            :: fraction_digits
                 (Z.to_N (Qtrunc ((Qabs q - inject_Z (Qtrunc (Qabs q)))
                                  * 1000000)))),
         [].
  split; [now rewrite app_nil_r|].
  split; [destruct (Qnum q <? 0); auto|].
  split; [apply dec_of_N_int|].
  split; [right|now left].
  eexists. split; [reflexivity|apply fraction_digits_digits].
Qed.

Lemma ordered_runtime_floats : floats_ok ordered_runtime.
Proof. split; intros q; apply float_decimal_number. Qed.

(** C2, as the code has it: an asciinema session of [n] non-empty writes
    whose chunks have a JSON form (text, or bytes that are valid UTF-8),
    none at a clock reading of zero, followed by one close, returns without
    error; the recording sink receives the header at construction, then the
    [n] frames in call order, separated by commas, then, at close and only
    then, the footer with the duration; and the bytes it then holds are a
    JSON object: the document whose [stdout] array has the [n] frames, in
    order. *)
Theorem asciinema_document (rt : runtime) (d : console) (co : bool)
        (cmd : option bytes) (args : option (list bytes))
        (title : option bytes) (u : bool) (t0 t : Q) (s : Log)
        (l : list (Q * pydata)) (xs : list text) :
  floats_ok rt ->
  isatty d = true ->
  init d co (Some "asciinema"%string) cmd args title u t0 = Ok s ->
  Forall2 (recordable u) l xs ->
  exists s' jc jt vc vt,
    bind (write_each rt l) (fun _ => close rt t) s = (s', Ok tt)
    /\ log s = [LWrite (Str (asciinema_header jc jt (fst (consize d))
                                              (snd (consize d))))]
    /\ log s' = log s
                ++ frame_calls rt true (deltas (map fst l)) xs
                ++ [LWrite (Str (asciinema_footer rt (t - t0))); LClose]
    /\ json_of_opt_str (full_command cmd args) = Ok vc
    /\ json_of_opt_str title = Ok vt
    /\ Json (sink_bytes (log s'))
            (document vc vt (str_int (fst (consize d)))
                      (str_int (snd (consize d)))
                      (frames_json rt (deltas (map fst l)) xs)
                      (float_str rt (t - t0)))
    /\ length (frames_json rt (deltas (map fst l)) xs) = length l.
Proof.
  intros Hrt Ht Hi HF.
  destruct (init_asciinema _ _ _ _ _ _ _ _ Ht Hi) as (jc & jt & Hjc & Hjt & ->).
  destruct (dumps_opt_str_json _ _ Hjc) as (vc & Hvc & Jc).
  destruct (dumps_opt_str_json _ _ Hjt) as (vt & Hvt & Jt).
  match goal with
  | |- context [bind (write_each rt l) _ ?s0] =>
    destruct (write_each_first_frames rt u l xs s0 eq_refl eq_refl eq_refl
                                      eq_refl HF)
      as (s1 & Hw & Hlog & Hla & Hst & Hc1 & Hr1 & Hco & Hu & Hd)
  end.
  cbn [log start] in Hlog, Hst.
  exists (fst (close rt t s1)), jc, jt, vc, vt.
  assert (Hclose := close_open rt t s1 Hc1).
  unfold closing_log in Hclose. rewrite Hr1, Hst in Hclose.
  split; [unfold bind; rewrite Hw, Hclose; reflexivity|].
  split; [reflexivity|].
  rewrite Hclose. cbn [fst log].
  split; [rewrite Hlog, <- app_assoc; reflexivity|].
  split; [exact Hvc|]. split; [exact Hvt|].
  split.
  - rewrite Hlog. rewrite !sink_bytes_app. cbn [sink_bytes app].
    rewrite !app_nil_r, <- app_assoc. now apply document_json.
  - unfold frames_json. rewrite length_map, length_combine.
    assert (Hl : length (deltas (map fst l)) = length l).
    { clear. destruct l as [|c l]; [reflexivity|]. simpl. f_equal.
      generalize (fst c). induction l as [|c' l IH]; intros q;
        [reflexivity|]. simpl. f_equal. apply IH. }
    rewrite Hl, <- (Forall2_length HF). apply Nat.min_id.
Qed.

(** ** Construction on a sink that is not a terminal *)

Lemma sanitised_clean (rt : runtime) (u : bool) (d d' : pydata) :
  sets_ok rt -> recorded u d = Ok d' -> sanitised u d (clean_data rt d').
Proof.
  intros [Hsb Hsu] Hd.
  assert (Eb : ESC <> "m"%char) by discriminate.
  assert (Eu : 27%N <> 109%N) by discriminate.
  assert (Sb : forall b,
             sanitised_chars ESC "m"%char b
               (clean Ascii.eqb ESC "m"%char (set_iter_str rt) b)).
  { intros b. split; [apply clean_subsequence|].
    intros segs HF ->.
    now apply (clean_chunk Ascii.eqb Ascii.eqb_eq ESC "m"%char Eb). }
  assert (Su : forall x,
             sanitised_chars 27%N 109%N x
               (clean N.eqb 27%N 109%N (set_iter_uni rt) x)).
  { intros x. split; [apply clean_subsequence|].
    intros segs HF ->.
    now apply (clean_chunk N.eqb N.eqb_eq 27%N 109%N Eu). }
  unfold recorded in Hd. destruct u.
  - destruct d as [b|x].
    + destruct (utf8_decode Ignore b) as [x|e] eqn:Hx; [|discriminate].
      cbn [rbind] in Hd. injection Hd as <-. cbn [clean_data].
      now apply sanitised_decoded with x.
    + injection Hd as <-. cbn [clean_data]. now apply sanitised_uni.
  - injection Hd as <-. destruct d as [b|x]; cbn [clean_data].
    + now apply sanitised_str.
    + now apply sanitised_uni.
Qed.

Lemma plain_records (rt : runtime) (u : bool) (l : list (Q * pydata)) :
  sets_ok rt ->
  exists recs,
    flat_map (fun c => plain_record rt u (snd c)) l = map LWrite recs
    /\ Forall2 (sanitised u) (filter truthy (map snd l)) recs.
Proof.
  intros Hs. induction l as [|[t d] l (recs & Hl & HF)].
  - exists []. split; [reflexivity|constructor].
  - cbn [flat_map map filter snd]. unfold plain_record at 1.
    destruct (truthy d) eqn:Ht.
    + destruct (recorded_returns u d) as [d' Hd]. rewrite Hd.
      exists (clean_data rt d' :: recs). split.
      * cbn [app map]. now rewrite Hl.
      * constructor; [now apply sanitised_clean|exact HF].
    + exists recs. split; [exact Hl|exact HF].
Qed.

(** C5: a recorder that is asked for the ttyrec or the asciinema mode (or
    any other) on a live sink that is not a terminal is constructed without
    error in plain mode.  At construction the recording sink receives
    nothing, or the one line of the command ([> ], the command, a newline).
    A session of writes followed by [close] returns; the recording sink
    then receives one value for each chunk that is not empty, in call
    order, and one close, and nothing else: no frame header, no JSON header
    or footer.  The value recorded for a chunk holds characters of the
    chunk only (of its UTF-8 decoding when the unicode flag is set), in
    their order; when the chunk is made of text without escape characters
    and of colour sequences, it is the text with the sequences left
    out. *)
Theorem not_a_terminal_records_plain (rt : runtime) (d : console) (co : bool)
        (name : string) (cmd : option bytes) (args : option (list bytes))
        (title : option bytes) (u : bool) (now t : Q)
        (l : list (Q * pydata)) :
  sets_ok rt ->
  isatty d = false ->
  exists s s' recs,
    init d co (Some name) cmd args title u now = Ok s
    /\ rec s = None
    /\ match full_command cmd args with
       | Some (x :: c) =>
         if u
         then exists line,
             utf8_decode Replace (x :: c) = Ok line
             /\ log s = [LWrite (Uni (K "> " ++ line ++ [10%N]))]
         else log s = [LWrite (Str (B "> " ++ x :: c ++ [newline]))]
       | _ => log s = []
       end
    /\ bind (write_each rt l) (fun _ => close rt t) s = (s', Ok tt)
    /\ log s' = log s ++ map LWrite recs ++ [LClose]
    /\ Forall2 (sanitised u) (filter truthy (map snd l)) recs.
Proof.
  intros Hs Ht.
  destruct (init_plain d co (Some name) cmd args title u now
                       (effective_rec_not_a_terminal d _ Ht)) as (l0 & Hi & Hl0).
  set (s := mkLog d [] l0 co false None 0 0 u) in *.
  destruct (write_each_plain rt l s eq_refl eq_refl)
    as (s' & Hw & Hc' & Hr' & Hl').
  destruct (plain_records rt u l Hs) as (recs & Hrecs & HF).
  exists s, (fst (close rt t s')), recs.
  split; [exact Hi|]. split; [reflexivity|]. split.
  { cbn [log s]. rewrite Hl0.
    destruct (full_command cmd args) as [[|x c]|]; try reflexivity.
    destruct u.
    - destruct (header_line_text (x :: c)) as (line & Hline & Hh).
      rewrite Hh. now exists line.
    - now rewrite header_line_bytes. }
  rewrite close_open by assumption. split; [|split; [|exact HF]].
  - unfold bind. rewrite Hw. now rewrite close_open by assumption.
  - cbn [fst log]. unfold closing_log. rewrite Hr', Hl'.
    cbn [unicode s] in *. rewrite Hrecs. cbn [app].
    now rewrite <- app_assoc.
Qed.

(** ** The command at construction *)

(** C10: with a command and a non-empty sequence of arguments, plain mode
    writes the line made of the two characters [> ], the command, a space,
    the arguments joined by spaces and a newline to the recording sink at
    construction, before any write (as text, decoded from UTF-8, when the
    unicode flag is set: the same characters when they are ASCII).  In
    asciinema mode the only thing written at construction is the JSON
    header: an opening brace, the key [command] with the JSON string of the
    command joined with its arguments, then the title, [env], [version],
    the width, the height and the opening of the [stdout] array; the JSON
    string denotes the UTF-8 decoding of the joined command, which is the
    joined command itself when it is ASCII; no line that starts with [> ]
    is written. *)
Theorem command_header (d : console) (co : bool) (r : option string)
        (c : bytes) (a : list bytes) (title : option bytes) (now : Q) :
  c <> [] -> a <> [] ->
  let line := c ++ B " " ++ join_spaces a in
  (effective_rec d r = None ->
   init d co r (Some c) (Some a) title false now
   = Ok (mkLog d [] [LWrite (Str (B "> " ++ line ++ [newline]))]
               co false None 0 0 false)
   /\ exists t,
       utf8_decode Replace line = Ok t
       /\ (forallb is_ascii line = true -> t = map N_of_ascii line)
       /\ init d co r (Some c) (Some a) title true now
          = Ok (mkLog d [] [LWrite (Uni (K "> " ++ t ++ [10%N]))]
                      co false None 0 0 true))
  /\ (isatty d = true ->
      forall u jc jt,
        dumps_opt_str (Some line) = Ok jc ->
        dumps_opt_str title = Ok jt ->
        let q := fun k : string => dquote :: B k ++ dquote :: B ":" in
        let header :=
            B "{" ++ q "command"%string ++ jc
              ++ B "," ++ q "title"%string ++ jt
              ++ B "," ++ q "env"%string ++ B "null,"
              ++ q "version"%string ++ B "1,"
              ++ q "width"%string ++ str_int (fst (consize d))
              ++ B "," ++ q "height"%string ++ str_int (snd (consize d))
              ++ B "," ++ q "stdout"%string ++ B "[" in
        init d co (Some "asciinema"%string) (Some c) (Some a) title u now
        = Ok (mkLog d [] [LWrite (Str header)] co false (Some Asciinema)
                    0 now u)
        /\ occurs jc header
        /\ exists t,
            utf8_decode Strict line = Ok t
            /\ JString jc (utf16 t)
            /\ (forallb is_ascii line = true -> t = map N_of_ascii line)).
Proof.
  intros Hc Ha line. split.
  - intros Hr.
    assert (Hline : exists x y, line = x :: y).
    { subst line. destruct c; [congruence|]. simpl. eauto. }
    destruct Hline as (x & y & Hline).
    split.
    + unfold init. rewrite Hr, full_command_both by assumption.
      fold line. rewrite Hline, header_line_bytes. reflexivity.
    + destruct (header_line_text line) as (t & Ht & Hh).
      exists t. repeat split; trivial.
      * intros Hascii. rewrite utf8_decode_ascii in Ht by assumption.
        congruence.
      * unfold init. rewrite Hr, full_command_both by assumption.
        fold line. rewrite Hline in *. rewrite Hh. reflexivity.
  - intros Ht u jc jt Hjc Hjt q header. split; [|split].
    + unfold init. rewrite full_command_both by assumption. fold line.
      unfold effective_rec. rewrite Ht. simpl String.eqb. cbv iota beta.
      simpl negb. cbv iota beta. simpl andb. cbv iota beta.
      destruct (consize d) as [h l].
      rewrite Hjc. simpl. rewrite Hjt. reflexivity.
    + exists (B "{" ++ q "command"%string).
      eexists. unfold header. rewrite <- app_assoc. reflexivity.
    + unfold dumps_opt_str, encode_basestring_ascii, json_text in Hjc.
      destruct (forallb is_ascii line) eqn:Hascii.
      * cbn [rbind] in Hjc. injection Hjc as <-.
        exists (map N_of_ascii line).
        split; [now apply utf8_decode_ascii|].
        split; [apply encode_text_string|trivial].
      * destruct (utf8_decode Strict line) as [t|e]; [|discriminate].
        cbn [rbind] in Hjc. injection Hjc as <-.
        exists t. split; [reflexivity|].
        split; [apply encode_text_string|discriminate].
Qed.

(** C2, the claim as it was stated fails on a chunk that [json.dumps]
    rejects: after the frame of the chunk [a], the write of the byte [ff]
    records the comma, then raises; the close that follows writes the
    footer after the comma.  Two non-empty chunks were written, the
    document holds one frame, and a comma before the bracket that closes
    the array. *)
Lemma undecodable_chunk_breaks_document :
  exists s1 s2 s3,
    init terminal false (Some "asciinema"%string) None None None false 0
    = Ok (asciinema_session 0)
    /\ write ordered_runtime 1 (Str (B "a")) (asciinema_session 0)
       = (s1, Ok tt)
    /\ write ordered_runtime 2 (Str ["255"%char]) s1
       = (s2, Raise UnicodeDecodeError)
    /\ close ordered_runtime 3 s2 = (s3, Ok tt)
    /\ log s3
       = log (asciinema_session 0)
         ++ [LWrite (Str (frame_text ordered_runtime (PyInt 0) [97%N]));
             LWrite (Str (B ","));
             LWrite (Str (asciinema_footer ordered_runtime (3 - 0)));
             LClose]
    /\ sink_bytes (log s3)
       = asciinema_header (B "null") (B "null") 24 80
         ++ B "[0, " ++ dquote :: B "a" ++ dquote :: B "],],"
         ++ key "duration" ++ B "3.0}".
Proof.
  eexists. eexists. eexists.
  split; [reflexivity|]. split; [reflexivity|]. split; [reflexivity|].
  split; [reflexivity|]. split; reflexivity.
Qed.

(** ** The theorems at work *)

Lemma asciinema_document_witness :
  (floats_ok ordered_runtime
   /\ isatty terminal = true
   /\ init terminal false (Some "asciinema"%string) None None None false 10
      = Ok (asciinema_session 10)
   /\ Forall2 (recordable false)
              [(12%Q, Str (B "a")); ((25 # 2)%Q, Uni [233%N])]
              [[97%N]; [233%N]])
  /\ exists s' vc vt,
      bind (write_each ordered_runtime
                       [(12%Q, Str (B "a")); ((25 # 2)%Q, Uni [233%N])])
           (fun _ => close ordered_runtime 14) (asciinema_session 10)
      = (s', Ok tt)
      /\ Json (sink_bytes (log s'))
              (document vc vt (B "24") (B "80")
                        (frames_json ordered_runtime
                                     [PyInt 0; PyFloat ((25 # 2) - 12)]
                                     [[97%N]; [233%N]])
                        (float_str ordered_runtime (14 - 10))).
Proof.
  assert (H : floats_ok ordered_runtime
              /\ isatty terminal = true
              /\ init terminal false (Some "asciinema"%string) None None None
                      false 10
                 = Ok (asciinema_session 10)
              /\ Forall2 (recordable false)
                         [(12%Q, Str (B "a")); ((25 # 2)%Q, Uni [233%N])]
                         [[97%N]; [233%N]]).
  { split; [exact ordered_runtime_floats|]. split; [reflexivity|].
    split; [reflexivity|].
    repeat constructor. }
  split; [exact H|].
  destruct H as (H1 & H2 & H3 & H4).
  destruct (asciinema_document ordered_runtime terminal false None None None
                               false 10 14 _ _ _ H1 H2 H3 H4)
    as (s' & jc & jt & vc & vt & Hrun & _ & _ & _ & _ & HJ & _).
  exists s', vc, vt. split; [exact Hrun|exact HJ].
Defined.

Lemma not_a_terminal_records_plain_witness :
  (sets_ok ordered_runtime /\ isatty memory_buffer = false)
  /\ exists s s' recs,
      init memory_buffer false (Some "asciinema"%string) (Some (B "ls")) None
           None false 10 = Ok s
      /\ rec s = None
      /\ log s = [LWrite (Str (B "> ls" ++ [newline]))]
      /\ bind (write_each ordered_runtime
                          [(12%Q, Str (chunk_of ESC "m"%char red_bytes))])
              (fun _ => close ordered_runtime 14) s = (s', Ok tt)
      /\ log s' = log s ++ map LWrite recs ++ [LClose]
      /\ Forall2 (sanitised false) [Str (chunk_of ESC "m"%char red_bytes)]
                 recs
      /\ log s' = [LWrite (Str (B "> ls" ++ [newline]));
                   LWrite (Str (B "red")); LClose].
Proof.
  assert (H : sets_ok ordered_runtime /\ isatty memory_buffer = false)
    by (split; [exact ordered_runtime_sets|reflexivity]).
  split; [exact H|].
  destruct H as [H1 H2].
  destruct (not_a_terminal_records_plain ordered_runtime memory_buffer false
              "asciinema"%string (Some (B "ls")) None None false 10 14
              [(12%Q, Str (chunk_of ESC "m"%char red_bytes))] H1 H2)
    as (s & s' & recs & Hi & Hr & Hl & Hw & Hl' & HF).
  exists s, s', recs.
  split; [exact Hi|]. split; [exact Hr|]. split; [exact Hl|].
  split; [exact Hw|]. split; [exact Hl'|]. split; [exact HF|].
  assert (Es : Ok (mkLog memory_buffer []
                         [LWrite (Str (B "> ls" ++ [newline]))]
                         false false None 0 0 false) = Ok s) by exact Hi.
  injection Es as Es. subst s.
  assert (E : s' = fst (bind (write_each ordered_runtime
                                [(12%Q,
                                  Str (chunk_of ESC "m"%char red_bytes))])
                             (fun _ => close ordered_runtime 14)
                             (mkLog memory_buffer []
                                    [LWrite (Str (B "> ls" ++ [newline]))]
                                    false false None 0 0 false)))
    by exact (eq_sym (f_equal fst Hw)).
  rewrite E. reflexivity.
Defined.

Lemma frame_durations_witness :
  (isatty terminal = true
   /\ init terminal false (Some "asciinema"%string) None None None false 10
      = Ok (asciinema_session 10)
   /\ Forall2 (recordable false)
              [(12%Q, Str (B "a")); ((25 # 2)%Q, Uni [233%N])]
              [[97%N]; [233%N]])
  /\ exists s',
      write_each ordered_runtime
                 [(12%Q, Str (B "a")); ((25 # 2)%Q, Uni [233%N])]
                 (asciinema_session 10) = (s', Ok tt)
      /\ log s' = log (asciinema_session 10)
                  ++ frame_calls ordered_runtime true
                                 [PyInt 0; PyFloat ((25 # 2) - 12)]
                                 [[97%N]; [233%N]]
      /\ last s' = (25 # 2)%Q
      /\ start s' = 10%Q.
Proof.
  assert (H : isatty terminal = true
              /\ init terminal false (Some "asciinema"%string) None None None
                      false 10
                 = Ok (asciinema_session 10)
              /\ Forall2 (recordable false)
                         [(12%Q, Str (B "a")); ((25 # 2)%Q, Uni [233%N])]
                         [[97%N]; [233%N]]).
  { split; [reflexivity|]. split; [reflexivity|]. repeat constructor. }
  split; [exact H|].
  destruct H as (H1 & H2 & H3).
  destruct (frame_durations ordered_runtime terminal false None None None
                            false 10 _ _ _ H1 H2 H3)
    as (s' & Hrun & Hlog & _ & Hlast & Hstart & _).
  exists s'. auto.
Defined.

Lemma plain_scrub_witness :
  (sets_ok ordered_runtime
   /\ Forall (well_formed ESC "m"%char) red_bytes
   /\ Forall (well_formed 27%N 109%N) red_text
   /\ chunk_of ESC "m"%char red_bytes <> []
   /\ chunk_of 27%N 109%N red_text <> [])
  /\ write ordered_runtime 12 (Str (chunk_of ESC "m"%char red_bytes))
           (plain_session terminal false)
     = (mkLog terminal [OWrite (Str (chunk_of ESC "m"%char red_bytes))]
              [LWrite (Str (B "red"))] false false None 12 0 false, Ok tt)
  /\ write ordered_runtime 12 (Uni (chunk_of 27%N 109%N red_text))
           (plain_session terminal true)
     = (mkLog terminal [OWrite (Uni (chunk_of 27%N 109%N red_text))]
              [LWrite (Uni [114; 101; 100]%N)] false false None 12 0 true,
        Ok tt).
Proof.
  assert (H : sets_ok ordered_runtime
              /\ Forall (well_formed ESC "m"%char) red_bytes
              /\ Forall (well_formed 27%N 109%N) red_text
              /\ chunk_of ESC "m"%char red_bytes <> []
              /\ chunk_of 27%N 109%N red_text <> []).
  { split; [exact ordered_runtime_sets|].
    split; [|split; [|split; discriminate]].
    - repeat constructor; simpl; try discriminate; intuition discriminate.
    - repeat constructor; simpl; try discriminate; intuition discriminate. }
  split; [exact H|].
  destruct H as (H1 & H2 & H3 & H4 & H5).
  split.
  - exact (proj1 (plain_scrub ordered_runtime 12 (plain_session terminal false)
                              red_bytes red_text H1 eq_refl eq_refl
                              H2 H3 H4 H5) eq_refl).
  - exact (proj1 (proj2 (plain_scrub ordered_runtime 12
                                     (plain_session terminal true)
                                     red_bytes red_text H1 eq_refl eq_refl
                                     H2 H3 H4 H5))).
Defined.


Lemma command_header_witness :
  (B "ls" <> [] /\ [B "-la"; B "x"] <> []
   /\ effective_rec terminal None = None /\ isatty terminal = true)
  /\ init terminal false None (Some (B "ls")) (Some [B "-la"; B "x"]) None
          false 10
     = Ok (mkLog terminal []
                 [LWrite (Str (B "> ls -la x" ++ [newline]))]
                 false false None 0 0 false)
  /\ init terminal false (Some "asciinema"%string) (Some (B "ls"))
          (Some [B "-la"; B "x"]) None false 10
     = Ok (mkLog terminal []
                 [LWrite (Str (B "{" ++ dquote :: B "command" ++ dquote
                                 :: B ":" ++ dquote :: B "ls -la x" ++ dquote
                                 :: B "," ++ dquote :: B "title" ++ dquote
                                 :: B ":null," ++ dquote :: B "env" ++ dquote
                                 :: B ":null," ++ dquote :: B "version"
                                 ++ dquote :: B ":1," ++ dquote :: B "width"
                                 ++ dquote :: B ":24," ++ dquote
                                 :: B "height" ++ dquote :: B ":80,"
                                 ++ dquote :: B "stdout" ++ dquote
                                 :: B ":["))]
                 false false (Some Asciinema) 0 10 false).
Proof.
  assert (H : B "ls" <> [] /\ [B "-la"; B "x"] <> []
              /\ effective_rec terminal None = None
              /\ isatty terminal = true).
  { split; [discriminate|]. split; [discriminate|]. split; reflexivity. }
  split; [exact H|].
  destruct H as (H1 & H2 & H3 & H4).
  split.
  - exact (proj1 (proj1 (command_header terminal false None (B "ls")
                                        [B "-la"; B "x"] None 10 H1 H2) H3)).
  - exact (proj1 (proj2 (command_header terminal false None (B "ls")
                                        [B "-la"; B "x"] None 10 H1 H2)
                        H4 false (dquote :: B "ls -la x" ++ [dquote])
                        (B "null") eq_refl eq_refl)).
Defined.

(** * More of the code *)

(** ** The lifetime of a recorder *)

Lemma out_closes_app (l l' : list out_call) :
  out_closes (l ++ l') = (out_closes l + out_closes l')%nat.
Proof. unfold out_closes. now rewrite filter_app, length_app. Qed.

Lemma write_keeps (rt : runtime) (now : Q) (data : pydata) (s : Log) :
  let s' := fst (write rt now data s) in
  closed s' = closed s /\ close_out s' = close_out s
  /\ closes (log s') = closes (log s)
  /\ out_closes (out s') = out_closes (out s).
Proof.
  intros s'. subst s'.
  destruct (closed s) eqn:Hc; [rewrite write_closed by assumption; auto|].
  destruct (truthy data) eqn:Ht; [|rewrite write_empty by assumption; auto].
  rewrite write_open by assumption. cbv zeta.
  destruct s as [dv o l co c r la st u]. simpl in *. subst c.
  assert (Ho : out_closes (o ++ [OWrite data]) = out_closes o)
    by (rewrite out_closes_app; apply Nat.add_0_r).
  assert (Hl : forall l0 x, closes (l0 ++ [LWrite x]) = closes l0)
    by (intros l0 x; rewrite closes_app; apply Nat.add_0_r).
  destruct (recorded u data) as [d|e]; [|simpl; auto].
  destruct r as [[|]|]; simpl.
  - destruct (nonzero la); simpl;
      match goal with |- context [dumps_frame ?a ?b ?c] =>
        destruct (dumps_frame a b c) end; simpl;
      rewrite ?Hl; auto.
  - match goal with |- context [pack_III ?a ?b ?c] =>
      destruct (pack_III a b c) as [hdr|] end; simpl; auto.
    destruct d as [b|t]; simpl; rewrite ?Hl; auto.
    destruct (ascii_decode hdr); simpl; rewrite ?Hl; auto.
  - rewrite Hl. auto.
Qed.

Lemma del_is_close (rt : runtime) (now : Q) (s : Log) :
  del rt now s = close rt now s.
Proof.
  unfold del, bind, gets. destruct (closed s) eqn:H; [|reflexivity].
  now rewrite close_closed.
Qed.

Lemma close_well_closed (rt : runtime) (now : Q) (co : bool) (s : Log) :
  well_closed co s ->
  well_closed co (fst (close rt now s)) /\ closed (fst (close rt now s)) = true.
Proof.
  intros (Hco & Hl & Ho). split; [|apply close_closes].
  destruct (closed s) eqn:Hc.
  - rewrite close_closed by assumption. cbn [fst].
    unfold well_closed. rewrite Hc. auto.
  - rewrite close_open by assumption. unfold well_closed. cbn [fst].
    cbn [close_out log out closed].
    rewrite closes_app, closes_closing_log, out_closes_app, Hl, Ho.
    unfold closing_out. rewrite Hco. destruct co; auto.
Qed.

Lemma act_well_closed (rt : runtime) (a : action) (co : bool) (s : Log) :
  well_closed co s -> well_closed co (fst (act rt a s)).
Proof.
  intros H. destruct a as [[t d| |size|t]| |t]; simpl.
  - destruct (write_keeps rt t d s) as (Hc & Hco & Hl & Ho).
    destruct H as (H1 & H2 & H3). unfold well_closed.
    now rewrite Hc, Hco, Hl, Ho.
  - unfold flush, bind, gets. destruct (closed s) eqn:Hc; [exact H|].
    destruct H as (H1 & H2 & H3). unfold well_closed. simpl.
    rewrite closes_app, out_closes_app, Hc, H2, H3, Hc. simpl. auto.
  - unfold truncate, bind, gets. destruct (closed s) eqn:Hc; [exact H|].
    destruct H as (H1 & H2 & H3). unfold well_closed. simpl.
    rewrite closes_app, out_closes_app, Hc, H2, H3, Hc. simpl. auto.
  - now apply close_well_closed.
  - unfold getvalue, bind, gets, out_getvalue.
    destruct (if buffered (dev s) then buffer_value (out s) (Str [])
              else Raise AttributeError); [|exact H].
    destruct (closed s) eqn:Hc; [exact H|].
    destruct H as (H1 & H2 & H3). unfold well_closed. simpl.
    rewrite closes_app, Hc, H2, H3, Hc. simpl. auto.
  - rewrite del_is_close. now apply close_well_closed.
Qed.

Lemma lifetime_well_closed (rt : runtime) (l : list action) (co : bool)
      (s : Log) :
  well_closed co s -> well_closed co (lifetime rt l s).
Proof.
  revert s. induction l as [|a l IH]; intros s H; [exact H|].
  apply IH. now apply act_well_closed.
Qed.

Lemma init_well_closed (d : console) (co : bool) (r : option string)
      (cmd : option bytes) (args : option (list bytes)) (title : option bytes)
      (u : bool) (t0 : Q) (s : Log) :
  init d co r cmd args title u t0 = Ok s ->
  well_closed co s /\ closed s = false /\ out s = [].
Proof.
  unfold init.
  destruct (effective_rec d r) as [[|]|].
  - destruct (consize d) as [h l].
    destruct (dumps_opt_str (full_command cmd args)); [|discriminate].
    destruct (dumps_opt_str title); [|discriminate].
    simpl. intros H. injection H as <-. repeat split.
  - intros H. injection H as <-. repeat split.
  - destruct (full_command cmd args) as [[|x c]|];
      try (intros H; injection H as <-; repeat split).
    destruct (header_line u (x :: c)); [|discriminate].
    simpl. intros H. injection H as <-. repeat split.
Qed.

(** X1: over the whole life of a recorder the recording sink is closed
    exactly once and the live sink exactly once if the recorder owns it,
    never otherwise: whatever the caller did (writes, flushes, truncations,
    calls of [getvalue], of [close] and of [__del__], some of which may have
    raised), after the finalisation by [__del__] the session is closed and
    the sinks have been closed that number of times. *)
Theorem closed_exactly_once (rt : runtime) (d : console) (co : bool)
        (r : option string) (cmd : option bytes) (args : option (list bytes))
        (title : option bytes) (u : bool) (t0 t : Q) (s : Log)
        (l : list action) :
  init d co r cmd args title u t0 = Ok s ->
  let s' := fst (del rt t (lifetime rt l s)) in
  closed s' = true
  /\ closes (log s') = 1%nat
  /\ out_closes (out s') = (if co then 1 else 0)%nat.
Proof.
  intros Hi s'. subst s'.
  destruct (init_well_closed _ _ _ _ _ _ _ _ _ Hi) as (Hw & _ & _).
  rewrite del_is_close.
  destruct (close_well_closed rt t co _ (lifetime_well_closed rt l co s Hw))
    as ((_ & Hl & Ho) & Hc).
  rewrite Hc in Hl, Ho. auto.
Qed.

Lemma closed_exactly_once_witness :
  init terminal true (Some "asciinema"%string) None None None false 10
  = Ok (mkLog terminal []
              [LWrite (Str (asciinema_header (B "null") (B "null") 24 80))]
              true false (Some Asciinema) 0 10 false)
  /\ closes (log (fst (del ordered_runtime 14
                (lifetime ordered_runtime
                   [Acall (Cwrite 11 (Str (B "a")));
                    Acall (Cwrite 12 (Str ["255"%char]));
                    Acall (Cclose 13); Agetvalue; Adel 13;
                    Acall (Cclose 13)]
                   (mkLog terminal []
                      [LWrite (Str (asciinema_header (B "null") (B "null")
                                                     24 80))]
                      true false (Some Asciinema) 0 10 false))))) = 1%nat.
Proof.
  split; [reflexivity|].
  exact (proj1 (proj2 (closed_exactly_once ordered_runtime terminal true
           (Some "asciinema"%string) None None None false 10 14 _
           [Acall (Cwrite 11 (Str (B "a")));
            Acall (Cwrite 12 (Str ["255"%char]));
            Acall (Cclose 13); Agetvalue; Adel 13; Acall (Cclose 13)]
           eq_refl))).
Defined.

(** ** Keeping house *)

Lemma same_recording_refl (s : Log) : same_recording s s.
Proof. repeat split. Qed.

Lemma unflushed_app (l l' : list log_call) :
  unflushed (l ++ l') = unflushed l ++ unflushed l'.
Proof. apply filter_app. Qed.

Lemma write_same_recording (rt : runtime) (now : Q) (data : pydata)
      (s1 s2 : Log) :
  same_recording s1 s2 ->
  same_recording (fst (write rt now data s1)) (fst (write rt now data s2)).
Proof.
  intros H.
  destruct s1 as [d1 o1 l1 co1 c1 r1 la1 st1 u1].
  destruct s2 as [d2 o2 l2 co2 c2 r2 la2 st2 u2].
  destruct H as (Hc & Hr & Hla & Hst & Hu & Hco & Hb).
  simpl in Hc, Hr, Hla, Hst, Hu, Hco, Hb. subst c2 r2 la2 st2 u2 co2.
  destruct c1; [rewrite !write_closed by reflexivity; repeat split; assumption|].
  destruct (truthy data) eqn:Ht;
    [|rewrite !write_empty by assumption; repeat split; assumption].
  rewrite !write_open by (assumption || reflexivity). cbv zeta.
  cbn [unicode rec last log out set_out].
  destruct (recorded u1 data) as [d|e]; [|repeat split; assumption].
  assert (Hl : forall l0 l0' x,
             unflushed l0 = unflushed l0' ->
             unflushed (l0 ++ [LWrite x]) = unflushed (l0' ++ [LWrite x])).
  { intros l0 l0' x E. now rewrite !unflushed_app, E. }
  destruct r1 as [[|]|].
  - destruct (nonzero la1);
      match goal with |- context [dumps_frame ?a ?b ?c] =>
        destruct (dumps_frame a b c) end; cbn [fst set_log set_last log];
      repeat split; cbn [log]; trivial;
        repeat (apply Hl; trivial).
  - match goal with |- context [pack_III ?a ?b ?c] =>
      destruct (pack_III a b c) as [hdr|] end;
      [|repeat split; assumption].
    destruct (py_add (Str hdr) d); [|repeat split; assumption].
    repeat split; cbn [fst set_log set_last log]; trivial; now apply Hl.
  - repeat split; cbn [fst set_log set_last log]; trivial; now apply Hl.
Qed.

Lemma close_same_recording (rt : runtime) (now : Q) (s1 s2 : Log) :
  same_recording s1 s2 ->
  same_recording (fst (close rt now s1)) (fst (close rt now s2)).
Proof.
  intros H.
  destruct s1 as [d1 o1 l1 co1 c1 r1 la1 st1 u1].
  destruct s2 as [d2 o2 l2 co2 c2 r2 la2 st2 u2].
  destruct H as (Hc & Hr & Hla & Hst & Hu & Hco & Hb).
  simpl in Hc, Hr, Hla, Hst, Hu, Hco, Hb. subst c2 r2 la2 st2 u2 co2.
  destruct c1; [rewrite !close_closed by reflexivity; repeat split; assumption|].
  rewrite !close_open by reflexivity. unfold closing_log. cbn [fst rec start log].
  repeat split; cbn [log]; trivial.
  now rewrite !unflushed_app, Hb.
Qed.

Lemma housekeeping_same_recording (rt : runtime) (a : action) (s : Log) :
  housekeeping a = true -> same_recording (fst (act rt a s)) s.
Proof.
  assert (Hf : forall l, unflushed (l ++ [LFlush]) = unflushed l).
  { intros l. rewrite unflushed_app. apply app_nil_r. }
  destruct a as [[t d| |size|t]| |t]; try discriminate; intros _; simpl.
  - unfold flush, bind, gets. destruct (closed s) eqn:Hc;
      [apply same_recording_refl|].
    repeat split; simpl; trivial; apply Hf.
  - unfold truncate, bind, gets. destruct (closed s) eqn:Hc;
      [apply same_recording_refl|].
    repeat split; simpl; trivial; apply Hf.
  - unfold getvalue, bind, gets, out_getvalue.
    destruct (if buffered (dev s) then buffer_value (out s) (Str [])
              else Raise AttributeError); [|apply same_recording_refl].
    destruct (closed s) eqn:Hc; [apply same_recording_refl|].
    repeat split; simpl; trivial; apply Hf.
Qed.

Lemma same_recording_trans (s1 s2 s3 : Log) :
  same_recording s1 s2 -> same_recording s2 s3 -> same_recording s1 s3.
Proof.
  unfold same_recording. intros (A1 & A2 & A3 & A4 & A5 & A6 & A7)
                                (B1 & B2 & B3 & B4 & B5 & B6 & B7).
  repeat split; congruence.
Qed.

Lemma housekeeping_keeps_recording (rt : runtime) (a : action)
      (s1 s2 : Log) :
  housekeeping a = true -> same_recording s1 s2 ->
  same_recording (fst (act rt a s1)) s2.
Proof.
  intros Ha H. eapply same_recording_trans; [|exact H].
  now apply housekeeping_same_recording.
Qed.

Lemma act_same_recording (rt : runtime) (a : action) (s1 s2 : Log) :
  housekeeping a = false -> same_recording s1 s2 ->
  same_recording (fst (act rt a s1)) (fst (act rt a s2)).
Proof.
  intros Ha H. destruct a as [[t d| |size|t]| |t]; try discriminate; simpl.
  - now apply write_same_recording.
  - now apply close_same_recording.
  - rewrite !del_is_close. now apply close_same_recording.
Qed.

(** X2: [flush], [truncate] and [getvalue] are invisible in the recording.
    Whatever the caller does, leaving all the calls of these three out of
    it gives a recorder with the same mode, flags and timestamps, whose
    recording sink received the same values (byte strings and texts) and
    the same closes, in the same order; only flushes of the sink differ. *)
Theorem housekeeping_is_transparent (rt : runtime) (l : list action)
        (s : Log) :
  same_recording (lifetime rt l s)
                 (lifetime rt (filter (fun a => negb (housekeeping a)) l) s).
Proof.
  assert (G : forall s1 s2, same_recording s1 s2 ->
            same_recording
              (lifetime rt l s1)
              (lifetime rt (filter (fun a => negb (housekeeping a)) l) s2)).
  { induction l as [|a l IH]; intros s1 s2 H; [exact H|].
    cbn [filter]. destruct (housekeeping a) eqn:Ha; cbn [negb].
    - apply IH. now apply housekeeping_keeps_recording.
    - apply IH. now apply act_same_recording. }
  apply G, same_recording_refl.
Qed.

(** ** The live buffer *)

Lemma buffer_value_app (a b : list out_call) (acc : pydata) :
  buffer_value (a ++ b) acc = rbind (buffer_value a acc) (buffer_value b).
Proof.
  revert acc. induction a as [|c a IH]; intros acc; [reflexivity|].
  destruct c as [d| | |n]; simpl; trivial.
  destruct (py_add acc d); simpl; [apply IH|reflexivity].
Qed.

(** X3: once a session on a memory buffer is closed, [getvalue] makes no
    call on either sink (it does not flush the closed recording sink); it
    still returns the content of the buffer when the recorder does not own
    it, and raises [ValueError] when the recorder owns it, and so has
    closed it. *)
Theorem getvalue_after_close (rt : runtime) (t : Q) (s : Log) (v : pydata) :
  closed s = false -> buffered (dev s) = true ->
  buffer_value (out s) (Str []) = Ok v ->
  let s' := fst (close rt t s) in
  fst (getvalue s') = s'
  /\ snd (getvalue s')
     = if close_out s then Raise ValueError else Ok v.
Proof.
  intros Hc Hb Hv s'. subst s'. rewrite close_open by assumption.
  cbn [fst]. unfold getvalue, bind, gets, out_getvalue, ret.
  cbn [dev out closed]. rewrite Hb, buffer_value_app, Hv. cbn [rbind].
  unfold closing_out. destruct (close_out s); simpl; auto.
Qed.

Lemma getvalue_after_close_witness :
  (closed (after_writes ordered_runtime [(1%Q, Str (B "ab"))]
                        (plain_session memory_buffer false)) = false
   /\ buffered memory_buffer = true)
  /\ snd (getvalue
            (fst (close ordered_runtime 2
                    (after_writes ordered_runtime [(1%Q, Str (B "ab"))]
                                  (plain_session memory_buffer false)))))
     = Ok (Str (B "ab")).
Proof.
  split; [split; reflexivity|].
  exact (proj2 (getvalue_after_close ordered_runtime 2
                  (after_writes ordered_runtime [(1%Q, Str (B "ab"))]
                                (plain_session memory_buffer false))
                  (Str (B "ab")) eq_refl eq_refl eq_refl)).
Defined.

Lemma forwarded_bytes (l : list (Q * bytes)) :
  flat_map (fun c : Q * pydata => forwarded (snd c))
           (map (fun c => (fst c, Str (snd c))) l)
  = flat_map forwarded (map Str (map snd l)).
Proof.
  induction l as [|c l IH]; [reflexivity|].
  cbn [map flat_map snd]. now rewrite IH.
Qed.

(** X4: [truncate] cuts the live buffer and not the recording: on an open
    session on a fresh memory buffer, after the byte chunks [l1], a
    truncation to [size] and the byte chunks [l2], [getvalue] returns the
    first [size] bytes of the chunks [l1] followed by the chunks [l2],
    whatever the recording mode; after [truncate(0)] it returns the chunks
    written since. *)
Theorem truncate_cuts_the_buffer (rt : runtime) (s : Log) (size : Z)
        (l1 l2 : list (Q * bytes)) :
  closed s = false -> buffered (dev s) = true -> out s = [] -> 0 <= size ->
  snd (getvalue
         (after_writes rt (map (fun c => (fst c, Str (snd c))) l2)
            (fst (truncate size
                    (after_writes rt (map (fun c => (fst c, Str (snd c))) l1)
                                  s)))))
  = Ok (Str (firstn (Z.to_nat size) (concat (map snd l1))
             ++ concat (map snd l2))).
Proof.
  intros Hc Hb Ho _.
  set (w1 := map (fun c => (fst c, Str (snd c))) l1).
  set (w2 := map (fun c => (fst c, Str (snd c))) l2).
  destruct (after_writes_forwards rt w1 s Hc) as (Ho1 & Hc1 & Hd1).
  set (s1 := after_writes rt w1 s) in *.
  assert (Ht : truncate size s1
               = (set_log (log s1 ++ [LFlush])
                          (set_out (out s1 ++ [OTruncate size]) s1), Ok tt)).
  { unfold truncate, bind, gets, out_truncate, log_flush, modify.
    now rewrite Hc1. }
  rewrite Ht. cbn [fst].
  set (s2 := set_log _ _).
  destruct (after_writes_forwards rt w2 s2 Hc1) as (Ho2 & Hc2 & Hd2).
  unfold getvalue, bind, gets, out_getvalue, log_flush, modify, ret.
  rewrite Hd2, Hc2, Ho2. subst s2. cbn [dev out set_log set_out].
  rewrite Hd1, Hb, Ho1, Ho. cbn [app].
  subst w1 w2. rewrite !forwarded_bytes.
  rewrite !buffer_value_app, buffer_value_bytes. cbn [rbind app buffer_value].
  cbn [py_firstn]. rewrite buffer_value_bytes.
  now destruct (closed _).
Qed.

Lemma truncate_cuts_the_buffer_witness :
  (closed (plain_session memory_buffer false) = false
   /\ buffered memory_buffer = true /\ 0 <= 0)
  /\ snd (getvalue
            (after_writes ordered_runtime
               (map (fun c => (fst c, Str (snd c))) [(3%Q, B "new")])
               (fst (truncate 0
                       (after_writes ordered_runtime
                          (map (fun c => (fst c, Str (snd c)))
                               [(1%Q, B "old"); (2%Q, B "er")])
                          (plain_session memory_buffer false))))))
     = Ok (Str (B "new")).
Proof.
  split; [repeat split; lia|].
  exact (truncate_cuts_the_buffer ordered_runtime
           (plain_session memory_buffer false) 0
           [(1%Q, B "old"); (2%Q, B "er")] [(3%Q, B "new")]
           eq_refl eq_refl eq_refl (Z.le_refl 0)).
Defined.

(** ** Timestamps and failures of ttyrec frames *)

(** X5: the two time fields of a ttyrec frame hold the clock reading in
    microseconds, rounded to an integer next to it: for a clock reading
    that is not negative, the seconds are not negative, the microseconds are
    between 0 and 1000000, and seconds * 1000000 + microseconds differs from
    the reading times 1000000 by less than one.  The product of the fraction
    by 1000000 is rounded to a double before it is truncated, so the field
    is not always the integer below: it may be the one above. *)
Theorem frame_time_within_a_microsecond (now : Q) :
  (0 <= now)%Q ->
  0 <= seconds now
  /\ 0 <= microseconds now <= 1000000
  /\ (inject_Z (seconds now * 1000000 + microseconds now - 1)
      < now * inject_Z 1000000)%Q
  /\ (now * inject_Z 1000000
      < inject_Z (seconds now * 1000000 + microseconds now + 1))%Q.
Proof.
  intros H0. rewrite seconds_trunc. destruct now as [n d].
  assert (Hn : 0 <= n) by (unfold Qle in H0; simpl in H0; lia).
  destruct (microseconds_floor n d Hn) as (Hk & Hm & Hex).
  remember (microseconds (n # d)) as usec eqn:Hu. clear Hu.
  assert (Hr : 0 <= n mod Z.pos d < Z.pos d) by (apply Z.mod_pos_bound; lia).
  assert (Hnd : n = Z.pos d * (n / Z.pos d) + n mod Z.pos d)
    by (apply Z.div_mod; lia).
  assert (Hkd : n mod Z.pos d * 1000000
                = Z.pos d * (n mod Z.pos d * 1000000 / Z.pos d)
                  + (n mod Z.pos d * 1000000) mod Z.pos d)
    by (apply Z.div_mod; lia).
  assert (Hkr : 0 <= (n mod Z.pos d * 1000000) mod Z.pos d < Z.pos d)
    by (apply Z.mod_pos_bound; lia).
  assert (Hq : 0 <= n / Z.pos d) by (apply Z.div_pos; lia).
  unfold Qlt, Qtrunc. simpl. rewrite Z.quot_div_nonneg by lia.
  rewrite !Pos.mul_1_r, !Z.mul_1_r.
  set (q := n / Z.pos d) in *. set (r := n mod Z.pos d) in *.
  set (kf := r * 1000000 / Z.pos d) in *.
  set (rr := (r * 1000000) mod Z.pos d) in *.
  split; [exact Hq|]. split; [lia|]. split.
  - destruct (Z.eq_dec rr 0) as [E|E]; [rewrite (Hex E)|]; nia.
  - nia.
Qed.

Lemma frame_time_within_a_microsecond_witness :
  (0 <= 5224175567749775 # 18014398509481984)%Q
  /\ microseconds (5224175567749775 # 18014398509481984) = 290000
  /\ (inject_Z (seconds (5224175567749775 # 18014398509481984) * 1000000
                + microseconds (5224175567749775 # 18014398509481984) - 1)
      < (5224175567749775 # 18014398509481984) * inject_Z 1000000)%Q.
Proof.
  assert (H : (0 <= 5224175567749775 # 18014398509481984)%Q)
    by (unfold Qle; simpl; lia).
  split; [exact H|]. split; [reflexivity|].
  exact (proj1 (proj2 (proj2 (frame_time_within_a_microsecond
                                (5224175567749775 # 18014398509481984) H)))).
Defined.

Lemma u32_false_low (v : Z) : v < 0 -> u32 v = false.
Proof.
  intros H. unfold u32.
  replace (0 <=? v) with false by (symmetry; apply Z.leb_gt; lia).
  reflexivity.
Qed.

Lemma u32_false_high (v : Z) : 2 ^ 32 <= v -> u32 v = false.
Proof.
  intros H. unfold u32.
  replace (v <? 2 ^ 32) with false by (symmetry; apply Z.ltb_ge; lia).
  apply andb_false_r.
Qed.

Lemma pack_out_of_range (now : Q) (n : Z) :
  (inject_Z (2 ^ 32) <= now)%Q \/ (now <= - (1 # 1000000))%Q ->
  pack_III (seconds now) (microseconds now) n = Raise StructError.
Proof.
  intros H. unfold pack_III.
  assert (E : u32 (seconds now) && u32 (microseconds now) = false).
  { rewrite seconds_trunc. destruct now as [a d].
    destruct H as [H|H].
    - rewrite u32_false_high; [reflexivity|].
      unfold Qle, Qtrunc in *. simpl in *. rewrite Z.mul_1_r in H.
      rewrite Z.quot_div_nonneg by lia.
      apply Z.div_le_lower_bound; lia.
    - assert (Ha : a * 1000000 <= - Z.pos d)
        by (unfold Qle in H; simpl in H; lia).
      destruct (Z.eq_dec (Qtrunc (a # d)) 0) as [E|E].
      + rewrite (u32_false_low (microseconds _)); [apply andb_false_r|].
        unfold microseconds, float_mul.
        set (p := (fst (modf (a # d)) * 1000000)%Q).
        assert (Hp : (p <= inject_Z (-1))%Q).
        { unfold p, modf. rewrite E. unfold Qle. simpl.
          rewrite !Pos.mul_1_r. lia. }
        assert (H52 : 2 ^ 52 = 4503599627370496) by reflexivity.
        assert (Ht : Qtrunc (nearest_double p) <= -1)
          by (apply Qtrunc_le, nearest_double_le; [lia|exact Hp]).
        lia.
      + rewrite u32_false_low; [reflexivity|].
        assert (Ht : Qtrunc (a # d) <= 0).
        { apply Qtrunc_le. unfold Qle. simpl. lia. }
        lia. }
  now rewrite E.
Qed.

(** X6: in ttyrec mode a write at a clock reading that does not fit the
    header (2^32 seconds or more, or a microsecond or more before zero)
    raises [struct.error]: the chunk has reached the live sink, nothing is
    recorded and the last-write timestamp is not changed. *)
Theorem ttyrec_time_out_of_range (rt : runtime) (now : Q) (data : pydata)
        (s : Log) :
  closed s = false -> rec s = Some Ttyrec -> truthy data = true ->
  (inject_Z (2 ^ 32) <= now)%Q \/ (now <= - (1 # 1000000))%Q ->
  write rt now data s
  = (set_out (out s ++ [OWrite data]) s, Raise StructError).
Proof.
  intros Hc Hr Ht Hnow. rewrite write_open by assumption. cbv zeta.
  destruct (recorded_returns (unicode s) data) as [d ->].
  rewrite Hr, pack_out_of_range by assumption. reflexivity.
Qed.

Lemma ttyrec_time_out_of_range_witness :
  (inject_Z (2 ^ 32) <= 4294967296)%Q
  /\ write ordered_runtime 4294967296 (Str (B "a"))
           (mkLog terminal [] [] false false (Some Ttyrec) 0 0 false)
     = (mkLog terminal [OWrite (Str (B "a"))] [] false false (Some Ttyrec)
              0 0 false, Raise StructError).
Proof.
  assert (H : (inject_Z (2 ^ 32) <= 4294967296)%Q)
    by (unfold Qle; simpl; lia).
  split; [exact H|].
  exact (ttyrec_time_out_of_range ordered_runtime 4294967296 (Str (B "a"))
           (mkLog terminal [] [] false false (Some Ttyrec) 0 0 false)
           eq_refl eq_refl eq_refl (or_introl H)).
Defined.

Lemma le32_first_byte (n : Z) :
  128 <= n < 256 -> forallb is_ascii (le32 n) = false.
Proof.
  intros H. unfold le32. cbn [map forallb].
  replace (is_ascii (ascii_of_N (Z.to_N (Z.land (Z.shiftr n (8 * 0)) 255))))
    with false; [reflexivity|].
  symmetry. unfold is_ascii.
  assert (E := byte_value (Z.shiftr n (8 * 0))).
  rewrite Z.shiftr_0_r in *. rewrite Z.mod_small in E by lia.
  apply N.ltb_ge. lia.
Qed.

(** X7: in ttyrec mode a chunk of text (a [unicode] object, as
    [PupyModule.rawlog] passes) is added to a byte header: when every byte
    of the header is below 0x80 the frame is recorded as a text, otherwise
    the write raises [UnicodeDecodeError] once the chunk has reached the
    live sink, and records nothing; it always raises for a text of 128 to
    255 characters, whose length byte is above 0x7f. *)
Theorem ttyrec_text_chunk (rt : runtime) (now : Q) (x : text) (s : Log) :
  closed s = false -> rec s = Some Ttyrec -> x <> [] ->
  representable now -> Z.of_nat (length x) < 2 ^ 32 ->
  let hdr := ttyrec_header now (Z.of_nat (length x)) in
  write rt now (Uni x) s
  = (if forallb is_ascii hdr
     then (mkLog (dev s) (out s ++ [OWrite (Uni x)])
                 (log s ++ [LWrite (Uni (map N_of_ascii hdr ++ x))])
                 (close_out s) false (Some Ttyrec) now (start s) (unicode s),
           Ok tt)
     else (set_out (out s ++ [OWrite (Uni x)]) s, Raise UnicodeDecodeError))
  /\ (128 <= Z.of_nat (length x) < 256 -> forallb is_ascii hdr = false).
Proof.
  intros Hc Hr Hx Hrep Hlen hdr. split.
  - assert (Ht : truthy (Uni x) = true) by (destruct x; [congruence|reflexivity]).
    rewrite write_open by assumption. cbv zeta.
    assert (Hd : recorded (unicode s) (Uni x) = Ok (Uni x))
      by (unfold recorded; now destruct (unicode s)).
    rewrite Hd, Hr. unfold pack_III.
    rewrite seconds_u32, microseconds_u32 by assumption.
    unfold u32 at 1. cbn [py_len].
    replace (0 <=? Z.of_nat (length x)) with true
      by (symmetry; apply Z.leb_le; lia).
    replace (Z.of_nat (length x) <? 2 ^ 32) with true
      by (symmetry; apply Z.ltb_lt; lia).
    cbn [andb]. fold (ttyrec_header now (Z.of_nat (length x))). fold hdr.
    unfold py_add, ascii_decode.
    destruct (forallb is_ascii hdr); cbn [rbind]; [|reflexivity].
    destruct s as [dv o lg co cl r la st un].
    cbn [closed rec] in Hc, Hr. subst cl r. reflexivity.
  - intros H. subst hdr. unfold ttyrec_header.
    rewrite !forallb_app, (le32_first_byte (Z.of_nat (length x)) H).
    now rewrite !andb_false_r.
Qed.

Lemma ttyrec_text_chunk_witness :
  ([233%N] <> [] /\ representable 1700000000
   /\ Z.of_nat (length [233%N]) < 2 ^ 32)
  /\ write ordered_runtime 1700000000 (Uni [233%N])
           (mkLog terminal [] [] false false (Some Ttyrec) 0 0 false)
     = (mkLog terminal [OWrite (Uni [233%N])] [] false false (Some Ttyrec)
              0 0 false, Raise UnicodeDecodeError).
Proof.
  assert (H : [233%N] <> [] /\ representable 1700000000
              /\ Z.of_nat (length [233%N]) < 2 ^ 32).
  { split; [discriminate|]. split; [|simpl; lia].
    split; unfold Qle, Qlt; simpl; lia. }
  split; [exact H|].
  destruct H as (H1 & H2 & H3).
  exact (proj1 (ttyrec_text_chunk ordered_runtime 1700000000 [233%N]
                  (mkLog terminal [] [] false false (Some Ttyrec) 0 0 false)
                  eq_refl eq_refl H1 H2 H3)).
Defined.

(** ** Compatible systems *)

Lemma mem_In (x : string) (l : list string) : mem x l = true <-> In x l.
Proof.
  unfold mem. rewrite existsb_exists. split.
  - intros (y & Hy & E). apply String.eqb_eq in E. now subst.
  - intros H. exists x. split; [exact H|apply String.eqb_refl].
Qed.

Lemma existsb_stands_for (c : client) (systems : list string) :
  existsb (stands_for c) systems
  = (mem "android" systems && is_android c)
    || (mem "windows" systems && is_windows c)
    || (mem "linux" systems && is_linux c)
    || (mem "solaris" systems && is_solaris c)
    || ((mem "darwin" systems || mem "osx" systems) && is_darwin c)
    || (mem "unix" systems && is_unix c)
    || (mem "posix" systems && is_posix c).
Proof.
  induction systems as [|a l IH]; [reflexivity|].
  cbn [existsb]. rewrite IH. unfold mem. cbn [existsb]. fold (mem "android" l).
  unfold stands_for. rewrite !(String.eqb_sym a).
  repeat match goal with
         | |- context [String.eqb ?k a] =>
           destruct (String.eqb_spec k a) as [<-|_]; [simpl; btauto|]
         end.
  simpl. reflexivity.
Qed.

Lemma is_compatible_verdict (systems : list string) (c : client) :
  fst (is_compatible systems c)
  = mem "all" systems || (length systems =? 0)%nat
    || existsb (stands_for c) systems.
Proof.
  rewrite existsb_stands_for. unfold is_compatible.
  repeat match goal with
         | |- context [if ?b then _ else _] =>
           destruct b; [simpl; rewrite ?orb_true_r; reflexivity|]
         end.
  reflexivity.
Qed.

(** X8: [is_compatible] accepts the client exactly when the list of systems
    is empty, or holds the name [all], or holds a name that stands for a
    system the client says it is ([darwin] and [osx] both stand for
    Darwin); the order of the tests in the code does not matter. *)
Theorem is_compatible_by_names (systems : list string) (c : client) :
  fst (is_compatible systems c) = true
  <-> systems = []
      \/ exists name, In name systems
                      /\ (name = "all"%string \/ stands_for c name = true).
Proof.
  rewrite is_compatible_verdict, !orb_true_iff, existsb_exists, mem_In,
    Nat.eqb_eq, length_zero_iff_nil.
  split.
  - intros [[H|H]|(n & H1 & H2)]; [right; exists "all"%string|left|right; exists n];
      auto.
  - intros [H|(n & H1 & [->|H2])]; [auto|auto|right; now exists n].
Qed.

(** X9: the verdict of [is_compatible] depends only on which names the list
    holds: two lists with the same members, in any order and with any
    repetitions, give the same verdict for every client. *)
Theorem is_compatible_same_names (s1 s2 : list string) (c : client) :
  (forall name, In name s1 <-> In name s2) ->
  fst (is_compatible s1 c) = fst (is_compatible s2 c).
Proof.
  intros H. rewrite !is_compatible_verdict.
  assert (Hall : mem "all" s1 = mem "all" s2)
    by (apply eq_true_iff_eq; rewrite !mem_In; apply H).
  assert (Hlen : (length s1 =? 0)%nat = (length s2 =? 0)%nat).
  { apply eq_true_iff_eq. rewrite !Nat.eqb_eq, !length_zero_iff_nil.
    split; intros ->.
    - destruct s2 as [|x s2]; [reflexivity|].
      destruct (proj2 (H x) (or_introl eq_refl)).
    - destruct s1 as [|x s1]; [reflexivity|].
      destruct (proj1 (H x) (or_introl eq_refl)). }
  assert (Hex : existsb (stands_for c) s1 = existsb (stands_for c) s2).
  { apply eq_true_iff_eq. rewrite !existsb_exists.
    split; intros (n & H1 & H2); exists n; split; auto; now apply H. }
  now rewrite Hall, Hlen, Hex.
Qed.

Lemma is_compatible_same_names_witness :
  (forall name, In name ["linux"; "windows"; "linux"]%string
                <-> In name ["windows"; "linux"]%string)
  /\ forall c, fst (is_compatible ["linux"; "windows"; "linux"]%string c)
               = fst (is_compatible ["windows"; "linux"]%string c).
Proof.
  assert (H : forall name, In name ["linux"; "windows"; "linux"]%string
                           <-> In name ["windows"; "linux"]%string)
    by (intros name; simpl; tauto).
  split; [exact H|].
  intros c.
  exact (is_compatible_same_names ["linux"; "windows"; "linux"]%string
           ["windows"; "linux"]%string c H).
Defined.

(** ** The decorator *)

Lemma kwargs_get_update (k l : string) (f : pyval -> pyval) (kw : kwargs) :
  kwargs_get k (kwargs_update l f kw)
  = if String.eqb k l then option_map f (kwargs_get k kw)
    else kwargs_get k kw.
Proof.
  induction kw as [|[k0 v] r IH]; simpl.
  - now destruct (String.eqb k l).
  - destruct (String.eqb_spec l k0) as [->|Hl]; simpl.
    + now destruct (String.eqb k k0).
    + destruct (String.eqb_spec k k0) as [->|Hk].
      * destruct (String.eqb_spec k0 l) as [->|_]; [congruence|reflexivity].
      * exact IH.
Qed.

Lemma kwargs_update_keys (l : string) (f : pyval -> pyval) (kw : kwargs) :
  map fst (kwargs_update l f kw) = map fst kw.
Proof.
  induction kw as [|[k0 v] r IH]; [reflexivity|].
  simpl. destruct (String.eqb l k0); simpl; [reflexivity|now rewrite IH].
Qed.

Lemma normalise_keys (kw : kwargs) : map fst (normalise kw) = map fst kw.
Proof.
  unfold normalise, listed_keys. cbn [fold_left].
  now rewrite !kwargs_update_keys.
Qed.

Lemma kwargs_get_normalise (k : string) (kw : kwargs) :
  kwargs_get k (normalise kw)
  = if mem k listed_keys then option_map as_list (kwargs_get k kw)
    else kwargs_get k kw.
Proof.
  unfold normalise, listed_keys, mem. cbn [fold_left existsb].
  rewrite !kwargs_get_update.
  repeat match goal with
         | |- context [String.eqb k ?x] =>
           destruct (String.eqb_spec k x) as [->|_]; [reflexivity|]
         end.
  reflexivity.
Qed.

Lemma kwargs_get_other (k k' : string) (v : pyval) (kw1 kw2 : kwargs) :
  String.eqb k' k = false ->
  kwargs_get k' (kw1 ++ (k, v) :: kw2) = kwargs_get k' (kw1 ++ kw2).
Proof.
  intros H. induction kw1 as [|[k0 v0] r IH]; simpl.
  - now rewrite H.
  - now rewrite IH.
Qed.

Lemma class_rebuilder_known (kw kw' : kwargs) (cls : attributes) :
  (forall k, known k = true -> kwargs_get k kw = kwargs_get k kw') ->
  class_rebuilder (normalise kw) cls = class_rebuilder (normalise kw') cls.
Proof.
  intros H. unfold class_rebuilder, kwargs_get_default.
  rewrite !kwargs_get_normalise.
  rewrite (H "tags"%string eq_refl), (H "category"%string eq_refl),
    (H "cat"%string eq_refl), (H "compatibilities"%string eq_refl),
    (H "compatibility"%string eq_refl), (H "compat"%string eq_refl),
    (H "daemon"%string eq_refl), (H "max_clients"%string eq_refl).
  reflexivity.
Qed.

(** X10: a keyword argument that [config] does not know changes none of the
    attributes of the class it builds, wherever the key comes in the
    iteration of the dictionary; it only adds one warning, at its place
    among the warnings. *)
Theorem config_unknown_argument (k : string) (v : pyval) (kw1 kw2 : kwargs)
        (cls : attributes) :
  known k = false ->
  config (kw1 ++ (k, v) :: kw2) cls
  = (fst (config (kw1 ++ kw2) cls),
     snd (config kw1 cls) ++ unknown_argument k :: snd (config kw2 cls)).
Proof.
  intros Hk. unfold config. cbn [fst snd]. f_equal.
  - apply class_rebuilder_known. intros k' Hk'.
    apply kwargs_get_other.
    destruct (String.eqb_spec k' k) as [->|_]; [congruence|reflexivity].
  - rewrite !normalise_keys, map_app, filter_app, map_app.
    cbn [map filter fst]. now rewrite Hk.
Qed.

Lemma config_unknown_argument_witness :
  known "compats" = false
  /\ config [("compat", PStr "windows"); ("compats", PStr "linux");
             ("daemon", PBool true)]%string
            (Build_attributes (PList []) (PStr "general") (PList [])
                              (PBool false) (PInt 0))
     = (Build_attributes (PList []) (PStr "general") (PList [PStr "windows"])
                         (PBool true) (PInt 0),
        [unknown_argument "compats"]).
Proof.
  split; [reflexivity|].
  exact (config_unknown_argument "compats" (PStr "linux")
           [("compat", PStr "windows")]%string [("daemon", PBool true)]%string
           (Build_attributes (PList []) (PStr "general") (PList [])
                             (PBool false) (PInt 0)) eq_refl).
Defined.

(** X11: the attributes that [config] gives the class, read off the keyword
    arguments as they were passed: the tags, and the compatible systems
    (the first of [compatibilities], [compatibility] and [compat] that is
    present), are wrapped in a list unless they are a list already; the
    category ([category], else [cat]), [daemon] and [max_clients] are taken
    as they are; an attribute with no argument keeps the value of the
    decorated class. *)
Theorem config_attributes (kw : kwargs) (cls : attributes) :
  fst (config kw cls)
  = {| tags := match kwargs_get "tags" kw with
               | Some v => as_list v
               | None => tags cls
               end;
       category :=
         kwargs_get_default "category" kw
           (kwargs_get_default "cat" kw (category cls));
       compatible_systems :=
         match kwargs_get "compatibilities" kw with
         | Some v => as_list v
         | None =>
           match kwargs_get "compatibility" kw with
           | Some v => as_list v
           | None =>
             match kwargs_get "compat" kw with
             | Some v => as_list v
             | None => compatible_systems cls
             end
           end
         end;
       daemon := kwargs_get_default "daemon" kw (daemon cls);
       max_clients := kwargs_get_default "max_clients" kw (max_clients cls) |}.
Proof.
  unfold config, class_rebuilder, kwargs_get_default. cbn [fst].
  rewrite !kwargs_get_normalise. cbn [mem listed_keys existsb].
  simpl String.eqb. cbn [orb].
  f_equal;
    repeat match goal with
           | |- context [kwargs_get ?k kw] => destruct (kwargs_get k kw)
           end; reflexivity.
Qed.

(** X12: a module decorated with [compat] set to one name, not in a list,
    gets the list of that one name, so that [is_compatible] compares whole
    names: the module is compatible with a client exactly when the name is
    [all] or stands for a system of the client. *)
Theorem config_single_name (kw : kwargs) (cls : attributes) (name : string)
        (c : client) :
  kwargs_get "compatibilities" kw = None ->
  kwargs_get "compatibility" kw = None ->
  kwargs_get "compat" kw = Some (PStr name) ->
  strings_of (compatible_systems (fst (config kw cls))) = Some [name]
  /\ fst (is_compatible [name] c)
     = String.eqb name "all" || stands_for c name.
Proof.
  intros H1 H2 H3. split.
  - unfold config, class_rebuilder, kwargs_get_default.
    cbn [fst compatible_systems].
    rewrite !kwargs_get_normalise. cbn [mem listed_keys existsb].
    simpl String.eqb. cbn [orb]. now rewrite H1, H2, H3.
  - rewrite is_compatible_verdict. unfold mem. cbn [existsb length Nat.eqb].
    rewrite (String.eqb_sym "all" name). now rewrite !orb_false_r.
Qed.

Lemma config_single_name_witness :
  kwargs_get "compat" [("compat", PStr "windows")]%string
  = Some (PStr "windows")
  /\ strings_of (compatible_systems
                   (fst (config [("compat", PStr "windows")]%string
                           (Build_attributes (PList []) (PStr "general")
                              (PList []) (PBool false) (PInt 0)))))
     = Some ["windows"%string].
Proof.
  split; [reflexivity|].
  exact (proj1 (config_single_name [("compat", PStr "windows")]%string
                  (Build_attributes (PList []) (PStr "general") (PList [])
                     (PBool false) (PInt 0))
                  "windows"
                  (Build_client false true false false false false false)
                  eq_refl eq_refl eq_refl)).
Defined.

(** ** The streams of a module *)

Lemma encode_returns (msg : pydata) : exists u, encode msg = Ok (Uni u).
Proof.
  destruct msg as [b|u]; [|now exists u].
  unfold encode, utf8_decode.
  destruct (lenient_decode_returns Replace (length b) b) as [x ->];
    [discriminate|].
  now exists x.
Qed.

Lemma rawlog_logged (rt : runtime) (now : Q) (msg : pydata) (m : module)
      (lg : Log) :
  stdout m = Logged lg ->
  exists u, fst (rawlog rt now msg m)
            = {| del_close := del_close m;
                 stdout := Logged (fst (write rt now (Uni u) lg)) |}.
Proof.
  intros H. destruct (encode_returns msg) as [u Hu]. exists u.
  unfold rawlog. rewrite Hu, H. unfold stream_write.
  now destruct (write rt now (Uni u) lg).
Qed.

Lemma rawlog_raw (rt : runtime) (now : Q) (msg : pydata) (m : module)
      (d : console) (calls : list out_call) :
  stdout m = Raw d calls ->
  exists u, fst (rawlog rt now msg m)
            = {| del_close := del_close m;
                 stdout := Raw d (calls ++ [OWrite (Uni u)]) |}.
Proof.
  intros H. destruct (encode_returns msg) as [u Hu]. exists u.
  unfold rawlog. now rewrite Hu, H.
Qed.

Lemma after_rawlogs_logged (rt : runtime) (P : Log -> Prop) :
  (forall now data s, P s -> P (fst (write rt now data s))) ->
  forall (l : list (Q * pydata)) (m : module) (lg : Log),
    stdout m = Logged lg -> P lg ->
    exists lg', stdout (after_rawlogs rt l m) = Logged lg' /\ P lg'
                /\ del_close (after_rawlogs rt l m) = del_close m.
Proof.
  intros HP. induction l as [|[now msg] l IH]; intros m lg Hm Hlg.
  - exists lg. auto.
  - destruct (rawlog_logged rt now msg m lg Hm) as [u Hu].
    unfold after_rawlogs in *. cbn [fold_left fst snd]. rewrite Hu.
    destruct (IH {| del_close := del_close m;
                    stdout := Logged (fst (write rt now (Uni u) lg)) |}
                 (fst (write rt now (Uni u) lg)) eq_refl (HP _ _ _ Hlg))
      as (lg' & H1 & H2 & H3).
    exists lg'. auto.
Qed.

Lemma after_rawlogs_raw (rt : runtime) (l : list (Q * pydata)) :
  forall (m : module) (d : console) (calls : list out_call),
    stdout m = Raw d calls ->
    exists calls', stdout (after_rawlogs rt l m) = Raw d calls'
                   /\ out_closes calls' = out_closes calls
                   /\ del_close (after_rawlogs rt l m) = del_close m.
Proof.
  induction l as [|[now msg] l IH]; intros m d calls Hm.
  - exists calls. auto.
  - destruct (rawlog_raw rt now msg m d calls Hm) as [u Hu].
    unfold after_rawlogs in *. cbn [fold_left fst snd]. rewrite Hu.
    destruct (IH {| del_close := del_close m;
                    stdout := Raw d (calls ++ [OWrite (Uni u)]) |}
                 d (calls ++ [OWrite (Uni u)]) eq_refl)
      as (calls' & H1 & H2 & H3).
    exists calls'. repeat split; auto.
    rewrite H2, out_closes_app. apply Nat.add_0_r.
Qed.

Lemma recorded_text (d d' : pydata) :
  recorded true d = Ok d' -> exists u, d' = Uni u.
Proof.
  unfold recorded. destruct d as [b|u].
  - destruct (utf8_decode Ignore b) as [t|e]; [|discriminate].
    simpl. intros H. injection H as <-. now eexists.
  - intros H. injection H as <-. now eexists.
Qed.

Lemma write_text_log (rt : runtime) (now : Q) (data : pydata) (s : Log) :
  unicode s = true /\ rec s = None /\ all_text (log s) ->
  let s' := fst (write rt now data s) in
  unicode s' = true /\ rec s' = None /\ all_text (log s').
Proof.
  intros (Hu & Hr & Ha) s'. subst s'.
  destruct (closed s) eqn:Hc; [rewrite write_closed by assumption; auto|].
  destruct (truthy data) eqn:Ht; [|rewrite write_empty by assumption; auto].
  rewrite write_open by assumption. cbv zeta. rewrite Hu, Hr.
  destruct (recorded true data) as [d|e] eqn:Hd; cbn [fst]; [|auto].
  destruct (recorded_text _ _ Hd) as [u ->].
  cbn [set_last set_log set_out unicode rec log]. repeat split; auto.
  intros x Hx. apply in_app_or in Hx. destruct Hx as [Hx|[Hx|[]]]; [auto|].
  injection Hx as <-. simpl. now eexists.
Qed.

(** X13: a module whose class sets no recording mode opens its log file as
    a UTF-8 text file, and every value that file is given is a text
    ([unicode]), never a byte string: the command header written by
    [Log.__init__] and whatever [rawlog] records afterwards. *)
Theorem text_log_receives_text (rt : runtime) (logs opens : bool)
        (cmdline : list bytes) (now : Q) (f : fresh_module) (m : module)
        (l : list (Q * pydata)) :
  some_string (f_rec f) = false ->
  module_init logs opens cmdline now f = Ok m ->
  all_text (file_calls (stdout (after_rawlogs rt l m))).
Proof.
  intros Hrec Hi. unfold module_init in Hi.
  destruct (f_client f && (logs || some_bytes (f_log_file f))).
  - destruct opens; [|discriminate]. rewrite Hrec in Hi. cbn [negb] in Hi.
    destruct (init _ _ _ _ _ _ _ _) as [lg|e] eqn:Hlg; [|discriminate].
    cbn [rbind] in Hi. injection Hi as <-.
    assert (H0 : unicode lg = true /\ rec lg = None /\ all_text (log lg)).
    { unfold init in Hlg.
      assert (He : effective_rec (f_console f) (f_rec f) = None).
      { unfold effective_rec. unfold some_string in Hrec.
        destruct (f_rec f) as [name|]; [|reflexivity].
        now rewrite Hrec. }
      rewrite He in Hlg.
      destruct (full_command _ _) as [[|x c]|];
        try (injection Hlg as <-; repeat split; intros d []).
      unfold header_line in Hlg.
      destruct (utf8_decode Replace (x :: c)) as [t|]; [|discriminate].
      cbn [rbind py_add] in Hlg.
      destruct (ascii_decode (B "> ")) as [a|]; [|discriminate].
      cbn [rbind py_add] in Hlg.
      destruct (ascii_decode [newline]) as [b|]; [|discriminate].
      cbn [rbind] in Hlg. injection Hlg as <-. repeat split.
      intros d [Hd|[]]. injection Hd as <-. now eexists. }
    destruct (after_rawlogs_logged rt
                (fun s => unicode s = true /\ rec s = None /\ all_text (log s))
                (write_text_log rt) l
                {| del_close := true;
                   stdout := Logged (set_out (f_calls f) lg) |}
                (set_out (f_calls f) lg) eq_refl H0)
      as (lg' & -> & (_ & _ & H) & _).
    exact H.
  - injection Hi as <-.
    destruct (after_rawlogs_raw rt l
                {| del_close := f_del_close f;
                   stdout := Raw (f_console f) (f_calls f) |}
                (f_console f) (f_calls f) eq_refl) as (calls' & -> & _).
    intros d [].
Qed.

Lemma text_log_receives_text_witness :
  some_string None = false
  /\ module_init true true [B "-l"] 5 (module_new true None None None (B "ls"))
     = Ok {| del_close := true;
             stdout := Logged (mkLog memory_buffer []
                                 [LWrite (Uni (K "> ls -l" ++ [10%N]))]
                                 true false None 0 0 true) |}
  /\ all_text
       (file_calls
          (stdout
             (after_rawlogs ordered_runtime
                [(6%Q, Str (B "a")); (7%Q, Str ["233"%char])]
                {| del_close := true;
                   stdout := Logged (mkLog memory_buffer []
                                       [LWrite (Uni (K "> ls -l" ++ [10%N]))]
                                       true false None 0 0 true) |}))).
Proof.
  assert (H1 : some_string None = false) by reflexivity.
  assert (H2 : module_init true true [B "-l"] 5
                 (module_new true None None None (B "ls"))
               = Ok {| del_close := true;
                       stdout := Logged (mkLog memory_buffer []
                                   [LWrite (Uni (K "> ls -l" ++ [10%N]))]
                                   true false None 0 0 true) |})
    by reflexivity.
  split; [exact H1|]. split; [exact H2|].
  exact (text_log_receives_text ordered_runtime true true [B "-l"] 5
           (module_new true None None None (B "ls")) _
           [(6%Q, Str (B "a")); (7%Q, Str ["233"%char])] H1 H2).
Defined.

(** X14: a module closes the streams it owns, once, and no other: after
    [init], any number of calls of [rawlog] and then [free], the log file
    (if [init] opened one) has been closed exactly once, the memory buffer
    that [__init__] made when no stream was given has been closed exactly
    once, and a stream that the caller gave has not been closed. *)
Theorem module_closes_what_it_owns (rt : runtime) (client : bool)
        (given : option (console * list out_call)) (log_file : option bytes)
        (rec_attr : option string) (name : bytes) (logs opens : bool)
        (cmdline : list bytes) (now t : Q) (l : list (Q * pydata))
        (m : module) :
  out_closes (given_calls given) = 0%nat ->
  module_init logs opens cmdline now
              (module_new client given log_file rec_attr name) = Ok m ->
  let m' := fst (free rt t (after_rawlogs rt l m)) in
  out_closes (live_calls (stdout m'))
  = (match given with None => 1 | Some _ => 0 end)%nat
  /\ closes (file_calls (stdout m'))
     = (if client && (logs || some_bytes log_file) then 1 else 0)%nat.
Proof.
  intros Hg Hi m'. subst m'.
  set (co := match given with None => true | Some _ => false end).
  assert (Hf : module_new client given log_file rec_attr name
               = {| f_client := client; f_del_close := co;
                    f_log_file := log_file;
                    f_console := match given with
                                 | Some (d, _) => d
                                 | None => memory_buffer
                                 end;
                    f_calls := given_calls given; f_rec := rec_attr;
                    f_name := name |})
    by (unfold module_new, co; now destruct given as [[d calls]|]).
  rewrite Hf in Hi. clear Hf. unfold module_init in Hi.
  cbn [f_client f_del_close f_log_file f_console f_calls f_rec f_name] in Hi.
  replace (match given with None => 1 | Some _ => 0 end)%nat
    with (if co then 1 else 0)%nat by (unfold co; now destruct given).
  destruct (client && (logs || some_bytes log_file)).
  - destruct opens; [|discriminate].
    destruct (init _ _ _ _ _ _ _ _) as [lg|e] eqn:Hlg; [|discriminate].
    cbn [rbind] in Hi. injection Hi as <-.
    destruct (init_well_closed _ _ _ _ _ _ _ _ _ Hlg) as ((H1 & H2 & H3) & H4 & H5).
    assert (H0 : well_closed co (set_out (given_calls given) lg)).
    { unfold well_closed. cbn [set_out close_out log out closed].
      rewrite H4 in *. rewrite Hg. auto. }
    destruct (after_rawlogs_logged rt (well_closed co)
                (fun now data s H => act_well_closed rt (Acall (Cwrite now data)) co s H)
                l
                {| del_close := true;
                   stdout := Logged (set_out (given_calls given) lg) |}
                (set_out (given_calls given) lg) eq_refl H0)
      as (lg' & Hs & Hw & Hd).
    unfold free. rewrite Hd, Hs. cbn [del_close stream_close].
    destruct (close_well_closed rt t co lg' Hw) as ((_ & Hl & Ho) & Hc).
    destruct (close rt t lg') as [lg2 r]. cbn [fst stdout live_calls file_calls] in *.
    rewrite Hc in Hl, Ho. auto.
  - injection Hi as <-.
    destruct (after_rawlogs_raw rt l
                {| del_close := co;
                   stdout := Raw (match given with
                                  | Some (d, _) => d
                                  | None => memory_buffer
                                  end) (given_calls given) |}
                _ _ eq_refl) as (calls' & Hs & Hc & Hd).
    unfold free. rewrite Hd, Hs. cbn [del_close stream_close].
    destruct co; cbn [fst stdout live_calls file_calls].
    + rewrite out_closes_app, Hc, Hg. auto.
    + rewrite Hs. cbn [live_calls file_calls]. rewrite Hc, Hg. auto.
Qed.

Lemma module_closes_what_it_owns_witness :
  out_closes (given_calls None) = 0%nat
  /\ module_init true true [B "-l"] 5 (module_new true None None None (B "ls"))
     = Ok {| del_close := true;
             stdout := Logged (mkLog memory_buffer []
                                 [LWrite (Uni (K "> ls -l" ++ [10%N]))]
                                 true false None 0 0 true) |}
  /\ (let m' :=
        fst (free ordered_runtime 9
               (after_rawlogs ordered_runtime [(6%Q, Str (B "a"))]
                  {| del_close := true;
                     stdout := Logged (mkLog memory_buffer []
                                         [LWrite (Uni (K "> ls -l" ++ [10%N]))]
                                         true false None 0 0 true) |})) in
      out_closes (live_calls (stdout m')) = 1%nat
      /\ closes (file_calls (stdout m')) = 1%nat).
Proof.
  assert (H1 : out_closes (given_calls None) = 0%nat) by reflexivity.
  assert (H2 : module_init true true [B "-l"] 5
                 (module_new true None None None (B "ls"))
               = Ok {| del_close := true;
                       stdout := Logged (mkLog memory_buffer []
                                   [LWrite (Uni (K "> ls -l" ++ [10%N]))]
                                   true false None 0 0 true) |})
    by reflexivity.
  split; [exact H1|]. split; [exact H2|].
  exact (module_closes_what_it_owns ordered_runtime true None None None
           (B "ls") true true [B "-l"] 5 9 [(6%Q, Str (B "a"))] _ H1 H2).
Defined.

(** ** The name of the log file *)

Lemma prefix_of_bytes (p s : bytes) :
  prefix_of Ascii.eqb p s = true -> exists rest, s = p ++ rest.
Proof.
  revert s. induction p as [|x p IH]; intros s H.
  - now exists s.
  - destruct s as [|y s]; [discriminate|].
    simpl in H. apply andb_true_iff in H. destruct H as [H1 H2].
    apply Ascii.eqb_eq in H1. subst y.
    destruct (IH s H2) as [rest ->]. now exists rest.
Qed.

Lemma replace_with_absent (old new s : bytes) :
  ~ occurs old s -> replace_with_from old new 0 s = s.
Proof.
  induction s as [|c r IH]; intros H; [reflexivity|].
  cbn [replace_with_from].
  destruct (prefix_of Ascii.eqb old (c :: r)) eqn:E.
  - destruct (prefix_of_bytes _ _ E) as [rest Hr].
    exfalso. apply H. exists [], rest. exact Hr.
  - rewrite IH; [reflexivity|].
    intros (a & b & ->). apply H. now exists (c :: a), b.
Qed.

(** X15: of the placeholders of a given log file name, [init] substitutes
    only the one that the dictionary yields last, each replacement starting
    again from the name as given: when that last placeholder does not occur
    in the name, the file is opened under the name as given, the other
    placeholders still in it. *)
Theorem log_path_last_placeholder (items : list (bytes * bytes))
        (k v log_file : bytes) :
  k <> [] -> ~ occurs k log_file ->
  log_path (items ++ [(k, v)]) log_file = Some log_file.
Proof.
  intros Hk Ho. unfold log_path. rewrite fold_left_app. cbn [fold_left fst snd].
  unfold replace_with. destruct k as [|c k]; [congruence|].
  now rewrite replace_with_absent.
Qed.

Lemma log_path_last_placeholder_witness :
  (B "%t" <> [] /\ ~ occurs (B "%t") (B "%c.log"))
  /\ log_path [(B "%c", B "alice"); (B "%t", B "1700000000.0")] (B "%c.log")
     = Some (B "%c.log").
Proof.
  assert (H1 : B "%t" <> []) by discriminate.
  assert (H2 : ~ occurs (B "%t") (B "%c.log")).
  { intros (a & b & H).
    assert (Hin : In "t"%char (B "%c.log")).
    { rewrite H. apply in_or_app. right. simpl. auto. }
    simpl in Hin.
    repeat (destruct Hin as [Hin|Hin]; [discriminate|]). exact Hin. }
  split; [split; [exact H1|exact H2]|].
  exact (log_path_last_placeholder [(B "%c", B "alice")] (B "%t")
           (B "1700000000.0") (B "%c.log") H1 H2).
Defined.

(** ** What the scrub may do *)

(** X16: the plain-mode scrub only deletes: whatever the chunk holds and in
    whatever order the set of matches is iterated (even by a set that would
    yield strings that are not matches), what is recorded is the chunk with
    some of its characters left out, the others in their order; nothing is
    added and nothing is moved. *)
Theorem scrub_only_deletes (rt : runtime) :
  (forall b, exists b', clean_data rt (Str b) = Str b' /\ subsequence b' b)
  /\ (forall u, exists u', clean_data rt (Uni u) = Uni u' /\ subsequence u' u).
Proof.
  split; intros x; eexists; (split; [reflexivity|apply clean_subsequence]).
Qed.

(** ** The mode of a session *)

(** X17: a session records in asciinema or ttyrec mode only if that very
    name was asked for and the live sink is a terminal; any other name, an
    empty name, no name, or a sink that is not a terminal give the plain
    mode. *)
Theorem recording_mode_of_init (d : console) (co : bool) (r : option string)
        (cmd : option bytes) (args : option (list bytes))
        (title : option bytes) (u : bool) (t0 : Q) (s : Log) :
  init d co r cmd args title u t0 = Ok s ->
  (rec s = Some Asciinema <-> r = Some "asciinema"%string /\ isatty d = true)
  /\ (rec s = Some Ttyrec <-> r = Some "ttyrec"%string /\ isatty d = true).
Proof.
  intros Hi.
  assert (Hr : rec s = effective_rec d r).
  { unfold init in Hi.
    destruct (effective_rec d r) as [[|]|].
    - destruct (consize d) as [h l].
      destruct (dumps_opt_str (full_command cmd args)); [|discriminate].
      destruct (dumps_opt_str title); [|discriminate].
      simpl in Hi. now injection Hi as <-.
    - now injection Hi as <-.
    - destruct (full_command cmd args) as [[|x c]|];
        try (now injection Hi as <-).
      destruct (header_line u (x :: c)); [|discriminate].
      simpl in Hi. now injection Hi as <-. }
  rewrite Hr. unfold effective_rec.
  destruct r as [name|]; [|split; split; [discriminate|intros [? _]; discriminate
                                         |discriminate|intros [? _]; discriminate]].
  destruct (String.eqb_spec name "") as [->|_]; cbn [negb andb].
  - split; split; try discriminate; intros [H _]; discriminate.
  - destruct (isatty d).
    + destruct (String.eqb_spec name "asciinema") as [->|Ha].
      * split; split; auto; try discriminate. intros [H _]. discriminate.
      * destruct (String.eqb_spec name "ttyrec") as [->|Ht].
        -- split; split; auto; try discriminate. intros [H _]. discriminate.
        -- split; split; try discriminate; intros [H _]; congruence.
    + split; split; try discriminate; intros [_ H]; discriminate.
Qed.

Lemma recording_mode_of_init_witness :
  init terminal false (Some "script"%string) None None None false 3
  = Ok (mkLog terminal [] [] false false None 0 0 false)
  /\ (rec (mkLog terminal [] [] false false None 0 0 false) = Some Ttyrec
      <-> Some "script"%string = Some "ttyrec"%string
          /\ isatty terminal = true).
Proof.
  assert (H : init terminal false (Some "script"%string) None None None
                   false 3
              = Ok (mkLog terminal [] [] false false None 0 0 false))
    by reflexivity.
  split; [exact H|].
  exact (proj2 (recording_mode_of_init terminal false (Some "script"%string)
                  None None None false 3 _ H)).
Defined.
